(** * StreamRelay: a shallow embedding of the stream fan-out Durable Object

    The development follows the class [StreamRelay] of
    [durable_objects/StreamRelay.ts]: the fields of the class become a
    record, its methods become computations in a small state-and-exception
    monad over the relay and its host (viewer sockets, upstream sockets,
    timers, clock), and the callbacks registered with [addEventListener],
    [setTimeout] and [setInterval] become the cases of an event-driven step
    function. The entry point of the worker, [index.ts], which routes the
    requests to the relay, follows as a function of the request and the two
    sets the module keeps, and after it the two codec fields of the later
    revision of the class that is kept with the deploy script.

    Layout: the runtime fragments, the data model, the monad and the
    platform operations, the class, events and runs, the worker entry
    point, the codec fields of the later revision, the vocabulary of the
    statements with the sample runs, and then the properties. *)

From Stdlib Require Import List String Ascii ZArith Lia Bool Arith.
From Stdlib Require Import Strings.Byte.
From Stdlib Require Import DecimalString.
Import ListNotations.
Open Scope string_scope.

(* ===================================================================== *)
(** * The fragments of the JavaScript runtime the relay relies on *)
(* ===================================================================== *)

Module JS.

(** [String.prototype.split] with a one-character separator: the pieces
    between the separators, in order; a string without the separator is
    the only piece. *)
Fixpoint split (sep : ascii) (s : string) : list string :=
  match s with
  | EmptyString => [EmptyString]
  | String c rest =>
      if Ascii.eqb c sep then EmptyString :: split sep rest
      else match split sep rest with
           | [] => [String c EmptyString]
           | piece :: pieces => String c piece :: pieces
           end
  end.

(** Truthiness of a string: only the empty string is falsy. *)
Definition truthy_string (s : string) : bool := negb (s =? "").

(** [a || b] on an optional string ([undefined] when absent). *)
Definition or_else (a : option string) (b : string) : string :=
  match a with
  | Some s => if truthy_string s then s else b
  | None => b
  end.

(** Does the character occur in the string? *)
Fixpoint mentions (c : ascii) (s : string) : bool :=
  match s with
  | EmptyString => false
  | String d rest => Ascii.eqb d c || mentions c rest
  end.

(** ** JSON.stringify on the flat records the relay serializes *)

Inductive jvalue : Type :=
| JString (s : string)
| JNumber (n : nat)
| JBool (b : bool).

Definition jobject : Type := list (string * jvalue).

Definition hex_digit (n : nat) : ascii :=
  match n with
  | 0 => "0" | 1 => "1" | 2 => "2" | 3 => "3" | 4 => "4" | 5 => "5"
  | 6 => "6" | 7 => "7" | 8 => "8" | 9 => "9" | 10 => "a" | 11 => "b"
  | 12 => "c" | 13 => "d" | 14 => "e" | _ => "f"
  end%char.

(** QuoteJSONString, one code unit at a time. *)
Definition quote_char (c : ascii) : string :=
  let n := nat_of_ascii c in
  if Nat.eqb n 34 then String "\" (String c "")
  else if Nat.eqb n 92 then "\\"
  else if Nat.eqb n 8 then "\b"
  else if Nat.eqb n 9 then "\t"
  else if Nat.eqb n 10 then "\n"
  else if Nat.eqb n 12 then "\f"
  else if Nat.eqb n 13 then "\r"
  else if Nat.ltb n 32 then
    "\u00" ++ String (hex_digit (n / 16)) (String (hex_digit (n mod 16)) "")
  else String c "".

Fixpoint quote_body (s : string) : string :=
  match s with
  | EmptyString => ""
  | String c rest => quote_char c ++ quote_body rest
  end.

Definition dquote : string := String (ascii_of_nat 34) "".

Definition quote (s : string) : string := dquote ++ quote_body s ++ dquote.

Definition number_to_string (n : nat) : string :=
  NilEmpty.string_of_uint (Nat.to_uint n).

Definition stringify_value (v : jvalue) : string :=
  match v with
  | JString s => quote s
  | JNumber n => number_to_string n
  | JBool true => "true"
  | JBool false => "false"
  end.

Fixpoint stringify_members (o : jobject) : string :=
  match o with
  | [] => ""
  | [(k, v)] => quote k ++ ":" ++ stringify_value v
  | (k, v) :: rest => quote k ++ ":" ++ stringify_value v ++ "," ++ stringify_members rest
  end.

Definition stringify (o : jobject) : string := "{" ++ stringify_members o ++ "}".

(** ** Date.prototype.toISOString

    The argument is the time value (milliseconds since the epoch, UTC).
    The proleptic Gregorian date is computed from the day number; the
    rendering is the 24-character form, which is what the runtime
    produces for years 0 to 9999. *)

Definition msPerDay : Z := 86400000.

Definition digit (n : Z) : ascii := ascii_of_nat (48 + Z.to_nat (n mod 10)).

Definition pad2 (n : Z) : string :=
  String (digit (n / 10)) (String (digit n) "").

Definition pad3 (n : Z) : string := String (digit (n / 100)) (pad2 n).

Definition pad4 (n : Z) : string := String (digit (n / 1000)) (pad3 n).

(** Year, month and day of the month of a day number (days since
    1970-01-01). *)
Definition civil_from_days (day : Z) : Z * Z * Z :=
  let z := (day + 719468)%Z in
  let era := (z / 146097)%Z in
  let doe := (z - era * 146097)%Z in
  let yoe := ((doe - doe / 1460 + doe / 36524 - doe / 146096) / 365)%Z in
  let doy := (doe - (365 * yoe + yoe / 4 - yoe / 100))%Z in
  let mp := ((5 * doy + 2) / 153)%Z in
  let d := (doy - (153 * mp + 2) / 5 + 1)%Z in
  let m := (if (mp <? 10)%Z then mp + 3 else mp - 9)%Z in
  let y := (yoe + era * 400 + (if (m <=? 2)%Z then 1 else 0))%Z in
  (y, m, d).

Definition toISOString (t : Z) : string :=
  let day := (t / msPerDay)%Z in
  let ms := (t mod msPerDay)%Z in
  let '(y, m, d) := civil_from_days day in
  pad4 y ++ "-" ++ pad2 m ++ "-" ++ pad2 d ++ "T"
    ++ pad2 (ms / 3600000) ++ ":" ++ pad2 (ms / 60000 mod 60) ++ ":"
    ++ pad2 (ms / 1000 mod 60) ++ "." ++ pad3 (ms mod 1000) ++ "Z".

(** The shape [YYYY-MM-DDTHH:mm:ss.sssZ]. *)
Definition is_digit (c : ascii) : bool :=
  let n := nat_of_ascii c in Nat.leb 48 n && Nat.leb n 57.

Definition iso8601_shape (s : string) : bool :=
  match list_ascii_of_string s with
  | [y1; y2; y3; y4; d1; m1; m2; d2; a1; a2; t; h1; h2; c1; n1; n2; c2;
     s1; s2; p; f1; f2; f3; z] =>
      forallb is_digit [y1; y2; y3; y4; m1; m2; a1; a2; h1; h2; n1; n2;
                        s1; s2; f1; f2; f3]
      && Ascii.eqb d1 "-" && Ascii.eqb d2 "-" && Ascii.eqb t "T"
      && Ascii.eqb c1 ":" && Ascii.eqb c2 ":" && Ascii.eqb p "."
      && Ascii.eqb z "Z"
  | _ => false
  end.

(** ** Strings: trim, toLowerCase, and the character class of the
    sanitizer

    A string is a sequence of code units; the development takes them below
    256. In that range the white space and line terminators [trim] removes
    are the code units 9 to 13, 32 and 160, and [toLowerCase] moves the
    letters A to Z and the capital letters 192 to 222 (but not the
    multiplication sign 215) up by 32. *)
Definition is_whitespace (c : ascii) : bool :=
  let n := nat_of_ascii c in
  (Nat.leb 9 n && Nat.leb n 13) || Nat.eqb n 32 || Nat.eqb n 160.

Fixpoint trimStart (s : string) : string :=
  match s with
  | EmptyString => EmptyString
  | String c rest => if is_whitespace c then trimStart rest else s
  end.

Fixpoint trimEnd (s : string) : string :=
  match s with
  | EmptyString => EmptyString
  | String c rest =>
      match trimEnd rest with
      | EmptyString => if is_whitespace c then EmptyString else String c EmptyString
      | kept => String c kept
      end
  end.

Definition trim (s : string) : string := trimEnd (trimStart s).

Definition lower_char (c : ascii) : ascii :=
  let n := nat_of_ascii c in
  if (Nat.leb 65 n && Nat.leb n 90)
     || (Nat.leb 192 n && Nat.leb n 222 && negb (Nat.eqb n 215))
  then ascii_of_nat (n + 32)
  else c.

Fixpoint toLowerCase (s : string) : string :=
  match s with
  | EmptyString => EmptyString
  | String c rest => String (lower_char c) (toLowerCase rest)
  end.

(** The class [a-zA-Z0-9_-]. *)
Definition is_id_char (c : ascii) : bool :=
  let n := nat_of_ascii c in
  (Nat.leb 97 n && Nat.leb n 122) || (Nat.leb 65 n && Nat.leb n 90)
  || (Nat.leb 48 n && Nat.leb n 57) || Nat.eqb n 95 || Nat.eqb n 45.

(** [s.replace(/[^a-zA-Z0-9_-]/g, '')]. *)
Fixpoint strip_non_id (s : string) : string :=
  match s with
  | EmptyString => EmptyString
  | String c rest =>
      if is_id_char c then String c (strip_non_id rest) else strip_non_id rest
  end.

(** ** Values that come out of JSON.parse

    A number is kept as the decimal literal it was written as, mantissa
    times ten to the exponent; its value is the nearest double. *)
#[warnings="-register-all"] Inductive Json : Type :=
| Jnull
| Jbool (b : bool)
| Jnum (mantissa exponent : Z)
| Jstr (s : string)
| Jarr (items : list Json)
| Jobj (members : list (string * Json)).

(** Is the double nearest to the literal different from zero? Below half of
    the smallest subnormal, 2^-1075, and at it (the tie goes to the even
    neighbour), the literal reads as zero. *)
Definition num_nonzero (mantissa exponent : Z) : bool :=
  if (0 <=? exponent)%Z then negb (mantissa =? 0)%Z
  else (10 ^ (- exponent) <? Z.abs mantissa * 2 ^ 1075)%Z.

(** Truthiness of a value, [None] being [undefined]. *)
Definition truthy_json (v : option Json) : bool :=
  match v with
  | None => false
  | Some Jnull => false
  | Some (Jbool b) => b
  | Some (Jnum m e) => num_nonzero m e
  | Some (Jstr s) => truthy_string s
  | Some (Jarr _) => true
  | Some (Jobj _) => true
  end.

(** The members of a parsed object: when a key is written twice, the later
    one wins. *)
Fixpoint own_property (name : string) (members : list (string * Json)) : option Json :=
  match members with
  | [] => None
  | (k, v) :: rest =>
      match own_property name rest with
      | Some later => Some later
      | None => if k =? name then Some v else None
      end
  end.

(** [value.name] for the property names the code reads ([streamId] and
    [roomId]), neither of which is inherited from a prototype: [None] is
    [undefined]. The read throws on [null], which is told by
    [reads_throw]. *)
Definition property (name : string) (value : Json) : option Json :=
  match value with
  | Jobj members => own_property name members
  | _ => None
  end.

Definition reads_throw (value : Json) : bool :=
  match value with
  | Jnull => true
  | _ => false
  end.

(** A [Set] of strings, in insertion order. *)
Definition Set_has (x : string) (s : list string) : bool := existsb (String.eqb x) s.

Definition Set_add (x : string) (s : list string) : list string :=
  if Set_has x s then s else (s ++ [x])%list.

End JS.

(* ===================================================================== *)
(** * Data model *)
(* ===================================================================== *)

(** What a socket carries: an [ArrayBuffer] for a binary frame (the upstream
    socket has [binaryType = "arraybuffer"]) or a string for a text frame. *)
Inductive Payload : Type :=
| Binary (bytes : list byte)
| Text (text : string).

(** Truthiness of a cached payload: an [ArrayBuffer] is an object and always
    truthy; a string is truthy unless empty; [null] is falsy. *)
Definition truthy (p : option Payload) : bool :=
  match p with
  | None => false
  | Some (Binary _) => true
  | Some (Text t) => JS.truthy_string t
  end.

(** [x === null] on an optional value. *)
Definition is_null {A : Type} (o : option A) : bool :=
  match o with
  | None => true
  | Some _ => false
  end.

(** Handles the host hands out. *)
Definition Socket : Type := nat.     (* server end of a viewer WebSocketPair *)
Definition Conn : Type := nat.       (* upstream WebSocket *)
Definition Timer : Type := nat.      (* setTimeout / setInterval handle *)

Inductive ReadyState : Type := CONNECTING | OPEN | CLOSING | CLOSED.

(** [DurableObjectId]: the optional name and the rendering of [toString()]. *)
Record DurableObjectId : Type := mkId {
  id_name : option string;
  id_toString : string
}.

(** The part of [env] the class reads. *)
Record Env : Type := mkEnv {
  SFU_SERVER_URL : option string
}.

(** The fields of [class StreamRelay], under their names in the source.
    [clients] is the [Map<string, CloudflareWebSocket>], kept as its entries
    in insertion order. *)
Record StreamRelay : Type := mkRelay {
  state_id : DurableObjectId;
  streamId : string;
  sfuConnection : option Conn;
  clients : list (string * Socket);
  codecDescription : option Payload;
  reconnectTimeout : option Timer;
  heartbeatInterval : option Timer;
  isConnectedToSFU : bool;
  sfuUrl : string;
  currentWsUrl : option string
}.

(** What the relay does to the outside, in the order it does it. *)
Inductive Effect : Type :=
| ClientSend (sock : Socket) (data : Payload)
| NewWebSocket (url : string)
| SfuClose (conn : Conn)
| SetTimeout (t : Timer) (delay : Z)
| ClearTimeout (t : Timer)
| SetInterval (t : Timer) (delay : Z)
| ClearInterval (t : Timer).

(** The host side: the platform state the relay acts on through sockets and
    timers. *)
Record Host : Type := mkHost {
  h_broken : list Socket;               (* viewer sockets whose send throws *)
  h_rejects : string -> bool;           (* URLs the WebSocket constructor refuses *)
  h_conns : list (Conn * ReadyState);   (* upstream sockets ever created *)
  h_timeouts : list Timer;              (* pending one-shot timers *)
  h_intervals : list Timer;             (* running interval timers *)
  h_next : nat;                         (* next fresh handle *)
  h_now : Z;                            (* wall clock, ms since the epoch *)
  h_log : list Effect                   (* effects so far, oldest first *)
}.

Record World : Type := mkWorld {
  this : StreamRelay;
  host : Host
}.

(** ** Field updates *)

Definition set_sfuConnection (v : option Conn) (r : StreamRelay) : StreamRelay :=
  mkRelay (state_id r) (streamId r) v (clients r) (codecDescription r)
          (reconnectTimeout r) (heartbeatInterval r) (isConnectedToSFU r)
          (sfuUrl r) (currentWsUrl r).

Definition set_clients (v : list (string * Socket)) (r : StreamRelay) : StreamRelay :=
  mkRelay (state_id r) (streamId r) (sfuConnection r) v (codecDescription r)
          (reconnectTimeout r) (heartbeatInterval r) (isConnectedToSFU r)
          (sfuUrl r) (currentWsUrl r).

Definition set_codecDescription (v : option Payload) (r : StreamRelay) : StreamRelay :=
  mkRelay (state_id r) (streamId r) (sfuConnection r) (clients r) v
          (reconnectTimeout r) (heartbeatInterval r) (isConnectedToSFU r)
          (sfuUrl r) (currentWsUrl r).

Definition set_reconnectTimeout (v : option Timer) (r : StreamRelay) : StreamRelay :=
  mkRelay (state_id r) (streamId r) (sfuConnection r) (clients r) (codecDescription r)
          v (heartbeatInterval r) (isConnectedToSFU r)
          (sfuUrl r) (currentWsUrl r).

Definition set_heartbeatInterval (v : option Timer) (r : StreamRelay) : StreamRelay :=
  mkRelay (state_id r) (streamId r) (sfuConnection r) (clients r) (codecDescription r)
          (reconnectTimeout r) v (isConnectedToSFU r)
          (sfuUrl r) (currentWsUrl r).

Definition set_isConnectedToSFU (v : bool) (r : StreamRelay) : StreamRelay :=
  mkRelay (state_id r) (streamId r) (sfuConnection r) (clients r) (codecDescription r)
          (reconnectTimeout r) (heartbeatInterval r) v
          (sfuUrl r) (currentWsUrl r).

Definition set_currentWsUrl (v : option string) (r : StreamRelay) : StreamRelay :=
  mkRelay (state_id r) (streamId r) (sfuConnection r) (clients r) (codecDescription r)
          (reconnectTimeout r) (heartbeatInterval r) (isConnectedToSFU r)
          (sfuUrl r) v.

Definition set_broken (v : list Socket) (h : Host) : Host :=
  mkHost v (h_rejects h) (h_conns h) (h_timeouts h) (h_intervals h)
         (h_next h) (h_now h) (h_log h).

Definition set_conns (v : list (Conn * ReadyState)) (h : Host) : Host :=
  mkHost (h_broken h) (h_rejects h) v (h_timeouts h) (h_intervals h)
         (h_next h) (h_now h) (h_log h).

Definition set_timeouts (v : list Timer) (h : Host) : Host :=
  mkHost (h_broken h) (h_rejects h) (h_conns h) v (h_intervals h)
         (h_next h) (h_now h) (h_log h).

Definition set_intervals (v : list Timer) (h : Host) : Host :=
  mkHost (h_broken h) (h_rejects h) (h_conns h) (h_timeouts h) v
         (h_next h) (h_now h) (h_log h).

Definition set_next (v : nat) (h : Host) : Host :=
  mkHost (h_broken h) (h_rejects h) (h_conns h) (h_timeouts h) (h_intervals h)
         v (h_now h) (h_log h).

Definition set_now (v : Z) (h : Host) : Host :=
  mkHost (h_broken h) (h_rejects h) (h_conns h) (h_timeouts h) (h_intervals h)
         (h_next h) v (h_log h).

Definition set_log (v : list Effect) (h : Host) : Host :=
  mkHost (h_broken h) (h_rejects h) (h_conns h) (h_timeouts h) (h_intervals h)
         (h_next h) (h_now h) v.

(** ** The [Map] of clients *)

Definition Map_get (k : string) (m : list (string * Socket)) : option Socket :=
  match find (fun e => fst e =? k) m with
  | Some e => Some (snd e)
  | None => None
  end.

Definition Map_has (k : string) (m : list (string * Socket)) : bool :=
  existsb (fun e => fst e =? k) m.

Definition Map_delete (k : string) (m : list (string * Socket)) : list (string * Socket) :=
  filter (fun e => negb (fst e =? k)) m.

(** [Map.prototype.set]: an existing key keeps its place and gets the new
    value; a new key goes to the end. *)
Fixpoint Map_set (k : string) (v : Socket) (m : list (string * Socket))
  : list (string * Socket) :=
  match m with
  | [] => [(k, v)]
  | e :: rest => if fst e =? k then (k, v) :: rest else e :: Map_set k v rest
  end.

Definition Map_size (m : list (string * Socket)) : nat := List.length m.

(* ===================================================================== *)
(** * Computations: state of the world plus JavaScript exceptions *)
(* ===================================================================== *)

Inductive Completion (A : Type) : Type :=
| Normal (value : A)
| Throw (error : string).

Arguments Normal {A} value.
Arguments Throw {A} error.

Definition JSM (A : Type) : Type := World -> Completion A * World.

Definition ret {A : Type} (a : A) : JSM A := fun w => (Normal a, w).

Definition bind {A B : Type} (m : JSM A) (k : A -> JSM B) : JSM B :=
  fun w =>
    match m w with
    | (Normal a, w') => k a w'
    | (Throw e, w') => (Throw e, w')
    end.

Definition throw {A : Type} (e : string) : JSM A := fun w => (Throw e, w).

(** [try { m } catch (error) { handler error }]: what [m] did before it
    threw stays done. *)
Definition try_catch (m : JSM unit) (handler : string -> JSM unit) : JSM unit :=
  fun w =>
    match m w with
    | (Normal a, w') => (Normal a, w')
    | (Throw e, w') => handler e w'
    end.

Declare Scope js_scope.
Delimit Scope js_scope with js.
Notation "x <- m ;; k" := (bind m (fun x => k))
  (at level 61, m at next level, right associativity) : js_scope.
Notation "m ;; k" := (bind m (fun _ => k))
  (at level 61, right associativity) : js_scope.
Open Scope js_scope.

Definition exec {A : Type} (m : JSM A) (w : World) : World := snd (m w).
Definition outcome {A : Type} (m : JSM A) (w : World) : Completion A := fst (m w).

(** Reading and assigning fields of [this]; reading and changing the host. *)
Definition gets {A : Type} (f : StreamRelay -> A) : JSM A :=
  fun w => (Normal (f (this w)), w).

Definition assign (f : StreamRelay -> StreamRelay) : JSM unit :=
  fun w => (Normal tt, mkWorld (f (this w)) (host w)).

Definition platform {A : Type} (f : Host -> A) : JSM A :=
  fun w => (Normal (f (host w)), w).

Definition host_do (f : Host -> Host) : JSM unit :=
  fun w => (Normal tt, mkWorld (this w) (f (host w))).

Definition emit (e : Effect) : JSM unit :=
  host_do (fun h => set_log (h_log h ++ [e]) h).

(** ** Platform operations *)

Definition is_broken (sock : Socket) (h : Host) : bool :=
  existsb (Nat.eqb sock) (h_broken h).

(** [socket.send(data)] on a viewer socket: throws when the transport is
    broken, otherwise the frame is on its way. *)
Definition viewer_send (sock : Socket) (data : Payload) : JSM unit :=
  bad <- platform (is_broken sock) ;;
  if bad then throw "send failed" else emit (ClientSend sock data).

(** [new WebSocketPair()] followed by [server.accept()]: a fresh server
    socket; [dead] tells whether its transport is already broken. *)
Definition new_WebSocketPair (dead : bool) : JSM Socket :=
  sock <- platform h_next ;;
  host_do (fun h => set_next (S sock)
                      (set_broken (if dead then sock :: h_broken h else h_broken h) h)) ;;
  ret sock.

(** [new WebSocket(url)]: throws on a URL the constructor refuses, otherwise
    a fresh upstream socket in state CONNECTING. *)
Definition new_WebSocket (url : string) : JSM Conn :=
  emit (NewWebSocket url) ;;
  bad <- platform (fun h => h_rejects h url) ;;
  if bad then throw "SyntaxError"
  else
    c <- platform h_next ;;
    host_do (fun h => set_next (S c) (set_conns (h_conns h ++ [(c, CONNECTING)]) h)) ;;
    ret c.

Definition closing (c : Conn) (e : Conn * ReadyState) : Conn * ReadyState :=
  if Nat.eqb (fst e) c then
    match snd e with
    | CONNECTING | OPEN => (fst e, CLOSING)
    | CLOSING | CLOSED => e
    end
  else e.

(** [ws.close()]: starts the closing handshake; the close event comes
    later. *)
Definition ws_close (c : Conn) : JSM unit :=
  emit (SfuClose c) ;;
  host_do (fun h => set_conns (map (closing c) (h_conns h)) h).

Definition without (t : Timer) (ts : list Timer) : list Timer :=
  filter (fun u => negb (Nat.eqb u t)) ts.

Definition setTimeout (delay : Z) : JSM Timer :=
  t <- platform h_next ;;
  host_do (fun h => set_next (S t) (set_timeouts (t :: h_timeouts h) h)) ;;
  emit (SetTimeout t delay) ;;
  ret t.

Definition clearTimeout (t : Timer) : JSM unit :=
  host_do (fun h => set_timeouts (without t (h_timeouts h)) h) ;;
  emit (ClearTimeout t).

Definition setInterval (delay : Z) : JSM Timer :=
  t <- platform h_next ;;
  host_do (fun h => set_next (S t) (set_intervals (t :: h_intervals h) h)) ;;
  emit (SetInterval t delay) ;;
  ret t.

Definition clearInterval (t : Timer) : JSM unit :=
  host_do (fun h => set_intervals (without t (h_intervals h)) h) ;;
  emit (ClearInterval t).

(** [new Date().toISOString()]. *)
Definition now_iso : JSM string :=
  platform (fun h => JS.toISOString (h_now h)).

(** [for (const [clientId, client] of this.clients.entries()) body]: the
    iterator is live, so an entry deleted before the loop reaches it is not
    visited; nothing is inserted while the relay iterates. *)
Fixpoint for_of_entries (entries : list (string * Socket))
                        (body : string -> Socket -> JSM unit) : JSM unit :=
  match entries with
  | [] => ret tt
  | (clientId, client) :: rest =>
      live <- gets (fun r => Map_has clientId (clients r)) ;;
      (if live then body clientId client else ret tt) ;;
      for_of_entries rest body
  end.

(* ===================================================================== *)
(** * The class StreamRelay *)
(* ===================================================================== *)

(** [state.id.name?.split(":")[1] || "test_stream"] and
    [env.SFU_SERVER_URL || "ws://127.0.0.1:5500"]. *)
Definition constructor (state : DurableObjectId) (env : Env) : StreamRelay :=
  {| state_id := state;
     streamId :=
       JS.or_else
         (match id_name state with
          | Some name => nth_error (JS.split ":" name) 1
          | None => None
          end)
         "test_stream";
     sfuConnection := None;
     clients := [];
     codecDescription := None;
     reconnectTimeout := None;
     heartbeatInterval := None;
     isConnectedToSFU := false;
     sfuUrl := JS.or_else (SFU_SERVER_URL env) "ws://127.0.0.1:5500";
     currentWsUrl := None |}.

(** The object literal both status senders serialize. *)
Definition statusRecord (message timestamp : string) (connected : bool) : JS.jobject :=
  [("type", JS.JString "status");
   ("message", JS.JString message);
   ("timestamp", JS.JString timestamp);
   ("isConnectedToSFU", JS.JBool connected)].

(** The body of [if (this.clients.size === 0)] in [handleClientDisconnect]:
    close the upstream socket, reset the flag, cancel both timers. *)
Definition teardown : JSM unit :=
  conn <- gets sfuConnection ;;
  match conn with
  | Some c => ws_close c ;; assign (set_sfuConnection None)
  | None => ret tt
  end ;;
  assign (set_isConnectedToSFU false) ;;
  timeout <- gets reconnectTimeout ;;
  match timeout with
  | Some t => clearTimeout t ;; assign (set_reconnectTimeout None)
  | None => ret tt
  end ;;
  interval <- gets heartbeatInterval ;;
  match interval with
  | Some t => clearInterval t ;; assign (set_heartbeatInterval None)
  | None => ret tt
  end.

Definition handleClientDisconnect (clientId : string) : JSM unit :=
  assign (fun r => set_clients (Map_delete clientId (clients r)) r) ;;
  size <- gets (fun r => Map_size (clients r)) ;;
  if Nat.eqb size 0 then teardown else ret tt.

(** The body of both broadcast loops:
    [try { client.send(payload) } catch (error) { this.handleClientDisconnect(clientId) }]. *)
Definition deliver (payload : Payload) (clientId : string) (client : Socket) : JSM unit :=
  try_catch (viewer_send client payload)
            (fun _ => handleClientDisconnect clientId).

Definition fanOutToClients (data : Payload) : JSM unit :=
  entries <- gets clients ;;
  for_of_entries entries (deliver data).

Definition sendStatusToClient (clientId message : string) : JSM unit :=
  found <- gets (fun r => Map_get clientId (clients r)) ;;
  match found with
  | Some client =>
      try_catch
        (timestamp <- now_iso ;;
         connected <- gets isConnectedToSFU ;;
         viewer_send client
           (Text (JS.stringify (statusRecord message timestamp connected))))
        (fun _ => handleClientDisconnect clientId)
  | None => ret tt
  end.

Definition broadcastStatusToClients (message : string) : JSM unit :=
  timestamp <- now_iso ;;
  connected <- gets isConnectedToSFU ;;
  let statusMessage := JS.stringify (statusRecord message timestamp connected) in
  entries <- gets clients ;;
  for_of_entries entries (deliver (Text statusMessage)).

Definition startHeartbeat : JSM unit :=
  interval <- gets heartbeatInterval ;;
  match interval with
  | Some t => clearInterval t
  | None => ret tt
  end ;;
  t <- setInterval 3000 ;;
  assign (set_heartbeatInterval (Some t)).

(** The callback [startHeartbeat] hands to [setInterval]. *)
Definition heartbeat : JSM unit :=
  connected <- gets isConnectedToSFU ;;
  url <- gets currentWsUrl ;;
  let status :=
    if connected then "Connected to SFU, waiting for stream data..."
    else "Not connected to SFU: "
           ++ match url with Some u => u | None => "null" end
           ++ ", attempting to connect..." in
  broadcastStatusToClients status.

Definition scheduleReconnect : JSM unit :=
  size <- gets (fun r => Map_size (clients r)) ;;
  timeout <- gets reconnectTimeout ;;
  if Nat.ltb 0 size && is_null timeout then
    t <- setTimeout 5000 ;;
    assign (set_reconnectTimeout (Some t))
  else ret tt.

(** The [try] block of [connectToSFU]. *)
Definition connectAttempt : JSM unit :=
  timeout <- gets reconnectTimeout ;;
  match timeout with
  | Some t => clearTimeout t ;; assign (set_reconnectTimeout None)
  | None => ret tt
  end ;;
  wsUrl <- gets (fun r => sfuUrl r ++ "/consume/" ++ streamId r) ;;
  assign (set_currentWsUrl (Some wsUrl)) ;;
  c <- new_WebSocket wsUrl ;;
  assign (set_sfuConnection (Some c)).

(** Its [catch] block. *)
Definition connectFailed : JSM unit :=
  assign (set_isConnectedToSFU false) ;;
  broadcastStatusToClients "Failed to connect to SFU" ;;
  scheduleReconnect.

Definition connectToSFU : JSM unit :=
  try_catch connectAttempt (fun _ => connectFailed).

(** The four listeners [connectToSFU] registers on every upstream socket it
    creates. They close over [this], not over the socket. *)
Definition onSfuOpen : JSM unit :=
  assign (set_isConnectedToSFU true) ;;
  broadcastStatusToClients "Connected to SFU server".

(** The message listener. Its last statement calls [hibernateConnection]
    when the socket has such a method; the socket [new WebSocket] returns
    has none, and the call would not touch a field of the relay. *)
Definition onSfuMessage (data : Payload) : JSM unit :=
  cached <- gets codecDescription ;;
  (if negb (truthy cached) then
     assign (set_codecDescription (Some data)) ;;
     broadcastStatusToClients "Received codec information from SFU"
   else ret tt) ;;
  fanOutToClients data.

Definition onSfuClose : JSM unit :=
  assign (set_isConnectedToSFU false) ;;
  broadcastStatusToClients "Disconnected from SFU, attempting to reconnect..." ;;
  scheduleReconnect.

Definition onSfuError : JSM unit :=
  assign (set_isConnectedToSFU false) ;;
  broadcastStatusToClients "Error connecting to SFU" ;;
  scheduleReconnect.

(** ** fetch *)

Record Request : Type := mkRequest {
  req_upgrade : option string;     (* request.headers.get("Upgrade") *)
  req_pathname : string            (* new URL(request.url).pathname *)
}.

Inductive Response : Type :=
| Response101 (webSocket : Socket)
| Response200 (contentType body : string)
| Response404 (body : string).

Definition is_upgrade (request : Request) : bool :=
  match req_upgrade request with
  | Some v => v =? "websocket"
  | None => false
  end.

Definition healthRecord (r : StreamRelay) : JS.jobject :=
  [("status", JS.JString "ok");
   ("streamId", JS.JString (streamId r));
   ("clientCount", JS.JNumber (Map_size (clients r)));
   ("connectedToSFU", JS.JBool (isConnectedToSFU r))].

(** [uuid] is what [crypto.randomUUID()] returns for this request and
    [dead] whether the accepted socket is already unusable. *)
Definition fetch (request : Request) (uuid : string) (dead : bool) : JSM Response :=
  if is_upgrade request then
    server <- new_WebSocketPair dead ;;
    let clientId := uuid in
    assign (fun r => set_clients (Map_set clientId server (clients r)) r) ;;
    id <- gets (fun r => id_toString (state_id r)) ;;
    sendStatusToClient clientId
      ("Connected to stream relay, state: " ++ id ++ ". Waiting for media...") ;;
    size <- gets (fun r => Map_size (clients r)) ;;
    (if Nat.eqb size 1 then
       connectToSFU ;;
       startHeartbeat
     else
       connected <- gets isConnectedToSFU ;;
       cached <- gets codecDescription ;;
       if connected && truthy cached then
         match cached with
         | Some frame => viewer_send server frame
         | None => ret tt
         end
       else ret tt) ;;
    ret (Response101 server)
  else if req_pathname request =? "/health" then
    r <- gets (fun r => r) ;;
    ret (Response200 "application/json" (JS.stringify (healthRecord r)))
  else ret (Response404 "Not Found").

(** ** The worker entry point, for stream paths

    [index.ts] forwards a request whose path starts with [/stream/] to the
    Durable Object named [stream:] followed by the rest of the path, and
    answers 400 when the rest is empty ([None] here). *)
Definition drop (n : nat) (s : string) : string :=
  substring n (String.length s - n) s.

Definition streamObjectName (pathname : string) : option string :=
  if String.prefix "/stream/" pathname then
    let streamId := drop (String.length "/stream/") pathname in
    if JS.truthy_string streamId then Some ("stream:" ++ streamId) else None
  else None.

(* ===================================================================== *)
(** * The relay in its host: events and runs *)
(* ===================================================================== *)

Inductive Event : Type :=
| Fetch (request : Request) (uuid : string) (dead : bool)
| ViewerGone (clientId : string)        (* close or error on a viewer socket *)
| ViewerBreaks (sock : Socket)          (* a viewer transport fails silently *)
| UpstreamOpen (c : Conn)
| UpstreamMessage (c : Conn) (data : Payload)
| UpstreamError (c : Conn)
| UpstreamClose (c : Conn)
| ReconnectTimer (t : Timer)            (* the setTimeout callback runs *)
| HeartbeatTimer (t : Timer)            (* the setInterval callback runs *)
| ClockAdvance (ms : Z).

Definition conn_state (c : Conn) (h : Host) : option ReadyState :=
  match find (fun e => Nat.eqb (fst e) c) (h_conns h) with
  | Some e => Some (snd e)
  | None => None
  end.

Definition conn_becomes (c : Conn) (st : ReadyState) (w : World) : World :=
  mkWorld (this w)
    (set_conns (map (fun e => if Nat.eqb (fst e) c then (fst e, st) else e)
                    (h_conns (host w)))
               (host w)).

Definition timer_live (t : Timer) (ts : list Timer) : bool :=
  existsb (Nat.eqb t) ts.

(** One event, handled to completion. [None]: the host cannot deliver this
    event in this state (an open event on a socket that is not connecting, a
    timer that is not pending, ...). An exception that escapes a handler is
    reported by the runtime; the state it leaves behind stays. *)
Definition step (e : Event) (w : World) : option World :=
  match e with
  | Fetch request uuid dead => Some (exec (fetch request uuid dead) w)
  | ViewerGone clientId => Some (exec (handleClientDisconnect clientId) w)
  | ViewerBreaks sock =>
      Some (mkWorld (this w) (set_broken (sock :: h_broken (host w)) (host w)))
  | UpstreamOpen c =>
      match conn_state c (host w) with
      | Some CONNECTING => Some (exec onSfuOpen (conn_becomes c OPEN w))
      | _ => None
      end
  | UpstreamMessage c data =>
      match conn_state c (host w) with
      | Some OPEN => Some (exec (onSfuMessage data) w)
      | _ => None
      end
  | UpstreamError c =>
      match conn_state c (host w) with
      | Some CONNECTING | Some OPEN => Some (exec onSfuError (conn_becomes c CLOSING w))
      | _ => None
      end
  | UpstreamClose c =>
      match conn_state c (host w) with
      | Some CONNECTING | Some OPEN | Some CLOSING =>
          Some (exec onSfuClose (conn_becomes c CLOSED w))
      | _ => None
      end
  | ReconnectTimer t =>
      if timer_live t (h_timeouts (host w)) then
        Some (exec connectToSFU
                (mkWorld (this w)
                         (set_timeouts (without t (h_timeouts (host w))) (host w))))
      else None
  | HeartbeatTimer t =>
      if timer_live t (h_intervals (host w)) then Some (exec heartbeat w) else None
  | ClockAdvance ms =>
      if (0 <=? ms)%Z then
        Some (mkWorld (this w) (set_now (h_now (host w) + ms) (host w)))
      else None
  end.

Fixpoint run (events : list Event) (w : World) : option World :=
  match events with
  | [] => Some w
  | e :: rest =>
      match step e w with
      | Some w' => run rest w'
      | None => None
      end
  end.

(** A relay freshly constructed in a host that has done nothing yet. *)
Definition boot (rejects : string -> bool) (now : Z)
                (state : DurableObjectId) (env : Env) : World :=
  {| this := constructor state env;
     host := {| h_broken := []; h_rejects := rejects; h_conns := [];
                h_timeouts := []; h_intervals := []; h_next := 0;
                h_now := now; h_log := [] |} |}.

Definition upgradeRequest (path : string) : Request :=
  {| req_upgrade := Some "websocket"; req_pathname := path |}.

Definition plainRequest (path : string) : Request :=
  {| req_upgrade := None; req_pathname := path |}.

(* ===================================================================== *)
(** * The worker entry point (index.ts) *)
(* ===================================================================== *)

(** The worker keeps two module-level sets, [KNOWN_ROOMS] and
    [KNOWN_STREAMS], and routes every request: to a Durable Object, to one
    of its three pages, or to a response of its own. *)
Module Worker.

Record Known : Type := mkKnown {
  KNOWN_ROOMS : list string;
  KNOWN_STREAMS : list string
}.

(** The sets as the module creates them. *)
Definition initial : Known :=
  {| KNOWN_ROOMS := ["default"; "general"; "random"; "support"];
     KNOWN_STREAMS := ["test_stream"; "test_stream_audio"; "main"] |}.

(** A request as the worker reads it: the method, what the Durable Objects
    read too (the Upgrade header and the path), and the outcome of
    [request.json()], [None] when the body is not JSON and the call
    rejects. *)
Record HttpRequest : Type := mkHttpRequest {
  http_method : string;
  http_request : Request;
  http_json : option JS.Json
}.

(** The Durable Object a request is forwarded to, by the name handed to
    [idFromName]. *)
Inductive Target : Type :=
| ChatRoomObject (name : string)
| StreamRelayObject (name : string).

(** The three pages, by the function that renders them and its argument. *)
Inductive Page : Type :=
| renderHomePage
| renderStreamUI (streamId : string)
| renderChatUI (roomId : string).

(** A response body: a text, or the serialization of a value. *)
Inductive Body : Type :=
| PlainBody (text : string)
| JsonBody (value : JS.Json).

Inductive Reply : Type :=
| Forwarded (target : Target)                 (* stub.fetch(request) *)
| Rendered (page : Page)
| Replied (status : nat) (contentType : option string) (body : Body).

(** What [fetch] resolves to, or that it rejects. *)
Inductive Outcome : Type :=
| Returned (reply : Reply)
| Rejected.

Definition jsonReply (status : nat) (value : JS.Json) : Reply :=
  Replied status (Some "application/json") (JsonBody value).

Definition errorReply (message : string) : Reply :=
  jsonReply 400 (JS.Jobj [("error", JS.Jstr message)]).

(** [id.trim().replace(/[^a-zA-Z0-9_-]/g, '').toLowerCase()]. *)
Definition sanitize (id : string) : string :=
  JS.toLowerCase (JS.strip_non_id (JS.trim id)).

(** The test both creation routes make on the destructured field:
    [!id || typeof id !== 'string' || id.trim() === '']. *)
Definition invalid_id (id : option JS.Json) : bool :=
  negb (JS.truthy_json id)
  || match id with Some (JS.Jstr _) => false | _ => true end
  || match id with Some (JS.Jstr s) => JS.trim s =? "" | _ => false end.

(** The [try] block of a creation route up to the sanitized id, for the
    field [name]: the body is read, the field destructured (which throws on
    [null]) and tested. *)
Inductive Created : Type :=
| BadBody                     (* the catch block is entered *)
| BadId
| NewId (sanitized : string).

Definition create (name : string) (body : option JS.Json) : Created :=
  match body with
  | None => BadBody
  | Some value =>
      if JS.reads_throw value then BadBody
      else
        let id := JS.property name value in
        if invalid_id id then BadId
        else match id with
             | Some (JS.Jstr s) => NewId (sanitize s)
             | _ => BadId
             end
  end.

Definition fetch (request : HttpRequest) (known : Known) : Outcome * Known :=
  let pathname := req_pathname (http_request request) in
  let method := http_method request in
  if String.prefix "/chat/" pathname then
    let roomId := JS.or_else (Some (drop (String.length "/chat/") pathname)) "default" in
    (Returned (Forwarded (ChatRoomObject roomId)), known)
  else if String.prefix "/stream/" pathname then
    let streamId := drop (String.length "/stream/") pathname in
    if negb (JS.truthy_string streamId) then
      (Returned (Replied 400 None (PlainBody "Stream ID is required")), known)
    else (Returned (Forwarded (StreamRelayObject ("stream:" ++ streamId))), known)
  else if (pathname =? "/api/streams") && (method =? "GET") then
    (Returned (jsonReply 200 (JS.Jarr (map JS.Jstr (KNOWN_STREAMS known)))), known)
  else if (pathname =? "/api/streams") && (method =? "POST") then
    match create "streamId" (http_json request) with
    | BadBody => (Returned (errorReply "Invalid request body"), known)
    | BadId => (Returned (errorReply "Invalid stream ID"), known)
    | NewId sanitizedStreamId =>
        (Returned (jsonReply 200 (JS.Jobj [("streamId", JS.Jstr sanitizedStreamId)])),
         {| KNOWN_ROOMS := KNOWN_ROOMS known;
            KNOWN_STREAMS := JS.Set_add sanitizedStreamId (KNOWN_STREAMS known) |})
    end
  else if (pathname =? "/api/rooms") && (method =? "GET") then
    (Returned (jsonReply 200 (JS.Jarr (map JS.Jstr (KNOWN_ROOMS known)))), known)
  else if (pathname =? "/api/rooms") && (method =? "POST") then
    match create "roomId" (http_json request) with
    | BadBody => (Returned (errorReply "Invalid request body"), known)
    | BadId => (Returned (errorReply "Invalid room ID"), known)
    | NewId sanitizedRoomId =>
        (Returned (jsonReply 200 (JS.Jobj [("roomId", JS.Jstr sanitizedRoomId)])),
         {| KNOWN_ROOMS := JS.Set_add sanitizedRoomId (KNOWN_ROOMS known);
            KNOWN_STREAMS := KNOWN_STREAMS known |})
    end
  else if String.prefix "/room/" pathname then
    let roomId := JS.or_else (Some (drop (String.length "/room/") pathname)) "default" in
    (Returned (Rendered (renderChatUI roomId)), known)
  else if String.prefix "/view/" pathname then
    let streamId := drop (String.length "/view/") pathname in
    if negb (JS.truthy_string streamId) then
      (Returned (Replied 400 None (PlainBody "Stream ID is required")), known)
    else (Returned (Rendered (renderStreamUI streamId)), known)
  else if method =? "GET" then
    if (pathname =? "/") || (pathname =? "") then
      (Returned (Rendered renderHomePage), known)
    else (Returned (Replied 404 None (PlainBody "Not Found")), known)
  else if method =? "POST" then
    match http_json request with
    | Some requestBody =>
        (Returned (Replied 200 None (JsonBody (JS.Jobj [("received", requestBody)]))),
         known)
    | None => (Rejected, known)
    end
  else (Returned (Replied 405 None (PlainBody "Method Not Allowed")), known).

(** Requests, one after the other. *)
Fixpoint serve (requests : list HttpRequest) (known : Known) : Known :=
  match requests with
  | [] => known
  | request :: rest => serve rest (snd (fetch request known))
  end.

End Worker.

(* ===================================================================== *)
(** * The codec fields of the later revision *)
(* ===================================================================== *)

(** A compiled copy of a later revision of the class is kept with the
    deploy script. Where [StreamRelay.ts] has the field [codecDescription],
    it has the fields [audioCodecDescription] and [videoCodecDescription].
    What follows is the part of that revision that writes and reads the two
    fields, for binary frames: the assignments of its message listener, and
    the replay in its [fetch]. The fields are written nowhere else but in
    the constructor. *)
Module Deployed.

Record Slots : Type := mkSlots {
  audioCodecDescription : option (list byte);
  videoCodecDescription : option (list byte)
}.

(** Both fields are [null] when the object is constructed. *)
Definition constructed : Slots :=
  {| audioCodecDescription := None; videoCodecDescription := None |}.

(** [new Uint8Array(event.data)[0] === n] for an [ArrayBuffer]: false for
    an empty buffer, whose element 0 is [undefined]. *)
Definition leading_byte_is (n : byte) (data : list byte) : bool :=
  match data with
  | b :: _ => Byte.eqb b n
  | [] => false
  end.

(** The message listener, as far as the two fields go: the audio test and
    then the video test, each on a field that is still [null]. *)
Definition onMessage (data : list byte) (slots : Slots) : Slots :=
  let afterAudio :=
    if is_null (audioCodecDescription slots) && leading_byte_is x01 data
    then {| audioCodecDescription := Some data;
            videoCodecDescription := videoCodecDescription slots |}
    else slots in
  if is_null (videoCodecDescription afterAudio) && leading_byte_is x00 data
  then {| audioCodecDescription := audioCodecDescription afterAudio;
          videoCodecDescription := Some data |}
  else afterAudio.

(** Binary frames, one after the other. *)
Fixpoint receive (frames : list (list byte)) (slots : Slots) : Slots :=
  match frames with
  | [] => slots
  | data :: rest => receive rest (onMessage data slots)
  end.

(** What [fetch] hands to [server.send] after the initial status, in
    order, [size] being [this.clients.size] at that point: nothing in the
    first-client branch, and otherwise the two fields when the relay is
    connected and both are set. *)
Definition replay (size : nat) (isConnectedToSFU : bool) (slots : Slots)
  : list (list byte) :=
  if Nat.eqb size 1 then []
  else
    match isConnectedToSFU, audioCodecDescription slots, videoCodecDescription slots with
    | true, Some audio, Some video => [audio; video]
    | _, _, _ => []
    end.

End Deployed.

(* ===================================================================== *)
(** * Vocabulary of the statements *)
(* ===================================================================== *)

(** ** Relations between the world before and after a handler *)

(** A relation that composes: the kind of property that is carried through
    a whole handler once each assignment and host call in it has it. *)
Class Stable (P : World -> World -> Prop) : Prop := {
  stable_refl : forall w, P w w;
  stable_trans : forall a b c, P a b -> P b c -> P a c
}.

Definition respects {A : Type} (P : World -> World -> Prop) (m : JSM A) : Prop :=
  forall w, P w (exec m w).

Definition never_throws {A : Type} (m : JSM A) : Prop :=
  forall w, exists a, outcome m w = Normal a.

(** The log only grows. *)
Definition extends_log (w w' : World) : Prop :=
  exists delta, h_log (host w') = (h_log (host w) ++ delta)%list.

(** The effects between two worlds of one run. *)
Definition new_effects (w w' : World) : list Effect :=
  skipn (List.length (h_log (host w))) (h_log (host w')).

(** The log grew, and every frame sent to a viewer in between is [frame]. *)
Definition only_sends (frame : Payload) (w w' : World) : Prop :=
  exists delta,
    h_log (host w') = (h_log (host w) ++ delta)%list
    /\ forall sock data, In (ClientSend sock data) delta -> data = frame.

Definition keeps_codec (w w' : World) : Prop :=
  codecDescription (this w') = codecDescription (this w).

(** A registry entry whose transport works. *)
Definition healthy (h : Host) (e : string * Socket) : bool :=
  negb (is_broken (snd e) h).

(** The keys of the registry are distinct, as the keys of a [Map] are. *)
Definition keys_unique (w : World) : Prop :=
  NoDup (map fst (clients (this w))).

Definition keeps_keys_unique (w w' : World) : Prop :=
  keys_unique w -> keys_unique w'.

(** Registry, heartbeat handle and broken transports are as before. *)
Definition same_viewers (w w' : World) : Prop :=
  clients (this w') = clients (this w)
  /\ heartbeatInterval (this w') = heartbeatInterval (this w)
  /\ h_broken (host w') = h_broken (host w).

(** ** The upstream target *)

Definition wsTarget (r : StreamRelay) : string :=
  sfuUrl r ++ "/consume/" ++ streamId r.

(** All connect attempts so far, and the next ones, go to [target]. *)
Definition targets (target : string) (w : World) : Prop :=
  wsTarget (this w) = target
  /\ forall url, In (NewWebSocket url) (h_log (host w)) -> url = target.

Definition keeps_target (target : string) (w w' : World) : Prop :=
  targets target w -> targets target w'.

(** ** Timers *)

Definition opt_list {A : Type} (o : option A) : list A :=
  match o with
  | Some a => [a]
  | None => []
  end.

(** The running interval timers are exactly the heartbeat handle, the
    pending one-shot timers exactly the reconnect handle, and a reconnect
    handle is only held while somebody is registered. *)
Definition timers_owned (w : World) : Prop :=
  h_intervals (host w) = opt_list (heartbeatInterval (this w))
  /\ h_timeouts (host w) = opt_list (reconnectTimeout (this w))
  /\ (reconnectTimeout (this w) <> None -> clients (this w) <> []).

Definition keeps_timers (w w' : World) : Prop :=
  timers_owned w -> timers_owned w'.

(** Once the connected flag is down, it stays down. *)
Definition stays_disconnected (w w' : World) : Prop :=
  isConnectedToSFU (this w) = false -> isConnectedToSFU (this w') = false.

(** The heartbeat is armed exactly while somebody is registered. *)
Definition armed_iff_registered (w : World) : Prop :=
  heartbeatInterval (this w) <> None <-> clients (this w) <> [].

(** What a handler other than a join may do to registry and heartbeat:
    remove the last viewer and stop the heartbeat, remove viewers while
    somebody stays and leave the heartbeat alone, or touch neither. *)
Definition settles (w w' : World) : Prop :=
  (clients (this w') = [] /\ heartbeatInterval (this w') = None)
  \/ (heartbeatInterval (this w') = heartbeatInterval (this w)
      /\ clients (this w') <> []
      /\ List.length (clients (this w')) <= List.length (clients (this w)))
  \/ (clients (this w') = clients (this w)
      /\ heartbeatInterval (this w') = heartbeatInterval (this w)).

(** A join is clean when [crypto.randomUUID()] returns an id not in the
    registry and the accepted socket takes the initial status message. *)
Definition clean_join (e : Event) (w : World) : Prop :=
  match e with
  | Fetch request uuid dead =>
      is_upgrade request = true ->
      dead = false
      /\ Map_has uuid (clients (this w)) = false
      /\ is_broken (h_next (host w)) (host w) = false
  | _ => True
  end.

Fixpoint clean_run (events : list Event) (w : World) : Prop :=
  match events with
  | [] => True
  | e :: rest =>
      clean_join e w
      /\ match step e w with
         | Some w' => clean_run rest w'
         | None => True
         end
  end.

(** ** Status messages *)

(** The status frame for [message], with the clock and the connected flag
    of [w]. *)
Definition statusFrame (message : string) (w : World) : Payload :=
  Text (JS.stringify
          [("type", JS.JString "status");
           ("message", JS.JString message);
           ("timestamp", JS.JString (JS.toISOString (h_now (host w))));
           ("isConnectedToSFU", JS.JBool (isConnectedToSFU (this w)))]).

(** The first frame a viewer is sent. *)
Definition initialStatus (w : World) : Payload :=
  Text (JS.stringify
          (statusRecord
             ("Connected to stream relay, state: "
                ++ id_toString (state_id (this w)) ++ ". Waiting for media...")
             (JS.toISOString (h_now (host w)))
             (isConnectedToSFU (this w)))).

(** The text the heartbeat callback broadcasts. *)
Definition heartbeatStatus (w : World) : string :=
  if isConnectedToSFU (this w) then "Connected to SFU, waiting for stream data..."
  else "Not connected to SFU: "
         ++ match currentWsUrl (this w) with Some u => u | None => "null" end
         ++ ", attempting to connect...".

(** ** The spec's cached init frames

    The spec speaks of one cache slot per media type; the code has the one
    field [codecDescription]. Read off that field: a media type is told by
    the leading byte of a binary frame, and the slot of a media type holds
    the cached frame when that frame is of this type. *)
Inductive MediaType : Type := Video | Audio.

Definition discriminator (p : Payload) : option MediaType :=
  match p with
  | Binary (b :: _) =>
      if Byte.eqb b x00 then Some Video
      else if Byte.eqb b x01 then Some Audio
      else None
  | _ => None
  end.

Definition sameType (a b : option MediaType) : bool :=
  match a, b with
  | Some Video, Some Video | Some Audio, Some Audio => true
  | _, _ => false
  end.

Definition initFrames (ty : MediaType) (r : StreamRelay) : option Payload :=
  match codecDescription r with
  | Some frame => if sameType (discriminator frame) (Some ty) then Some frame else None
  | None => None
  end.

(** The binary frames sent to one viewer socket, in order. *)
Fixpoint binary_frames_to (sock : Socket) (log : list Effect) : list (list byte) :=
  match log with
  | [] => []
  | ClientSend s (Binary bytes) :: rest =>
      if Nat.eqb s sock then bytes :: binary_frames_to sock rest
      else binary_frames_to sock rest
  | _ :: rest => binary_frames_to sock rest
  end.

(** ** The stream id, in the words of the amended rule

    Computed without [split]: the text after the first colon of the name,
    up to the next colon; the fallback when there is no name, no colon, or
    nothing between the colons. *)
Fixpoint until_colon (s : string) : string :=
  match s with
  | EmptyString => EmptyString
  | String c rest => if Ascii.eqb c ":" then EmptyString else String c (until_colon rest)
  end.

Fixpoint after_colon (s : string) : option string :=
  match s with
  | EmptyString => None
  | String c rest => if Ascii.eqb c ":" then Some rest else after_colon rest
  end.

Definition streamId_rule (name : option string) : string :=
  match name with
  | None => "test_stream"
  | Some n =>
      match after_colon n with
      | None => "test_stream"
      | Some rest =>
          if until_colon rest =? "" then "test_stream" else until_colon rest
      end
  end.

(** ** Sample runs

    A relay for the stream [alpha] with no configured upstream address, in
    a host whose WebSocket constructor accepts every URL. Handles are
    handed out in order: the first viewer gets socket 0, the first upstream
    socket is 1, the first heartbeat timer 2, and so on. *)
Definition sampleId : DurableObjectId :=
  {| id_name := Some "stream:alpha"; id_toString := "f3a9c1" |}.

Definition sampleBoot : World :=
  boot (fun _ => false) 1700000000123 sampleId {| SFU_SERVER_URL := None |}.

(** The same relay with an upstream address the WebSocket constructor
    refuses. *)
Definition misconfiguredBoot : World :=
  boot (fun _ => true) 1700000000123 sampleId
       {| SFU_SERVER_URL := Some "sfu.example.org" |}.

(** A viewer joins, and its socket works. *)
Definition join (uuid : string) : Event :=
  Fetch (upgradeRequest "/stream/alpha") uuid false.

(** A viewer joins, and its socket throws on the first send. *)
Definition failedJoin : Event := Fetch (upgradeRequest "/stream/alpha") "v2" true.

Definition world_after (events : list Event) : World :=
  match run events sampleBoot with
  | Some w => w
  | None => sampleBoot
  end.

Definition mediaFrame : Payload := Binary [x00; x2a; x2b].
Definition audioInit : Payload := Binary [x01; x11; x90].
Definition videoInit : Payload := Binary [x00; x01; x64; x00; x1f].

(** Three viewers, the second with a transport that broke unnoticed. *)
Definition threeViewers : World :=
  world_after [join "v1"; join "v2"; join "v3"; ViewerBreaks 3].

(** One viewer, upstream open. *)
Definition connectedWorld : World := world_after [join "v1"; UpstreamOpen 1].

(** ... then an audio frame arrived, ... *)
Definition audioCachedWorld : World :=
  world_after [join "v1"; UpstreamOpen 1; UpstreamMessage 1 audioInit].

(** ... then a video frame. *)
Definition bothSeenWorld : World :=
  world_after [join "v1"; UpstreamOpen 1; UpstreamMessage 1 audioInit;
               UpstreamMessage 1 videoInit].

(** One viewer, upstream open, then a second viewer fails to join. *)
Definition afterFailedJoin : World :=
  world_after [join "v1"; UpstreamOpen 1; failedJoin].

(** The only viewer leaves, another joins, and then the close event of the
    first upstream socket arrives; the second upstream socket opens; the
    reconnect timer fires. *)
Definition staleCloseWorld : World :=
  world_after [join "v1"; ViewerGone "v1"; join "v2"; UpstreamClose 1].

Definition staleOpenWorld : World :=
  world_after [join "v1"; ViewerGone "v1"; join "v2"; UpstreamClose 1;
               UpstreamOpen 4].

Definition doubleConnectWorld : World :=
  world_after [join "v1"; ViewerGone "v1"; join "v2"; UpstreamClose 1;
               UpstreamOpen 4; ReconnectTimer 6].

(* ===================================================================== *)
(** * Further vocabulary: broadcasts, delivery, viewers that left *)
(* ===================================================================== *)

(** The registered viewers whose transport works. *)
Definition alive (w : World) : list (string * Socket) :=
  filter (healthy (host w)) (clients (this w)).

(** The world one broadcast loop over the registry leaves behind: the
    viewers whose send throws are gone and every other viewer has been sent
    [payload]; when nobody is left of a registry that was not empty, the
    last removal has torn the relay down. *)
Definition sweep (payload : Payload) (w : World) : World :=
  match alive w, clients (this w) with
  | [], _ :: _ =>
      exec teardown {| this := set_clients [] (this w); host := host w |}
  | _, _ =>
      {| this := set_clients (alive w) (this w);
         host := set_log (h_log (host w)
                           ++ map (fun e => ClientSend (snd e) payload) (alive w))%list
                         (host w) |}
  end.

(** The sockets of the registered viewers. *)
Definition sockets (w : World) : list Socket := map snd (clients (this w)).

(** Keys and sockets of the registry are distinct, and every socket in it
    is a handle the host has handed out. *)
Definition well_kept (w : World) : Prop :=
  NoDup (map fst (clients (this w)))
  /\ NoDup (sockets w)
  /\ (forall s, In s (sockets w) -> s < h_next (host w)).

(** Everything sent to one viewer socket, in order. *)
Fixpoint sent_to (sock : Socket) (log : list Effect) : list Payload :=
  match log with
  | [] => []
  | ClientSend s data :: rest =>
      if Nat.eqb s sock then data :: sent_to sock rest else sent_to sock rest
  | _ :: rest => sent_to sock rest
  end.

(** The upstream frames of a run, in order of arrival. *)
Fixpoint upstream_frames (events : list Event) : list Payload :=
  match events with
  | [] => []
  | UpstreamMessage _ data :: rest => data :: upstream_frames rest
  | _ :: rest => upstream_frames rest
  end.

(** An event that is neither the disconnect of viewer [id], nor a failure
    of its transport [sock], nor a join under its id. *)
Definition leaves_alone (id : string) (sock : Socket) (e : Event) : bool :=
  match e with
  | Fetch request uuid _ => negb (is_upgrade request && (uuid =? id))
  | ViewerGone clientId => negb (clientId =? id)
  | ViewerBreaks s => negb (Nat.eqb s sock)
  | _ => true
  end.

(** Is the payload a binary frame? *)
Definition is_binary (p : Payload) : bool :=
  match p with
  | Binary _ => true
  | Text _ => false
  end.

(** Nothing a viewer can see: registry and broken transports as before, no
    handle taken back, no frame sent to any viewer. *)
Definition backstage (w w' : World) : Prop :=
  clients (this w') = clients (this w)
  /\ h_broken (host w') = h_broken (host w)
  /\ h_next (host w) <= h_next (host w')
  /\ exists delta,
       h_log (host w') = (h_log (host w) ++ delta)%list
       /\ forall s d, ~ In (ClientSend s d) delta.

(** What a status broadcast, and a handler built from status broadcasts, may
    do to a registry with distinct keys: remove viewers, but none whose
    transport works, and send text frames, but only to registered
    viewers. *)
Definition shrinks (w w' : World) : Prop :=
  keys_unique w ->
  h_broken (host w') = h_broken (host w)
  /\ h_next (host w) <= h_next (host w')
  /\ (exists f,
        clients (this w') = filter f (clients (this w))
        /\ forall e, In e (clients (this w)) -> healthy (host w) e = true -> f e = true)
  /\ exists delta,
       h_log (host w') = (h_log (host w) ++ delta)%list
       /\ forall s d, In (ClientSend s d) delta -> In s (sockets w) /\ is_binary d = false.

(** [fetch] for an upgrade request, cut after the registration of the new
    socket: the world with the socket accepted and registered, and the rest
    of the handler. *)
Definition joined (uuid : string) (dead : bool) (w : World) : World :=
  {| this := set_clients (Map_set uuid (h_next (host w)) (clients (this w))) (this w);
     host := set_next (S (h_next (host w)))
               (set_broken (if dead then h_next (host w) :: h_broken (host w)
                            else h_broken (host w))
                           (host w)) |}.

Definition join_tail (server : Socket) : JSM Response :=
  size <- gets (fun r => Map_size (clients r)) ;;
  (if Nat.eqb size 1 then
     connectToSFU ;;
     startHeartbeat
   else
     connected <- gets isConnectedToSFU ;;
     cached <- gets codecDescription ;;
     if connected && truthy cached then
       match cached with
       | Some frame => viewer_send server frame
       | None => ret tt
       end
     else ret tt) ;;
  ret (Response101 server).

Definition join_rest (uuid : string) (server : Socket) : JSM Response :=
  id <- gets (fun r => id_toString (state_id r)) ;;
  sendStatusToClient uuid
    ("Connected to stream relay, state: " ++ id ++ ". Waiting for media...") ;;
  join_tail server.

(** At most one frame, sent to [server], and nothing else. *)
Definition replays (server : Socket) (w w' : World) : Prop :=
  w' = w
  \/ exists frame,
       w' = {| this := this w;
               host := set_log (h_log (host w) ++ [ClientSend server frame])%list
                               (host w) |}.

(** A handle the host has handed out and that is not in the registry. *)
Definition unregistered (sock : Socket) (w : World) : Prop :=
  ~ In sock (sockets w) /\ sock < h_next (host w).

(** Viewer [id] is registered with socket [sock], and the transport
    works. *)
Definition served (id : string) (sock : Socket) (w : World) : Prop :=
  Map_get id (clients (this w)) = Some sock /\ is_broken sock (host w) = false.

(** What one socket was sent between two worlds of a run. *)
Definition heard (sock : Socket) (w w' : World) : list Payload :=
  sent_to sock (new_effects w w').

(** Two viewers, upstream open, and the first viewer has left. *)
Definition oneLeftWorld : World :=
  world_after [join "v1"; join "v2"; UpstreamOpen 1; ViewerGone "v1"].

Definition oneLeftLaterWorld : World :=
  world_after [join "v1"; join "v2"; UpstreamOpen 1; ViewerGone "v1";
               UpstreamMessage 1 mediaFrame; HeartbeatTimer 2].

(** A longer run after the first viewer has joined and the upstream has
    opened: frames come in, a second viewer joins and its transport breaks,
    the heartbeat fires. *)
Definition busyEvents : list Event :=
  [UpstreamMessage 1 audioInit; join "v2"; ViewerBreaks 3;
   UpstreamMessage 1 videoInit; HeartbeatTimer 2; UpstreamMessage 1 mediaFrame].

Definition busyWorld : World :=
  world_after ([join "v1"; UpstreamOpen 1] ++ busyEvents).

(** Three viewers, upstream open, a frame cached. *)
Definition crowdedWorld : World :=
  world_after [join "v1"; join "v2"; join "v3"; UpstreamOpen 1;
               UpstreamMessage 1 audioInit].

(** What does not depend on the viewers: the upstream socket the relay
    holds, the upstream sockets of the host, the flag and the clock. *)
Definition same_upstream (w w' : World) : Prop :=
  sfuConnection (this w') = sfuConnection (this w)
  /\ h_conns (host w') = h_conns (host w)
  /\ isConnectedToSFU (this w') = isConnectedToSFU (this w)
  /\ h_now (host w') = h_now (host w).

(** One viewer whose transport has broken unnoticed, in a host that refuses
    the upstream address. *)
Definition misconfiguredPair : World :=
  match run [join "v1"; join "v2"; ViewerBreaks 0] misconfiguredBoot with
  | Some w => w
  | None => misconfiguredBoot
  end.

(* ===================================================================== *)
(** * Vocabulary for the worker entry point *)
(* ===================================================================== *)

Fixpoint all_chars (p : ascii -> bool) (s : string) : bool :=
  match s with
  | EmptyString => true
  | String c rest => p c && all_chars p rest
  end.

(** The characters a sanitized id is made of: [a-z0-9_-]. *)
Definition is_slug_char (c : ascii) : bool :=
  let n := nat_of_ascii c in
  (Nat.leb 97 n && Nat.leb n 122) || (Nat.leb 48 n && Nat.leb n 57)
  || Nat.eqb n 95 || Nat.eqb n 45.

(** A creation request for the stream [raw]: a POST to [/api/streams] whose
    body is an object with the string [raw] under [streamId]. *)
Definition createStream (raw : string) : Worker.HttpRequest :=
  {| Worker.http_method := "POST";
     Worker.http_request := plainRequest "/api/streams";
     Worker.http_json := Some (JS.Jobj [("streamId", JS.Jstr raw)]) |}.

Definition listStreams : Worker.HttpRequest :=
  {| Worker.http_method := "GET";
     Worker.http_request := plainRequest "/api/streams";
     Worker.http_json := None |}.

(** A request that changes nothing whatever it is answered: any request
    but a POST to one of the two creation routes. *)
Definition is_creation (request : Worker.HttpRequest) : bool :=
  (Worker.http_method request =? "POST")
  && ((req_pathname (Worker.http_request request) =? "/api/streams")
      || (req_pathname (Worker.http_request request) =? "/api/rooms")).

(* ===================================================================== *)
(** * Properties *)
(* ===================================================================== *)

(** ** The runtime fragments, on examples *)

Example split_stream_alpha : JS.split ":" "stream:alpha" = ["stream"; "alpha"].
Proof. reflexivity. Qed.

Example split_no_separator : JS.split ":" "alpha" = ["alpha"].
Proof. reflexivity. Qed.

Example split_trailing_separator : JS.split ":" "stream:" = ["stream"; ""].
Proof. reflexivity. Qed.

Example split_three_pieces : JS.split ":" "stream:a:b" = ["stream"; "a"; "b"].
Proof. reflexivity. Qed.

Example toISOString_epoch : JS.toISOString 0 = "1970-01-01T00:00:00.000Z".
Proof. vm_compute. reflexivity. Qed.

Example toISOString_before_epoch : JS.toISOString (-1) = "1969-12-31T23:59:59.999Z".
Proof. vm_compute. reflexivity. Qed.

Example toISOString_2023 :
  JS.toISOString 1700000000123 = "2023-11-14T22:13:20.123Z".
Proof. vm_compute. reflexivity. Qed.

Example toISOString_leap_day :
  JS.toISOString 1709210096789 = "2024-02-29T12:34:56.789Z".
Proof. vm_compute. reflexivity. Qed.

Example stringify_health :
  JS.stringify [("status", JS.JString "ok"); ("clientCount", JS.JNumber 12);
                ("connectedToSFU", JS.JBool false)]
  = "{" ++ JS.quote "status" ++ ":" ++ JS.quote "ok" ++ ","
        ++ JS.quote "clientCount" ++ ":12,"
        ++ JS.quote "connectedToSFU" ++ ":false}".
Proof. vm_compute. reflexivity. Qed.

Example quote_escapes :
  JS.quote (String (ascii_of_nat 34) (String (ascii_of_nat 10) "a\b"))
  = JS.dquote ++ "\" ++ JS.dquote ++ "\n" ++ "a\\b" ++ JS.dquote.
Proof. vm_compute. reflexivity. Qed.

Example streamId_of_alpha :
  streamId (constructor {| id_name := Some "stream:alpha"; id_toString := "f3a9c1" |}
                        {| SFU_SERVER_URL := None |})
  = "alpha".
Proof. reflexivity. Qed.

Example streamObjectName_alpha : streamObjectName "/stream/alpha" = Some "stream:alpha".
Proof. reflexivity. Qed.

Example streamObjectName_empty : streamObjectName "/stream/" = None.
Proof. reflexivity. Qed.

Example streamId_without_name :
  streamId (constructor {| id_name := None; id_toString := "f3a9c1" |}
                        {| SFU_SERVER_URL := None |})
  = "test_stream".
Proof. reflexivity. Qed.

(** The first join, as the host sees it: the initial status message, the
    connect attempt, the heartbeat. *)
Example first_join_effects :
  h_log (host (world_after [join "v1"]))
  = [ClientSend 0 (initialStatus sampleBoot);
     NewWebSocket "ws://127.0.0.1:5500/consume/alpha";
     SetInterval 2 3000].
Proof. vm_compute. reflexivity. Qed.

(** ** Reasoning about computations *)

Ltac js_unfold :=
  unfold exec, outcome, bind, ret, throw, try_catch, gets, assign, platform,
    host_do, emit in *.

Arguments Map_delete : simpl never.
Arguments without : simpl never.
Arguments set_sfuConnection _ _ /.
Arguments set_clients _ _ /.
Arguments set_codecDescription _ _ /.
Arguments set_reconnectTimeout _ _ /.
Arguments set_heartbeatInterval _ _ /.
Arguments set_isConnectedToSFU _ _ /.
Arguments set_currentWsUrl _ _ /.
Arguments set_broken _ _ /.
Arguments set_conns _ _ /.
Arguments set_timeouts _ _ /.
Arguments set_intervals _ _ /.
Arguments set_next _ _ /.
Arguments set_now _ _ /.
Arguments set_log _ _ /.
Arguments JS.stringify : simpl never.
Arguments JS.toISOString : simpl never.

Section Respects.
Context (P : World -> World -> Prop) `{Stable P}.

Lemma respects_ret {A : Type} (a : A) : respects P (ret a).
Proof. intro w. apply stable_refl. Qed.

Lemma respects_throw {A : Type} (e : string) : respects P (@throw A e).
Proof. intro w. apply stable_refl. Qed.

Lemma respects_gets {A : Type} (f : StreamRelay -> A) : respects P (gets f).
Proof. intro w. apply stable_refl. Qed.

Lemma respects_platform {A : Type} (f : Host -> A) : respects P (platform f).
Proof. intro w. apply stable_refl. Qed.

Lemma respects_bind {A B : Type} (m : JSM A) (k : A -> JSM B) :
  respects P m -> (forall a, respects P (k a)) -> respects P (bind m k).
Proof.
  intros Hm Hk w. specialize (Hm w). unfold exec, bind in *.
  destruct (m w) as [[a|e] w1]; simpl in *; auto.
  eapply stable_trans; [exact Hm | apply Hk].
Qed.

Lemma respects_try_catch (m : JSM unit) (h : string -> JSM unit) :
  respects P m -> (forall e, respects P (h e)) -> respects P (try_catch m h).
Proof.
  intros Hm Hh w. specialize (Hm w). unfold exec, try_catch in *.
  destruct (m w) as [[a|e] w1]; simpl in *; auto.
  eapply stable_trans; [exact Hm | apply Hh].
Qed.

Lemma respects_for_of entries (body : string -> Socket -> JSM unit) :
  (forall k s, respects P (body k s)) -> respects P (for_of_entries entries body).
Proof.
  intro Hb. induction entries as [|[k s] rest IH]; simpl.
  - apply respects_ret.
  - apply respects_bind; [apply respects_gets|]. intro live.
    apply respects_bind; [|intros _; exact IH].
    destruct live; [apply Hb | apply respects_ret].
Qed.
End Respects.

(** Breaks a goal [respects P m] down along the structure of [m]; [leaf]
    closes what is left at assignments and host calls. *)
Ltac respects_with leaf :=
  repeat first
    [ match goal with |- Stable _ => exact _ end
    | leaf
    | apply respects_ret
    | apply respects_throw
    | apply respects_gets
    | apply respects_platform
    | apply respects_bind; [ | | intro ]
    | apply respects_try_catch; [ | | intro ]
    | apply respects_for_of; [ | intros ]
    | match goal with
      | |- respects _ (if ?b then _ else _) => destruct b
      | |- respects _ (match ?o with Some _ => _ | None => _ end) => destruct o
      end ].

Ltac unfold_methods :=
  unfold fetch, connectToSFU, connectAttempt, connectFailed, onSfuOpen,
    onSfuMessage, onSfuClose, onSfuError, heartbeat, startHeartbeat,
    scheduleReconnect, broadcastStatusToClients, sendStatusToClient,
    fanOutToClients, deliver, handleClientDisconnect, teardown,
    viewer_send, new_WebSocketPair, new_WebSocket, ws_close, setTimeout,
    clearTimeout, setInterval, clearInterval, now_iso, emit.

(** A property that composes and that every handler has is had by every
    step of the relay in its host, provided it does not look at the parts
    of the host a step changes by itself (sockets, timers, clock). *)
Lemma step_respects (P : World -> World -> Prop) `{Stable P} :
  (forall w w', this w' = this w -> h_log (host w') = h_log (host w) -> P w w') ->
  (forall request uuid dead, respects P (fetch request uuid dead)) ->
  (forall clientId, respects P (handleClientDisconnect clientId)) ->
  respects P onSfuOpen ->
  (forall data, respects P (onSfuMessage data)) ->
  respects P onSfuError ->
  respects P onSfuClose ->
  respects P connectToSFU ->
  respects P heartbeat ->
  forall e w w', step e w = Some w' -> P w w'.
Proof.
  intros Hhost Hfetch Hgone Hopen Hmsg Herr Hclose Hconn Hbeat e w w' Hs.
  assert (After : forall A (m : JSM A) v v',
             this v' = this v -> h_log (host v') = h_log (host v) ->
             respects P m -> P v (exec m v')).
  { intros A m v v' Ht Hl Hm. eapply stable_trans; [apply Hhost; eauto | apply Hm]. }
  destruct e; cbn [step] in Hs.
  - inversion Hs; subst. apply Hfetch.
  - inversion Hs; subst. apply Hgone.
  - inversion Hs; subst. now apply Hhost.
  - destruct (conn_state c (host w)) as [[]|]; inversion Hs; subst.
    now apply After.
  - destruct (conn_state c (host w)) as [[]|]; inversion Hs; subst.
    apply Hmsg.
  - destruct (conn_state c (host w)) as [[]|]; inversion Hs; subst;
      now apply After.
  - destruct (conn_state c (host w)) as [[]|]; inversion Hs; subst;
      now apply After.
  - destruct (timer_live t (h_timeouts (host w))); inversion Hs; subst.
    now apply After.
  - destruct (timer_live t (h_intervals (host w))); inversion Hs; subst.
    apply Hbeat.
  - destruct (0 <=? ms)%Z; inversion Hs; subst. now apply Hhost.
Qed.

Lemma run_respects (P : World -> World -> Prop) `{Stable P} :
  (forall e w w', step e w = Some w' -> P w w') ->
  forall events w w', run events w = Some w' -> P w w'.
Proof.
  intros Hstep events. induction events as [|e rest IH]; cbn; intros w w' Hr.
  - inversion Hr; subst. apply stable_refl.
  - destruct (step e w) as [w1|] eqn:E; [|discriminate].
    eapply stable_trans; [eapply Hstep; eauto | eauto].
Qed.

(** ** The log only grows *)

#[local] Instance extends_log_stable : Stable extends_log.
Proof.
  split.
  - intro w. exists []. now rewrite app_nil_r.
  - intros a b c [d1 H1] [d2 H2]. exists (d1 ++ d2)%list.
    now rewrite H2, H1, app_assoc.
Qed.

Ltac log_leaf :=
  idtac;
  match goal with
  | |- respects extends_log (assign _) => intro; exists []; simpl; now rewrite app_nil_r
  | |- respects extends_log (host_do (fun h => set_log (h_log h ++ [?e]) h)) =>
      intro; exists [e]; reflexivity
  | |- respects extends_log (host_do _) => intro; exists []; simpl; now rewrite app_nil_r
  end.

Lemma step_extends_log e w w' : step e w = Some w' -> extends_log w w'.
Proof.
  apply step_respects; try exact _.
  1: intros v v' _ Hl; exists []; now rewrite app_nil_r.
  all: intros; unfold_methods; respects_with log_leaf.
Qed.

Lemma run_extends_log events w w' : run events w = Some w' -> extends_log w w'.
Proof. apply run_respects; [exact _ | apply step_extends_log]. Qed.

(** ** Handlers that cannot throw *)

Lemma never_throws_ret {A : Type} (a : A) : never_throws (ret a).
Proof. intro w. now exists a. Qed.

Lemma never_throws_gets {A : Type} (f : StreamRelay -> A) : never_throws (gets f).
Proof. intro w. now exists (f (this w)). Qed.

Lemma never_throws_platform {A : Type} (f : Host -> A) : never_throws (platform f).
Proof. intro w. now exists (f (host w)). Qed.

Lemma never_throws_assign f : never_throws (assign f).
Proof. intro w. now exists tt. Qed.

Lemma never_throws_host_do f : never_throws (host_do f).
Proof. intro w. now exists tt. Qed.

Lemma never_throws_bind {A B : Type} (m : JSM A) (k : A -> JSM B) :
  never_throws m -> (forall a, never_throws (k a)) -> never_throws (bind m k).
Proof.
  intros Hm Hk w. destruct (Hm w) as [a Ha]. unfold outcome, bind in *.
  destruct (m w) as [[a'|e] w1]; cbn in Ha; [|discriminate].
  apply Hk.
Qed.

Lemma never_throws_try_catch (m : JSM unit) (h : string -> JSM unit) :
  (forall e, never_throws (h e)) -> never_throws (try_catch m h).
Proof.
  intros Hh w. unfold outcome, try_catch.
  destruct (m w) as [[a|e] w1]; [now exists a | apply Hh].
Qed.

Lemma never_throws_for_of entries (body : string -> Socket -> JSM unit) :
  (forall k s, never_throws (body k s)) -> never_throws (for_of_entries entries body).
Proof.
  intro Hb. induction entries as [|[k s] rest IH]; cbn.
  - apply never_throws_ret.
  - apply never_throws_bind; [apply never_throws_gets|]. intro live.
    apply never_throws_bind; [|intros _; exact IH].
    destruct live; [apply Hb | apply never_throws_ret].
Qed.

Ltac never_throws_tac :=
  repeat first
    [ apply never_throws_ret
    | apply never_throws_gets
    | apply never_throws_platform
    | apply never_throws_assign
    | apply never_throws_host_do
    | apply never_throws_try_catch; intro
    | apply never_throws_for_of; intros
    | apply never_throws_bind; [ | intro ]
    | match goal with
      | |- never_throws (if ?b then _ else _) => destruct b
      | |- never_throws (match ?o with Some _ => _ | None => _ end) => destruct o
      end ].

Lemma handleClientDisconnect_never_throws clientId :
  never_throws (handleClientDisconnect clientId).
Proof.
  unfold handleClientDisconnect, ws_close, clearTimeout, clearInterval, emit.
  never_throws_tac.
Qed.

(** One failing peer never makes a broadcast throw, whoever is registered. *)
Lemma fanOutToClients_never_throws data : never_throws (fanOutToClients data).
Proof.
  pose proof handleClientDisconnect_never_throws.
  unfold fanOutToClients. never_throws_tac; auto.
Qed.

Lemma broadcastStatusToClients_never_throws message :
  never_throws (broadcastStatusToClients message).
Proof.
  pose proof handleClientDisconnect_never_throws.
  unfold broadcastStatusToClients, now_iso. never_throws_tac; auto.
Qed.

Lemma connectToSFU_never_throws : never_throws connectToSFU.
Proof.
  pose proof broadcastStatusToClients_never_throws.
  unfold connectToSFU. apply never_throws_try_catch. intros _.
  unfold scheduleReconnect, setTimeout, emit. never_throws_tac; auto.
Qed.

(** ** Sending to one viewer, and to all of them *)

Lemma viewer_send_ok sock data w :
  is_broken sock (host w) = false ->
  viewer_send sock data w
  = (Normal tt,
     {| this := this w;
        host := set_log (h_log (host w) ++ [ClientSend sock data]) (host w) |}).
Proof.
  intro H. unfold viewer_send, bind, platform, emit, host_do. now rewrite H.
Qed.

Lemma viewer_send_broken sock data w :
  is_broken sock (host w) = true ->
  viewer_send sock data w = (Throw "send failed", w).
Proof.
  intro H. unfold viewer_send, bind, platform, throw. now rewrite H.
Qed.

(** Removing a viewer that is not the last one touches the registry only. *)
Lemma handleClientDisconnect_not_last clientId w :
  Map_delete clientId (clients (this w)) <> [] ->
  handleClientDisconnect clientId w
  = (Normal tt,
     {| this := set_clients (Map_delete clientId (clients (this w))) (this w);
        host := host w |}).
Proof.
  intro H. unfold handleClientDisconnect, bind, assign, gets, ret. simpl.
  destruct (Map_delete clientId (clients (this w))); [congruence | reflexivity].
Qed.

Lemma handleClientDisconnect_last clientId w :
  Map_delete clientId (clients (this w)) = [] ->
  handleClientDisconnect clientId w
  = (Normal tt, exec teardown {| this := set_clients [] (this w); host := host w |}).
Proof.
  intro H. destruct w as [r h].
  destruct r as [sid st conn cl cd rt hb flag url cur]. simpl in H.
  unfold handleClientDisconnect, teardown, exec, bind, assign, gets, ret.
  simpl. rewrite H. simpl.
  destruct conn, rt, hb; reflexivity.
Qed.

Lemma Map_has_app k a b : Map_has k (a ++ b)%list = Map_has k a || Map_has k b.
Proof. unfold Map_has. apply existsb_app. Qed.

Lemma Map_has_In k m : Map_has k m = true <-> In k (map fst m).
Proof.
  unfold Map_has. rewrite existsb_exists. split.
  - intros [e [Hin He]]. apply String.eqb_eq in He. subst. now apply in_map.
  - intro Hin. apply in_map_iff in Hin. destruct Hin as [e [He Hin]].
    exists e. split; [exact Hin|]. now apply String.eqb_eq.
Qed.

Lemma Map_delete_absent k m : ~ In k (map fst m) -> Map_delete k m = m.
Proof.
  unfold Map_delete. induction m as [|e m IH]; simpl; intro H; [reflexivity|].
  destruct (fst e =? k) eqn:E.
  - apply String.eqb_eq in E. tauto.
  - simpl. f_equal. apply IH. tauto.
Qed.

Lemma Map_delete_middle k s kept rest :
  NoDup (map fst (kept ++ (k, s) :: rest)%list) ->
  Map_delete k (kept ++ (k, s) :: rest)%list = (kept ++ rest)%list.
Proof.
  intro ND. rewrite map_app in ND. simpl in ND.
  pose proof (NoDup_remove_2 _ _ _ ND) as Hnot.
  rewrite in_app_iff in Hnot.
  unfold Map_delete. rewrite filter_app. simpl. rewrite String.eqb_refl. simpl.
  fold (Map_delete k kept). fold (Map_delete k rest).
  rewrite !Map_delete_absent; tauto.
Qed.

(** The loop both broadcasts run, as long as somebody is left at the end:
    broken viewers leave the registry, every other viewer gets the payload
    once, in registry order, and nothing else changes. *)
Lemma deliver_loop payload rest : forall kept w,
  clients (this w) = (kept ++ rest)%list ->
  NoDup (map fst (kept ++ rest)%list) ->
  (kept ++ filter (healthy (host w)) rest)%list <> [] ->
  for_of_entries rest (deliver payload) w
  = (Normal tt,
     {| this := set_clients (kept ++ filter (healthy (host w)) rest)%list (this w);
        host := set_log (h_log (host w)
                          ++ map (fun e => ClientSend (snd e) payload)
                                 (filter (healthy (host w)) rest))%list
                        (host w) |}).
Proof.
  induction rest as [|[k s] rest IH]; intros kept w Hc ND Hne.
  - simpl. unfold ret. rewrite !app_nil_r in *.
    destruct w as [r h]. destruct r, h. simpl in *. subst. reflexivity.
  - assert (Hlive : Map_has k (clients (this w)) = true).
    { rewrite Hc, Map_has_app. simpl. rewrite String.eqb_refl. simpl.
      apply orb_true_r. }
    cbn [for_of_entries filter] in *.
    unfold bind at 1. unfold gets at 1. cbn [fst snd]. rewrite Hlive.
    unfold bind at 1. unfold deliver at 1. unfold try_catch.
    destruct (healthy (host w) (k, s)) eqn:Hh; unfold healthy in Hh;
      cbn [snd] in Hh.
    + apply negb_true_iff in Hh. rewrite (viewer_send_ok _ _ _ Hh).
      rewrite (IH (kept ++ [(k, s)])%list).
      * cbn [this host]. cbn. rewrite <- !app_assoc. reflexivity.
      * cbn [this host]. rewrite Hc, <- app_assoc. reflexivity.
      * rewrite <- app_assoc. exact ND.
      * rewrite <- app_assoc. cbn. intro E. apply app_eq_nil in E.
        destruct E as [_ E]. discriminate.
    + apply negb_false_iff in Hh. rewrite (viewer_send_broken _ _ _ Hh).
      assert (Hdel : Map_delete k (clients (this w)) = (kept ++ rest)%list)
        by (rewrite Hc; now apply Map_delete_middle).
      rewrite handleClientDisconnect_not_last.
      2:{ rewrite Hdel. intro E. apply Hne.
          apply app_eq_nil in E. destruct E; subst. reflexivity. }
      rewrite Hdel. rewrite (IH kept).
      * reflexivity.
      * reflexivity.
      * rewrite map_app in *. cbn in ND. now apply NoDup_remove_1 in ND.
      * exact Hne.
Qed.

(** The registry is a [Map]: its keys stay distinct whatever happens. *)
Lemma Map_set_keys k v m :
  map fst (Map_set k v m)
  = if Map_has k m then map fst m else (map fst m ++ [k])%list.
Proof.
  unfold Map_has. induction m as [|e m IH]; cbn; [reflexivity|].
  destruct (fst e =? k) eqn:E; cbn.
  - apply String.eqb_eq in E. now rewrite E.
  - rewrite IH. now destruct (existsb _ m).
Qed.

Lemma Map_set_keys_unique k v m :
  NoDup (map fst m) -> NoDup (map fst (Map_set k v m)).
Proof.
  intro ND. rewrite Map_set_keys. destruct (Map_has k m) eqn:H; [exact ND|].
  apply NoDup_app; [exact ND | repeat constructor; intros [] |].
  intros x Hin [Hx|[]]. subst x. apply Map_has_In in Hin. congruence.
Qed.

Lemma Map_delete_keys_unique k m :
  NoDup (map fst m) -> NoDup (map fst (Map_delete k m)).
Proof.
  unfold Map_delete. induction m as [|e m IH]; cbn; intro ND; [constructor|].
  inversion ND as [|x l Hnot ND']; subst.
  destruct (negb (fst e =? k)); cbn; [|auto].
  constructor; [|auto]. intro Hin. apply Hnot.
  apply in_map_iff in Hin. destruct Hin as [e' [He' Hin]].
  apply filter_In in Hin. apply in_map_iff. exists e'. tauto.
Qed.

#[local] Instance keeps_keys_unique_stable : Stable keeps_keys_unique.
Proof. split; unfold keeps_keys_unique; auto. Qed.

Ltac keys_leaf :=
  idtac;
  match goal with
  | |- respects keeps_keys_unique (assign (fun r => set_clients (Map_set _ _ _) r)) =>
      let w := fresh "w" in
      intros w; unfold keeps_keys_unique, keys_unique; cbn;
      apply Map_set_keys_unique
  | |- respects keeps_keys_unique (assign (fun r => set_clients (Map_delete _ _) r)) =>
      let w := fresh "w" in
      intros w; unfold keeps_keys_unique, keys_unique; cbn;
      apply Map_delete_keys_unique
  | |- respects keeps_keys_unique (assign _) =>
      let w := fresh "w" in
      intros w; unfold keeps_keys_unique, keys_unique; cbn; auto
  | |- respects keeps_keys_unique (host_do _) =>
      let w := fresh "w" in
      intros w; unfold keeps_keys_unique, keys_unique; cbn; auto
  end.

Lemma registry_keys_unique rejects now state env events w :
  run events (boot rejects now state env) = Some w -> keys_unique w.
Proof.
  intro Hrun. apply (run_respects keeps_keys_unique) in Hrun.
  - apply Hrun. constructor.
  - apply step_respects; try exact _.
    1: intros v v' Ht _; unfold keeps_keys_unique, keys_unique; now rewrite Ht.
    all: intros; unfold_methods; respects_with keys_leaf.
Qed.

Lemma filter_keeps_all {A : Type} (f : A -> bool) (l : list A) :
  (forall x, In x l -> f x = true) -> filter f l = l.
Proof.
  induction l as [|a l IH]; simpl; intro H; [reflexivity|].
  rewrite (H a (or_introl eq_refl)). f_equal. apply IH. auto.
Qed.

Lemma fanOutToClients_spec data w :
  NoDup (map fst (clients (this w))) ->
  filter (healthy (host w)) (clients (this w)) <> [] ->
  fanOutToClients data w
  = (Normal tt,
     {| this := set_clients (filter (healthy (host w)) (clients (this w))) (this w);
        host := set_log (h_log (host w)
                          ++ map (fun e => ClientSend (snd e) data)
                                 (filter (healthy (host w)) (clients (this w))))%list
                        (host w) |}).
Proof.
  intros ND Hne. unfold fanOutToClients, bind, gets. cbn [fst snd].
  apply (deliver_loop data (clients (this w)) [] w); auto.
Qed.

(** C2. Fan-out isolation: with three registered viewers (under distinct
    ids, as the keys of a [Map] are) of which exactly one, at any position,
    has a transport whose send throws, one call of [fanOutToClients]
    returns normally, leaves exactly the two other viewers in the registry
    (in their order) and sends the frame exactly once to each of them, in
    that order. *)
Theorem C2_fan_out_isolation (w : World) (data : Payload)
    (pre post : list (string * Socket)) (bad : string * Socket) :
  clients (this w) = (pre ++ bad :: post)%list ->
  List.length pre + List.length post = 2 ->
  NoDup (map fst (clients (this w))) ->
  is_broken (snd bad) (host w) = true ->
  (forall e, In e (pre ++ post)%list -> is_broken (snd e) (host w) = false) ->
  outcome (fanOutToClients data) w = Normal tt
  /\ clients (this (exec (fanOutToClients data) w)) = (pre ++ post)%list
  /\ h_log (host (exec (fanOutToClients data) w))
     = (h_log (host w) ++ map (fun e => ClientSend (snd e) data) (pre ++ post))%list.
Proof.
  intros Hc Hlen ND Hbad Hgood.
  assert (Hf : filter (healthy (host w)) (clients (this w)) = (pre ++ post)%list).
  { rewrite Hc, filter_app. cbn [filter]. unfold healthy at 2. rewrite Hbad.
    cbn [negb]. rewrite <- filter_app. apply filter_keeps_all.
    intros e He. unfold healthy. now rewrite (Hgood e He). }
  unfold outcome, exec. rewrite fanOutToClients_spec; auto.
  - rewrite Hf. cbn. auto.
  - rewrite Hf. destruct pre, post; cbn in *; try lia; discriminate.
Qed.

Lemma C2_fan_out_isolation_witness :
  outcome (fanOutToClients mediaFrame) threeViewers = Normal tt
  /\ clients (this (exec (fanOutToClients mediaFrame) threeViewers))
     = [("v1", 0); ("v3", 4)]
  /\ h_log (host (exec (fanOutToClients mediaFrame) threeViewers))
     = (h_log (host threeViewers)
        ++ [ClientSend 0 mediaFrame; ClientSend 4 mediaFrame])%list.
Proof.
  apply (C2_fan_out_isolation threeViewers mediaFrame [("v1", 0)] [("v3", 4)] ("v2", 3)).
  - reflexivity.
  - reflexivity.
  - cbn. repeat constructor; cbn; intuition discriminate.
  - reflexivity.
  - intros e [He | [He | []]]; subst; reflexivity.
Defined.

(** ** Who writes [codecDescription] *)

#[local] Instance keeps_codec_stable : Stable keeps_codec.
Proof.
  split; unfold keeps_codec; [reflexivity | intros a b c H1 H2; congruence].
Qed.

Ltac codec_leaf :=
  idtac;
  match goal with
  | |- respects keeps_codec (assign _) => intro; reflexivity
  | |- respects keeps_codec (host_do _) => intro; reflexivity
  end.

Lemma handleClientDisconnect_keeps_codec clientId :
  respects keeps_codec (handleClientDisconnect clientId).
Proof. unfold_methods. respects_with codec_leaf. Qed.

Lemma broadcastStatusToClients_keeps_codec message :
  respects keeps_codec (broadcastStatusToClients message).
Proof. unfold_methods. respects_with codec_leaf. Qed.

Lemma fanOutToClients_keeps_codec data :
  respects keeps_codec (fanOutToClients data).
Proof. unfold_methods. respects_with codec_leaf. Qed.

Lemma fetch_keeps_codec request uuid dead :
  respects keeps_codec (fetch request uuid dead).
Proof. unfold_methods. respects_with codec_leaf. Qed.

Lemma connectToSFU_keeps_codec : respects keeps_codec connectToSFU.
Proof. unfold_methods. respects_with codec_leaf. Qed.

Lemma onSfuOpen_keeps_codec : respects keeps_codec onSfuOpen.
Proof. unfold_methods. respects_with codec_leaf. Qed.

Lemma onSfuClose_keeps_codec : respects keeps_codec onSfuClose.
Proof. unfold_methods. respects_with codec_leaf. Qed.

Lemma onSfuError_keeps_codec : respects keeps_codec onSfuError.
Proof. unfold_methods. respects_with codec_leaf. Qed.

Lemma heartbeat_keeps_codec : respects keeps_codec heartbeat.
Proof. unfold_methods. respects_with codec_leaf. Qed.

(** The message listener: the one writer, and only into an empty slot. *)
Lemma onSfuMessage_fills_empty_slot data w :
  truthy (codecDescription (this w)) = false ->
  codecDescription (this (exec (onSfuMessage data) w)) = Some data.
Proof.
  intro Hempty. unfold onSfuMessage, exec, bind, gets. cbn [fst snd].
  rewrite Hempty. cbn [negb]. unfold assign at 1.
  set (w1 := {| this := set_codecDescription (Some data) (this w); host := host w |}).
  pose proof (broadcastStatusToClients_keeps_codec
                "Received codec information from SFU" w1) as Hb.
  unfold keeps_codec, exec in Hb.
  destruct (broadcastStatusToClients _ w1) as [[[]|e] w2]; cbn [fst snd] in *.
  - pose proof (fanOutToClients_keeps_codec data w2) as Hf.
    unfold keeps_codec, exec in Hf. rewrite Hf, Hb. reflexivity.
  - exact Hb.
Qed.

Lemma onSfuMessage_keeps_full_slot data w :
  truthy (codecDescription (this w)) = true ->
  codecDescription (this (exec (onSfuMessage data) w)) = codecDescription (this w).
Proof.
  intro Hfull. unfold onSfuMessage, exec, bind, gets. simpl.
  rewrite Hfull. simpl. apply (fanOutToClients_keeps_codec data w).
Qed.

Lemma step_keeps_full_slot e w w' :
  truthy (codecDescription (this w)) = true ->
  step e w = Some w' ->
  codecDescription (this w') = codecDescription (this w).
Proof.
  intros Hfull Hs. destruct e; simpl in Hs.
  - inversion Hs; subst. apply fetch_keeps_codec.
  - inversion Hs; subst. apply handleClientDisconnect_keeps_codec.
  - inversion Hs; subst. reflexivity.
  - destruct (conn_state c (host w)) as [[]|]; inversion Hs; subst.
    apply (onSfuOpen_keeps_codec (conn_becomes c OPEN w)).
  - destruct (conn_state c (host w)) as [[]|]; inversion Hs; subst.
    now apply onSfuMessage_keeps_full_slot.
  - destruct (conn_state c (host w)) as [[]|]; inversion Hs; subst;
      apply (onSfuError_keeps_codec (conn_becomes c CLOSING w)).
  - destruct (conn_state c (host w)) as [[]|]; inversion Hs; subst;
      apply (onSfuClose_keeps_codec (conn_becomes c CLOSED w)).
  - destruct (timer_live t (h_timeouts (host w))); inversion Hs; subst.
    match goal with |- context [exec connectToSFU ?v] =>
      apply (connectToSFU_keeps_codec v) end.
  - destruct (timer_live t (h_intervals (host w))); inversion Hs; subst.
    apply heartbeat_keeps_codec.
  - destruct (0 <=? ms)%Z; inversion Hs; subst. reflexivity.
Qed.

Lemma run_keeps_full_slot events : forall w w',
  truthy (codecDescription (this w)) = true ->
  run events w = Some w' ->
  codecDescription (this w') = codecDescription (this w).
Proof.
  induction events as [|e rest IH]; simpl; intros w w' Hfull H.
  - inversion H; subst. reflexivity.
  - destruct (step e w) as [w1|] eqn:E; [|discriminate].
    pose proof (step_keeps_full_slot _ _ _ Hfull E) as H1.
    rewrite <- H1. apply IH; [rewrite H1; exact Hfull | exact H].
Qed.

(** C1, on the code of [StreamRelay.ts]. The class has one cache field and
    its message listener never looks at the leading byte of a frame. With
    the upstream connected, an audio frame comes in and takes the field; the
    video frame that follows finds the video slot empty and still is not
    cached: the slot stays empty and the field keeps the audio frame. The
    later revision of the class, kept with the deploy script, has one field
    per media type and tests the leading byte. *)
Lemma C1_video_frame_is_not_cached :
  run [join "v1"; UpstreamOpen 1; UpstreamMessage 1 audioInit] sampleBoot
  = Some audioCachedWorld
  /\ isConnectedToSFU (this audioCachedWorld) = true
  /\ discriminator videoInit = Some Video
  /\ initFrames Video (this audioCachedWorld) = None
  /\ step (UpstreamMessage 1 videoInit) audioCachedWorld = Some bothSeenWorld
  /\ initFrames Video (this bothSeenWorld) = None
  /\ codecDescription (this bothSeenWorld) = Some audioInit.
Proof.
  split; [vm_compute; reflexivity|].
  split; [vm_compute; reflexivity|].
  split; [vm_compute; reflexivity|].
  split; [vm_compute; reflexivity|].
  split; [vm_compute; reflexivity|].
  split; vm_compute; reflexivity.
Qed.

(** The one field of [StreamRelay.ts], after a binary frame: when it was
    empty it holds this frame, when it was taken it is as it was; and from
    then on no event of any kind writes it. *)
Lemma codecDescription_written_once (w w1 w2 : World) (c : Conn)
    (bytes : list byte) (events : list Event) :
  step (UpstreamMessage c (Binary bytes)) w = Some w1 ->
  run events w1 = Some w2 ->
  codecDescription (this w1)
  = (if truthy (codecDescription (this w)) then codecDescription (this w)
     else Some (Binary bytes))
  /\ codecDescription (this w2) = codecDescription (this w1).
Proof.
  intros Hstep Hrun. unfold step in Hstep.
  destruct (conn_state c (host w)) as [[]|]; try discriminate.
  inversion Hstep; subst w1; clear Hstep.
  assert (H1 : codecDescription (this (exec (onSfuMessage (Binary bytes)) w))
               = (if truthy (codecDescription (this w))
                  then codecDescription (this w) else Some (Binary bytes))).
  { destruct (truthy (codecDescription (this w))) eqn:T.
    - now apply onSfuMessage_keeps_full_slot.
    - now apply onSfuMessage_fills_empty_slot. }
  split; [exact H1|].
  apply (run_keeps_full_slot events); [|exact Hrun].
  rewrite H1. destruct (truthy (codecDescription (this w))) eqn:T; [exact T | reflexivity].
Qed.

(** ** A viewer joins *)

Lemma Map_set_fresh k v m :
  Map_has k m = false -> Map_set k v m = (m ++ [(k, v)])%list.
Proof.
  unfold Map_has. induction m as [|e m IH]; cbn; intro H; [reflexivity|].
  apply orb_false_iff in H. destruct H as [H1 H2]. rewrite H1.
  f_equal. now apply IH.
Qed.

Lemma Map_get_last k v m :
  Map_has k m = false -> Map_get k (m ++ [(k, v)])%list = Some v.
Proof.
  unfold Map_has, Map_get. induction m as [|e m IH]; cbn; intro H.
  - now rewrite String.eqb_refl.
  - apply orb_false_iff in H. destruct H as [H1 H2]. rewrite H1. now apply IH.
Qed.

(** What [fetch] does for an upgrade request of a later viewer while the
    relay is connected and holds a cached frame. *)
Lemma fetch_replays_cached_frame request uuid w frame :
  is_upgrade request = true ->
  clients (this w) <> [] ->
  Map_has uuid (clients (this w)) = false ->
  isConnectedToSFU (this w) = true ->
  codecDescription (this w) = Some frame ->
  truthy (Some frame) = true ->
  is_broken (h_next (host w)) (host w) = false ->
  fetch request uuid false w
  = (Normal (Response101 (h_next (host w))),
     {| this := set_clients (clients (this w) ++ [(uuid, h_next (host w))])%list (this w);
        host := set_log (h_log (host w)
                          ++ [ClientSend (h_next (host w)) (initialStatus w);
                              ClientSend (h_next (host w)) frame])%list
                  (set_next (S (h_next (host w))) (host w)) |}).
Proof.
  intros Hup Hne Hfresh Hconn Hcodec Htruthy Hok.
  destruct w as [r h]. destruct r as [sid st conn cl cd rt hb flag url cur].
  destruct h as [br rej cn tmo itv nxt now lg].
  cbn in Hne, Hfresh, Hconn, Hcodec, Hok. subst flag cd.
  unfold fetch. rewrite Hup.
  unfold new_WebSocketPair, sendStatusToClient, now_iso, viewer_send, initialStatus.
  unfold bind, gets, assign, platform, host_do, ret, try_catch, emit. cbn.
  rewrite (Map_set_fresh _ _ _ Hfresh), (Map_get_last _ _ _ Hfresh).
  unfold is_broken in *. cbn in *. rewrite Hok. cbn.
  rewrite length_app. cbn.
  destruct cl as [|c0 cl]; [congruence|]. cbn.
  replace (List.length cl + 1 =? 0)%nat with false
    by (symmetry; apply Nat.eqb_neq; lia).
  cbn. rewrite Htruthy. cbn. rewrite Hok. cbn. rewrite <- app_assoc. reflexivity.
Qed.

(** C3, on the code of [StreamRelay.ts]. There is one cached frame: a
    viewer that joins after an audio and a video frame have come in, with
    the upstream connected, is sent one binary frame (the audio frame, which
    came first), not two. The later revision of the class, kept with the
    deploy script, replays its audio field and then its video field. *)
Lemma C3_one_frame_is_replayed :
  run [join "v1"; UpstreamOpen 1; UpstreamMessage 1 audioInit;
       UpstreamMessage 1 videoInit] sampleBoot
  = Some bothSeenWorld
  /\ isConnectedToSFU (this bothSeenWorld) = true
  /\ truthy (codecDescription (this bothSeenWorld)) = true
  /\ binary_frames_to 3
       (new_effects bothSeenWorld
          (exec (fetch (upgradeRequest "/stream/alpha") "v2" false) bothSeenWorld))
     = [[x01; x11; x90]]
  /\ List.length
       (binary_frames_to 3
          (new_effects bothSeenWorld
             (exec (fetch (upgradeRequest "/stream/alpha") "v2" false) bothSeenWorld)))
     <> 2.
Proof.
  split; [vm_compute; reflexivity|].
  split; [vm_compute; reflexivity|].
  split; [vm_compute; reflexivity|].
  split; [vm_compute; reflexivity|].
  vm_compute. intro H. discriminate H.
Qed.

(** What a later viewer gets in [StreamRelay.ts]: joining a non-empty
    registry under a fresh id, with the connected flag set, a truthy frame
    in the field and a working transport, it is answered 101 and sent its
    initial status message and then the cached frame; whatever any later
    event sends comes after them. *)
Lemma later_joiner_gets_status_then_frame (request : Request) (uuid : string)
    (w w2 : World) (frame : Payload) (events : list Event) :
  is_upgrade request = true ->
  clients (this w) <> [] ->
  Map_has uuid (clients (this w)) = false ->
  isConnectedToSFU (this w) = true ->
  codecDescription (this w) = Some frame ->
  truthy (Some frame) = true ->
  is_broken (h_next (host w)) (host w) = false ->
  run events (exec (fetch request uuid false) w) = Some w2 ->
  outcome (fetch request uuid false) w = Normal (Response101 (h_next (host w)))
  /\ h_log (host (exec (fetch request uuid false) w))
     = (h_log (host w)
        ++ [ClientSend (h_next (host w)) (initialStatus w);
            ClientSend (h_next (host w)) frame])%list
  /\ exists later,
       h_log (host w2)
       = (h_log (host w)
          ++ [ClientSend (h_next (host w)) (initialStatus w);
              ClientSend (h_next (host w)) frame]
          ++ later)%list.
Proof.
  intros Hup Hne Hfresh Hconn Hcodec Htruthy Hok Hrun.
  pose proof (fetch_replays_cached_frame request uuid w frame
                Hup Hne Hfresh Hconn Hcodec Htruthy Hok) as E.
  unfold outcome, exec in *. rewrite E in *. cbn [fst snd] in *.
  split; [reflexivity|]. split; [reflexivity|].
  destruct (run_extends_log _ _ _ Hrun) as [later Hl].
  exists later. rewrite Hl. cbn. now rewrite <- app_assoc.
Qed.

(** ** handleClientDisconnect twice *)

Lemma Map_delete_idem k m : Map_delete k (Map_delete k m) = Map_delete k m.
Proof.
  unfold Map_delete. induction m as [|e m IH]; cbn; auto.
  destruct (negb (fst e =? k)) eqn:E; cbn; rewrite ?E, IH; auto.
Qed.

(** C6. Idempotence of viewer removal: for every client id and every state,
    handling the disconnect of the same id a second time changes nothing:
    registry, upstream connection, connected flag, both timer handles and
    the host (no further close or clear call) are as the first call left
    them. *)
Theorem C6_handleClientDisconnect_idempotent (clientId : string) (w : World) :
  exec (handleClientDisconnect clientId) (exec (handleClientDisconnect clientId) w)
  = exec (handleClientDisconnect clientId) w.
Proof.
  unfold exec at 2 3.
  destruct (Map_delete clientId (clients (this w))) as [|e rest] eqn:E.
  - rewrite (handleClientDisconnect_last _ _ E). cbn [snd].
    set (w1 := exec teardown _).
    assert (H1 : clients (this w1) = []
                 /\ sfuConnection (this w1) = None
                 /\ reconnectTimeout (this w1) = None
                 /\ heartbeatInterval (this w1) = None
                 /\ isConnectedToSFU (this w1) = false).
    { subst w1. destruct w as [r h].
      destruct r as [sid st conn cl cd rt hb flag url cur].
      unfold teardown, exec, ws_close, clearTimeout, clearInterval.
      js_unfold. destruct conn, rt, hb; cbn; auto. }
    destruct H1 as (Hc & Hs & Hr & Hh & Hf).
    unfold exec. rewrite handleClientDisconnect_last by (now rewrite Hc).
    cbn [snd]. destruct w1 as [r1 h1].
    destruct r1 as [sid st conn cl cd rt hb flag url cur].
    cbn in Hc, Hs, Hr, Hh, Hf. subst.
    unfold teardown, exec. js_unfold. reflexivity.
  - assert (Hne : Map_delete clientId (clients (this w)) <> [])
      by (rewrite E; discriminate).
    rewrite (handleClientDisconnect_not_last _ _ Hne). cbn [snd].
    unfold exec. rewrite handleClientDisconnect_not_last;
      cbn; rewrite Map_delete_idem; [reflexivity | exact Hne].
Qed.

(** ** The health endpoint *)

(** C7. For every state, a plain (non-upgrade) request for [/health]
    completes normally with a JSON body that serializes exactly the status
    [ok], the stream id, the current number of registered clients and the
    current connected flag, and leaves relay and host exactly as they
    were. *)
Theorem C7_health_is_a_pure_read (request : Request) (uuid : string)
    (dead : bool) (w : World) :
  is_upgrade request = false ->
  req_pathname request = "/health" ->
  fetch request uuid dead w
  = (Normal
       (Response200 "application/json"
          (JS.stringify
             [("status", JS.JString "ok");
              ("streamId", JS.JString (streamId (this w)));
              ("clientCount", JS.JNumber (List.length (clients (this w))));
              ("connectedToSFU", JS.JBool (isConnectedToSFU (this w)))])),
     w).
Proof.
  intros Hup Hpath. unfold fetch. rewrite Hup, Hpath. reflexivity.
Qed.

Lemma C7_health_is_a_pure_read_witness :
  fetch (plainRequest "/health") "unused" false threeViewers
  = (Normal
       (Response200 "application/json"
          (JS.stringify
             [("status", JS.JString "ok");
              ("streamId", JS.JString (streamId (this threeViewers)));
              ("clientCount", JS.JNumber (List.length (clients (this threeViewers))));
              ("connectedToSFU", JS.JBool (isConnectedToSFU (this threeViewers)))])),
     threeViewers).
Proof.
  apply (C7_health_is_a_pure_read (plainRequest "/health") "unused" false threeViewers).
  - reflexivity.
  - reflexivity.
Defined.

(** ** The stream id *)

Lemma split_nonempty sep s : JS.split sep s <> [].
Proof.
  destruct s as [|c s]; cbn; [discriminate|].
  destruct (Ascii.eqb c sep); [discriminate|].
  destruct (JS.split sep s); discriminate.
Qed.

Lemma split_head s : hd "" (JS.split ":" s) = until_colon s.
Proof.
  induction s as [|c s IH]; cbn; [reflexivity|].
  destruct (Ascii.eqb c ":"); [reflexivity|].
  destruct (JS.split ":" s) eqn:E; [now apply split_nonempty in E|].
  cbn in *. now rewrite IH.
Qed.

Lemma split_second s :
  nth_error (JS.split ":" s) 1 = option_map until_colon (after_colon s).
Proof.
  induction s as [|c s IH]; cbn; [reflexivity|].
  destruct (Ascii.eqb c ":").
  - cbn. pose proof (split_head s) as H.
    destruct (JS.split ":" s) eqn:E; [now apply split_nonempty in E|].
    cbn in *. now rewrite H.
  - destruct (JS.split ":" s) eqn:E; [now apply split_nonempty in E|].
    cbn in *. exact IH.
Qed.

(** C10, as stated, fails: the worker entry point builds the name
    [stream::x] for the path [/stream/:x]; its split has an element at
    index 1 (the empty string) and the name contains the separator, yet the
    stream id is the fallback and not that element. *)
Lemma C10_counterexample :
  streamObjectName "/stream/:x" = Some "stream::x"
  /\ nth_error (JS.split ":" "stream::x") 1 = Some ""
  /\ JS.mentions ":" "stream::x" = true
  /\ streamId (constructor {| id_name := Some "stream::x"; id_toString := "f3a9c1" |}
                           {| SFU_SERVER_URL := None |})
     = "test_stream"
  /\ streamId (constructor {| id_name := Some "stream::x"; id_toString := "f3a9c1" |}
                           {| SFU_SERVER_URL := None |})
     <> "".
Proof.
  split; [reflexivity|]. split; [reflexivity|]. split; [reflexivity|].
  split; [reflexivity|]. cbn. discriminate.
Qed.

(** C10, amended. For every hosting-actor name the constructor sets
    [streamId] to the text between the first colon of the name and the next
    one (the element at index 1 of the split) when that text is not empty;
    when the name is absent, has no colon, or has nothing between the first
    colon and the next (as in [stream::x]), [streamId] is the constant
    [test_stream]. *)
Theorem C10_streamId_from_name (state : DurableObjectId) (env : Env) :
  streamId (constructor state env) = streamId_rule (id_name state).
Proof.
  unfold constructor, streamId_rule. cbn [streamId].
  destruct (id_name state) as [name|]; [|reflexivity].
  rewrite split_second. destruct (after_colon name) as [rest|]; [|reflexivity].
  cbn. unfold JS.truthy_string.
  destruct (until_colon rest =? "") eqn:E; reflexivity.
Qed.

Lemma after_colon_stream id : after_colon ("stream:" ++ id) = Some id.
Proof. reflexivity. Qed.

(** For the names the worker entry point builds: the id up to its first
    colon, or the fallback when that is empty. *)
Lemma streamId_of_routed_names id idString env :
  streamId (constructor {| id_name := Some ("stream:" ++ id); id_toString := idString |} env)
  = if until_colon id =? "" then "test_stream" else until_colon id.
Proof.
  unfold constructor. cbn [streamId id_name].
  rewrite split_second, after_colon_stream. cbn. unfold JS.truthy_string.
  destruct (until_colon id =? ""); reflexivity.
Qed.

(** ** The upstream target *)

#[local] Instance keeps_target_stable target : Stable (keeps_target target).
Proof. split; unfold keeps_target; auto. Qed.

Lemma targets_emit target e w :
  (forall url, e = NewWebSocket url -> url = target) ->
  targets target w ->
  targets target
    {| this := this w; host := set_log (h_log (host w) ++ [e])%list (host w) |}.
Proof.
  intros He [H1 H2]. split; [exact H1|]. cbn. intros url Hin.
  apply in_app_or in Hin. destruct Hin as [Hin | [Hin | []]]; auto.
Qed.

Ltac target_leaf :=
  idtac;
  match goal with
  | |- respects (keeps_target _) (assign _) =>
      let w := fresh "w" in let H := fresh "H" in
      intros w H; destruct H; split; cbn; assumption
  | |- respects (keeps_target _) (host_do (fun h => set_log (h_log h ++ [_]) h)) =>
      let w := fresh "w" in let H := fresh "H" in
      intros w H; apply targets_emit; [intros ? ?; discriminate | exact H]
  | |- respects (keeps_target _) (host_do _) =>
      let w := fresh "w" in let H := fresh "H" in
      intros w H; destruct H; split; cbn; assumption
  end.

Lemma handleClientDisconnect_keeps_target target clientId :
  respects (keeps_target target) (handleClientDisconnect clientId).
Proof. unfold_methods. respects_with target_leaf. Qed.

Lemma broadcastStatusToClients_keeps_target target message :
  respects (keeps_target target) (broadcastStatusToClients message).
Proof. unfold_methods. respects_with target_leaf. Qed.

Lemma scheduleReconnect_keeps_target target :
  respects (keeps_target target) scheduleReconnect.
Proof. unfold_methods. respects_with target_leaf. Qed.

Lemma startHeartbeat_keeps_target target :
  respects (keeps_target target) startHeartbeat.
Proof. unfold_methods. respects_with target_leaf. Qed.

Lemma connectToSFU_unfold :
  connectToSFU = try_catch connectAttempt (fun _ => connectFailed).
Proof. reflexivity. Qed.

(** The one place a [NewWebSocket] is emitted. *)
Lemma connectAttempt_log w :
  wsTarget (this (exec connectAttempt w)) = wsTarget (this w)
  /\ exists pre,
       h_log (host (exec connectAttempt w))
       = (h_log (host w) ++ pre ++ [NewWebSocket (wsTarget (this w))])%list
       /\ forall url, ~ In (NewWebSocket url) pre.
Proof.
  destruct w as [r h]. destruct r as [sid st conn cl cd rt hb flag url cur].
  destruct h as [br rej cn tmo itv nxt now lg].
  unfold connectAttempt, exec, new_WebSocket, clearTimeout, wsTarget.
  js_unfold.
  destruct rt as [t|]; cbn;
    match goal with |- context [rej ?u] => destruct (rej u) end; cbn.
  1,2: split; [reflexivity|]; exists [ClearTimeout t]; split;
       [now rewrite <- app_assoc | intros u [H|[]]; discriminate].
  1,2: split; [reflexivity|]; exists []; split; [reflexivity | intros u []].
Qed.

Lemma connectFailed_extends_log : respects extends_log connectFailed.
Proof. unfold connectFailed. unfold_methods. respects_with log_leaf. Qed.

Lemma connectToSFU_logs_target w :
  In (NewWebSocket (wsTarget (this w))) (h_log (host (exec connectToSFU w))).
Proof.
  rewrite connectToSFU_unfold.
  destruct (connectAttempt_log w) as [_ [pre [Hlog _]]].
  unfold exec, try_catch in *.
  destruct (connectAttempt w) as [[[]|e] w1]; cbn [fst snd] in *.
  - rewrite Hlog. apply in_or_app. right. apply in_or_app. right. now left.
  - destruct (connectFailed_extends_log w1) as [d Hd]. unfold exec in Hd.
    rewrite Hd, Hlog. apply in_or_app. left.
    apply in_or_app. right. apply in_or_app. right. now left.
Qed.

Lemma connectToSFU_keeps_target target : respects (keeps_target target) connectToSFU.
Proof.
  rewrite connectToSFU_unfold. apply respects_try_catch; [exact _ | | intros _].
  - intros w [H1 H2]. destruct (connectAttempt_log w) as [Ht [pre [Hlog Hpre]]].
    split; [congruence|]. rewrite Hlog. intros u Hin.
    apply in_app_or in Hin. destruct Hin as [Hin|Hin]; [now apply H2|].
    apply in_app_or in Hin. destruct Hin as [Hin|[Hin|[]]].
    + now apply Hpre in Hin.
    + inversion Hin. congruence.
  - unfold connectFailed. unfold_methods. respects_with target_leaf.
Qed.

Lemma fetch_keeps_target target request uuid dead :
  respects (keeps_target target) (fetch request uuid dead).
Proof.
  pose proof (connectToSFU_keeps_target target) as HC.
  unfold fetch.
  unfold sendStatusToClient, startHeartbeat, handleClientDisconnect, teardown,
    viewer_send, new_WebSocketPair, ws_close, setTimeout,
    clearTimeout, setInterval, clearInterval, now_iso, emit.
  respects_with ltac:(first [exact HC | target_leaf]).
Qed.

Lemma step_keeps_target target e w w' :
  step e w = Some w' -> keeps_target target w w'.
Proof.
  apply step_respects; try exact _.
  - intros v v' Ht Hl [H1 H2]. split; [now rewrite Ht | now rewrite Hl].
  - apply fetch_keeps_target.
  - apply handleClientDisconnect_keeps_target.
  - unfold_methods. respects_with target_leaf.
  - intro data. unfold_methods. respects_with target_leaf.
  - unfold_methods. respects_with target_leaf.
  - unfold_methods. respects_with target_leaf.
  - apply connectToSFU_keeps_target.
  - unfold_methods. respects_with target_leaf.
Qed.

Lemma run_keeps_target target events : forall w w',
  run events w = Some w' -> targets target w -> targets target w'.
Proof.
  induction events as [|e rest IH]; cbn; intros w w' H Hw.
  - inversion H; subst. exact Hw.
  - destruct (step e w) as [w1|] eqn:E; [|discriminate].
    apply (IH w1 w' H). now apply (step_keeps_target target e w w1).
Qed.

(** C8. For every name and configuration, every upstream connect attempt
    of a relay, in whatever state events have brought it, is made against
    the configured base address (the loopback placeholder
    [ws://127.0.0.1:5500] when none is configured) followed by [/consume/]
    and the stream id; and each call of [connectToSFU] makes such an
    attempt. For the name [stream:alpha] and no configured address this is
    [ws://127.0.0.1:5500/consume/alpha]. *)
Theorem C8_upstream_target (rejects : string -> bool) (now : Z)
    (state : DurableObjectId) (env : Env) (events : list Event) (w : World) :
  run events (boot rejects now state env) = Some w ->
  (forall url, In (NewWebSocket url) (h_log (host w)) ->
     url = JS.or_else (SFU_SERVER_URL env) "ws://127.0.0.1:5500"
             ++ "/consume/" ++ streamId (constructor state env))
  /\ In (NewWebSocket (JS.or_else (SFU_SERVER_URL env) "ws://127.0.0.1:5500"
                         ++ "/consume/" ++ streamId (constructor state env)))
        (h_log (host (exec connectToSFU w))).
Proof.
  intro Hrun.
  set (target := JS.or_else (SFU_SERVER_URL env) "ws://127.0.0.1:5500"
                   ++ "/consume/" ++ streamId (constructor state env)).
  assert (H0 : targets target (boot rejects now state env))
    by (split; [reflexivity | intros url []]).
  destruct (run_keeps_target target events _ _ Hrun H0) as [H1 H2].
  split; [exact H2|]. rewrite <- H1. apply connectToSFU_logs_target.
Qed.

Lemma C8_upstream_target_witness :
  (forall url,
     In (NewWebSocket url) (h_log (host (world_after [join "v1"]))) ->
     url = "ws://127.0.0.1:5500/consume/alpha")
  /\ In (NewWebSocket "ws://127.0.0.1:5500/consume/alpha")
        (h_log (host (exec connectToSFU (world_after [join "v1"])))).
Proof.
  apply (C8_upstream_target (fun _ => false) 1700000000123 sampleId
           {| SFU_SERVER_URL := None |} [join "v1"] (world_after [join "v1"])).
  vm_compute. reflexivity.
Defined.

(** ** Status messages *)

#[local] Instance only_sends_stable frame : Stable (only_sends frame).
Proof.
  split.
  - intro w. exists []. split; [now rewrite app_nil_r | intros ? ? []].
  - intros a b c [d1 [H1 K1]] [d2 [H2 K2]]. exists (d1 ++ d2)%list. split.
    + now rewrite H2, H1, app_assoc.
    + intros sock data Hin. apply in_app_or in Hin. destruct Hin; eauto.
Qed.

Ltac sends_leaf :=
  idtac;
  match goal with
  | |- respects (only_sends _) (assign _) =>
      intro; exists []; split; [cbn; now rewrite app_nil_r | intros ? ? []]
  | |- respects (only_sends ?f) (host_do (fun h => set_log (h_log h ++ [?e]) h)) =>
      intro; exists [e]; split;
      [reflexivity
      | let H := fresh "H" in
        intros ? ? [H|[]]; first [discriminate H | now inversion H]]
  | |- respects (only_sends _) (host_do _) =>
      intro; exists []; split; [cbn; now rewrite app_nil_r | intros ? ? []]
  end.

Lemma deliver_only_sends frame clientId client :
  respects (only_sends frame) (deliver frame clientId client).
Proof. unfold deliver. unfold_methods. respects_with sends_leaf. Qed.

Lemma broadcastStatusToClients_only_sends message w :
  only_sends (statusFrame message w) w (exec (broadcastStatusToClients message) w).
Proof.
  unfold broadcastStatusToClients, now_iso, exec, bind, gets, platform.
  cbn [fst snd].
  apply (respects_for_of (only_sends (statusFrame message w)) (clients (this w))
           (deliver (statusFrame message w))).
  intros k s. apply deliver_only_sends.
Qed.

Lemma sendStatusToClient_only_sends clientId message w :
  only_sends (statusFrame message w) w (exec (sendStatusToClient clientId message) w).
Proof.
  unfold sendStatusToClient, now_iso, exec, bind, gets, platform, try_catch.
  cbn [fst snd].
  destruct (Map_get clientId (clients (this w))) as [client|]; [|apply stable_refl].
  apply (deliver_only_sends (statusFrame message w) clientId client w).
Qed.

Lemma heartbeat_only_sends w :
  only_sends (statusFrame (heartbeatStatus w) w) w (exec heartbeat w).
Proof.
  unfold heartbeat, exec, bind, gets. cbn [fst snd].
  apply broadcastStatusToClients_only_sends.
Qed.

(** The timestamp has the 24-character ISO-8601 shape. *)
Lemma digit_is_digit n : JS.is_digit (JS.digit n) = true.
Proof.
  unfold JS.is_digit, JS.digit.
  assert (H : (0 <= n mod 10 < 10)%Z) by (apply Z.mod_pos_bound; lia).
  rewrite nat_ascii_embedding by lia.
  apply andb_true_iff. split; apply Nat.leb_le; lia.
Qed.

Lemma toISOString_shape t : JS.iso8601_shape (JS.toISOString t) = true.
Proof.
  unfold JS.toISOString. destruct (JS.civil_from_days _) as [[y m] d].
  unfold JS.pad4, JS.pad3, JS.pad2, JS.iso8601_shape.
  cbn -[JS.digit JS.is_digit]. rewrite !digit_is_digit. reflexivity.
Qed.

(** What a registered viewer with a working transport gets. *)
Lemma sendStatusToClient_delivers clientId message w client :
  Map_get clientId (clients (this w)) = Some client ->
  is_broken client (host w) = false ->
  sendStatusToClient clientId message w
  = (Normal tt,
     {| this := this w;
        host := set_log (h_log (host w)
                          ++ [ClientSend client (statusFrame message w)])%list
                        (host w) |}).
Proof.
  intros Hget Hok.
  unfold sendStatusToClient, now_iso, bind, gets, platform, try_catch.
  cbn [fst snd]. rewrite Hget. now rewrite viewer_send_ok.
Qed.

(** C9. Every status message the relay sends, whether by
    [sendStatusToClient] (the initial one), by [broadcastStatusToClients] or
    by the heartbeat, is a text frame holding the serialization of a record
    with exactly the fields [type] (the string status), [message],
    [timestamp] (the clock time in the ISO-8601 shape
    YYYY-MM-DDTHH:mm:ss.sssZ) and [isConnectedToSFU] (the connected flag at
    the time of the call), in this order; these calls send nothing else to
    viewers, and a registered viewer with a working transport does get the
    frame. *)
Theorem C9_status_wire_shape (w : World) (clientId message : string) :
  (forall m,
     statusFrame m w
     = Text (JS.stringify (statusRecord m (JS.toISOString (h_now (host w)))
                                        (isConnectedToSFU (this w))))
     /\ map fst (statusRecord m (JS.toISOString (h_now (host w)))
                              (isConnectedToSFU (this w)))
        = ["type"; "message"; "timestamp"; "isConnectedToSFU"])
  /\ JS.iso8601_shape (JS.toISOString (h_now (host w))) = true
  /\ only_sends (statusFrame message w) w (exec (sendStatusToClient clientId message) w)
  /\ only_sends (statusFrame message w) w (exec (broadcastStatusToClients message) w)
  /\ only_sends (statusFrame (heartbeatStatus w) w) w (exec heartbeat w)
  /\ (forall client,
        Map_get clientId (clients (this w)) = Some client ->
        is_broken client (host w) = false ->
        h_log (host (exec (sendStatusToClient clientId message) w))
        = (h_log (host w) ++ [ClientSend client (statusFrame message w)])%list).
Proof.
  split; [intro m; split; reflexivity|].
  split; [apply toISOString_shape|].
  split; [apply sendStatusToClient_only_sends|].
  split; [apply broadcastStatusToClients_only_sends|].
  split; [apply heartbeat_only_sends|].
  intros client Hget Hok. unfold exec.
  now rewrite (sendStatusToClient_delivers _ _ _ _ Hget Hok).
Qed.

(** ** Who owns the timers *)

#[local] Instance keeps_timers_stable : Stable keeps_timers.
Proof. split; unfold keeps_timers; auto. Qed.

Lemma without_self t : without t [t] = [].
Proof. unfold without. cbn. now rewrite Nat.eqb_refl. Qed.

Lemma Map_set_nonempty k v m : Map_set k v m <> [].
Proof. destruct m as [|e m]; cbn; [|destruct (fst e =? k)]; discriminate. Qed.

Lemma handleClientDisconnect_keeps_timers clientId :
  respects keeps_timers (handleClientDisconnect clientId).
Proof.
  intros w (HB & HC & HD). unfold exec.
  destruct (Map_delete clientId (clients (this w))) as [|e rest] eqn:E.
  - rewrite (handleClientDisconnect_last _ _ E). cbn [snd].
    destruct w as [r h]. destruct r as [sid st conn cl cd rt hb flag url cur].
    destruct h as [br rej cn tmo itv nxt now lg]. cbn in HB, HC, HD. subst.
    unfold teardown, exec, ws_close, clearTimeout, clearInterval. js_unfold.
    unfold timers_owned.
    destruct conn, rt, hb; cbn; rewrite ?without_self;
      repeat split; auto; congruence.
  - rewrite handleClientDisconnect_not_last by (rewrite E; discriminate).
    cbn. repeat split; auto. rewrite E. discriminate.
Qed.

Lemma scheduleReconnect_keeps_timers : respects keeps_timers scheduleReconnect.
Proof.
  intros w (HB & HC & HD).
  destruct w as [r h]. destruct r as [sid st conn cl cd rt hb flag url cur].
  destruct h as [br rej cn tmo itv nxt now lg]. cbn in HB, HC, HD. subst.
  unfold scheduleReconnect, setTimeout, exec, timers_owned. js_unfold. cbn.
  destruct cl as [|c0 cl], rt as [t|]; cbn; repeat split; auto; discriminate.
Qed.

Lemma startHeartbeat_keeps_timers : respects keeps_timers startHeartbeat.
Proof.
  intros w (HB & HC & HD).
  destruct w as [r h]. destruct r as [sid st conn cl cd rt hb flag url cur].
  destruct h as [br rej cn tmo itv nxt now lg]. cbn in HB, HC, HD. subst.
  unfold startHeartbeat, setInterval, clearInterval, exec, timers_owned.
  js_unfold.
  destruct hb as [t|]; cbn; rewrite ?without_self; repeat split; auto.
Qed.

Ltac timers_leaf :=
  idtac;
  match goal with
  | |- respects keeps_timers (handleClientDisconnect _) =>
      apply handleClientDisconnect_keeps_timers
  | |- respects keeps_timers scheduleReconnect => apply scheduleReconnect_keeps_timers
  | |- respects keeps_timers startHeartbeat => apply startHeartbeat_keeps_timers
  | |- respects keeps_timers (assign (fun r => set_clients (Map_set _ _ _) r)) =>
      let w := fresh "w" in
      intros w (? & ? & ?); repeat split; cbn; auto;
      intros _; apply Map_set_nonempty
  | |- respects keeps_timers (assign _) =>
      let w := fresh "w" in
      intros w (? & ? & ?); repeat split; cbn; assumption
  | |- respects keeps_timers (host_do _) =>
      let w := fresh "w" in
      intros w (? & ? & ?); repeat split; cbn; assumption
  end.

Ltac unfold_callers :=
  unfold fetch, onSfuOpen, onSfuMessage, onSfuClose, onSfuError, heartbeat,
    connectFailed, broadcastStatusToClients, sendStatusToClient,
    fanOutToClients, deliver, viewer_send, new_WebSocketPair, new_WebSocket,
    now_iso, emit.

Lemma connectFailed_keeps_timers : respects keeps_timers connectFailed.
Proof. unfold_callers. respects_with timers_leaf. Qed.

(** [connectToSFU] also runs as the timer callback, when the host has
    already taken the fired timer off its list. *)
Lemma connectAttempt_timers w :
  h_intervals (host w) = opt_list (heartbeatInterval (this w)) ->
  (h_timeouts (host w) = opt_list (reconnectTimeout (this w))
   \/ h_timeouts (host w) = []) ->
  timers_owned (exec connectAttempt w).
Proof.
  intros HB HC.
  destruct w as [r h]. destruct r as [sid st conn cl cd rt hb flag url cur].
  destruct h as [br rej cn tmo itv nxt now lg]. cbn in HB, HC. subst itv.
  unfold connectAttempt, exec, new_WebSocket, clearTimeout, timers_owned.
  js_unfold.
  destruct rt as [t|]; cbn;
    match goal with |- context [rej ?u] => destruct (rej u) end; cbn;
    destruct HC as [HC|HC]; subst; cbn; rewrite ?without_self;
    repeat split; auto; congruence.
Qed.

Lemma connectToSFU_timers w :
  h_intervals (host w) = opt_list (heartbeatInterval (this w)) ->
  (h_timeouts (host w) = opt_list (reconnectTimeout (this w))
   \/ h_timeouts (host w) = []) ->
  timers_owned (exec connectToSFU w).
Proof.
  intros HB HC. pose proof (connectAttempt_timers w HB HC) as H.
  rewrite connectToSFU_unfold. unfold exec, try_catch in *.
  destruct (connectAttempt w) as [[[]|e] w1]; cbn [fst snd] in *; [exact H|].
  now apply connectFailed_keeps_timers.
Qed.

Lemma connectToSFU_keeps_timers : respects keeps_timers connectToSFU.
Proof. intros w (HB & HC & HD). apply connectToSFU_timers; auto. Qed.

Lemma step_keeps_timers e w w' : step e w = Some w' -> keeps_timers w w'.
Proof.
  pose proof connectToSFU_keeps_timers as HCo.
  destruct e; cbn [step]; intro Hs.
  - inversion Hs; subst. generalize w.
    change (respects keeps_timers (fetch request uuid dead)).
    unfold_callers. respects_with ltac:(first [exact HCo | timers_leaf]).
  - inversion Hs; subst. apply handleClientDisconnect_keeps_timers.
  - inversion Hs; subst. intros (? & ? & ?); repeat split; assumption.
  - destruct (conn_state c (host w)) as [[]|]; inversion Hs; subst.
    intro H. assert (H' : timers_owned (conn_becomes c OPEN w))
      by (destruct H as (? & ? & ?); repeat split; assumption).
    revert H'. generalize (conn_becomes c OPEN w).
    change (respects keeps_timers onSfuOpen).
    unfold_callers. respects_with timers_leaf.
  - destruct (conn_state c (host w)) as [[]|]; inversion Hs; subst.
    generalize w. change (respects keeps_timers (onSfuMessage data)).
    unfold_callers. respects_with timers_leaf.
  - assert (R : respects keeps_timers onSfuError)
      by (unfold_callers; respects_with timers_leaf).
    destruct (conn_state c (host w)) as [[]|]; inversion Hs; subst;
      intro H; apply R; destruct H as (? & ? & ?); repeat split; assumption.
  - assert (R : respects keeps_timers onSfuClose)
      by (unfold_callers; respects_with timers_leaf).
    destruct (conn_state c (host w)) as [[]|]; inversion Hs; subst;
      intro H; apply R; destruct H as (? & ? & ?); repeat split; assumption.
  - destruct (timer_live t (h_timeouts (host w))) eqn:L; inversion Hs; subst.
    intros (HB & HC & HD). apply connectToSFU_timers; cbn; [exact HB|].
    rewrite HC in *. destruct (reconnectTimeout (this w)) as [t'|]; cbn in *.
    + rewrite orb_false_r in L. apply Nat.eqb_eq in L. subst t'.
      right. apply without_self.
    + discriminate.
  - destruct (timer_live t (h_intervals (host w))); inversion Hs; subst.
    generalize w. change (respects keeps_timers heartbeat).
    unfold_callers. respects_with timers_leaf.
  - destruct (0 <=? ms)%Z; inversion Hs; subst.
    intros (? & ? & ?); repeat split; assumption.
Qed.

Lemma run_keeps_timers events w w' : run events w = Some w' -> keeps_timers w w'.
Proof. apply run_respects; [exact _ | apply step_keeps_timers]. Qed.

(** Whatever happens to a relay, it never holds two reconnect timers nor
    two heartbeat timers: the pending one-shot timers are exactly its
    reconnect handle, the running intervals exactly its heartbeat handle,
    and it holds a reconnect handle only while a viewer is registered. *)
Theorem timers_never_doubled (rejects : string -> bool) (now : Z)
    (state : DurableObjectId) (env : Env) (events : list Event) (w : World) :
  run events (boot rejects now state env) = Some w ->
  h_timeouts (host w) = opt_list (reconnectTimeout (this w))
  /\ h_intervals (host w) = opt_list (heartbeatInterval (this w))
  /\ (reconnectTimeout (this w) <> None -> clients (this w) <> []).
Proof.
  intro Hrun.
  assert (H0 : timers_owned (boot rejects now state env))
    by (repeat split; cbn; congruence).
  destruct (run_keeps_timers _ _ _ Hrun H0) as (HB & HC & HD). auto.
Qed.

(** Every upstream close or error handled while somebody is registered
    leaves a reconnect timer pending. *)
Lemma scheduleReconnect_arms w :
  clients (this w) <> [] ->
  reconnectTimeout (this (exec scheduleReconnect w)) <> None.
Proof.
  intro Hne. destruct w as [r h].
  destruct r as [sid st conn cl cd rt hb flag url cur]. cbn in Hne.
  unfold scheduleReconnect, setTimeout, exec. js_unfold. cbn.
  destruct cl as [|c0 cl]; [congruence|]. destruct rt; cbn; discriminate.
Qed.

(** C5, on the code. The listeners of an upstream socket stay attached
    after the relay has dropped it. The only viewer leaves (socket 1 is
    asked to close), a new viewer joins (socket 4 is opened), and then the
    close event of socket 1 arrives: the handler arms the reconnect timer 6
    although the attempt on socket 4 is pending. When socket 4 opens the
    timer is still armed while the relay is connected, and when it fires
    the relay opens socket 7 beside the open socket 4. *)
Lemma C5_stale_close_arms_timer :
  run [join "v1"; ViewerGone "v1"; join "v2"; UpstreamClose 1] sampleBoot
  = Some staleCloseWorld
  /\ clients (this staleCloseWorld) = [("v2", 3)]
  /\ isConnectedToSFU (this staleCloseWorld) = false
  /\ sfuConnection (this staleCloseWorld) = Some 4
  /\ conn_state 4 (host staleCloseWorld) = Some CONNECTING
  /\ reconnectTimeout (this staleCloseWorld) = Some 6
  /\ h_timeouts (host staleCloseWorld) = [6]
  /\ step (UpstreamOpen 4) staleCloseWorld = Some staleOpenWorld
  /\ isConnectedToSFU (this staleOpenWorld) = true
  /\ reconnectTimeout (this staleOpenWorld) = Some 6
  /\ h_timeouts (host staleOpenWorld) = [6]
  /\ step (ReconnectTimer 6) staleOpenWorld = Some doubleConnectWorld
  /\ h_conns (host doubleConnectWorld) = [(1, CLOSED); (4, OPEN); (7, CONNECTING)].
Proof.
  split; [vm_compute; reflexivity|].
  split; [vm_compute; reflexivity|].
  split; [vm_compute; reflexivity|].
  split; [vm_compute; reflexivity|].
  split; [vm_compute; reflexivity|].
  split; [vm_compute; reflexivity|].
  split; [vm_compute; reflexivity|].
  split; [vm_compute; reflexivity|].
  split; [vm_compute; reflexivity|].
  split; [vm_compute; reflexivity|].
  split; [vm_compute; reflexivity|].
  split; vm_compute; reflexivity.
Qed.

(** ** The heartbeat follows the registry *)

#[local] Instance settles_stable : Stable settles.
Proof.
  split.
  - intro w. right. right. auto.
  - intros a b c Hab Hbc. unfold settles in *.
    destruct Hbc as [[Hc Hh] | [(Hh & Hc & Hl) | (Hc & Hh)]].
    + left. auto.
    + destruct Hab as [[Hb Hhb] | [(Hhb & Hb & Hlb) | (Hb & Hhb)]].
      * rewrite Hb in Hl. destruct (clients (this c)); cbn in *; [congruence | lia].
      * right. left. repeat split; [congruence | assumption | lia].
      * right. left. repeat split; [congruence | assumption | rewrite <- Hb; lia].
    + destruct Hab as [[Hb Hhb] | [(Hhb & Hb & Hlb) | (Hb & Hhb)]].
      * left. split; congruence.
      * right. left. rewrite Hc, Hh. auto.
      * right. right. split; congruence.
Qed.

#[local] Instance same_viewers_stable : Stable same_viewers.
Proof.
  split; unfold same_viewers.
  - auto.
  - intros a b c (H1 & H2 & H3) (K1 & K2 & K3). repeat split; congruence.
Qed.

Lemma same_viewers_settles w w' : same_viewers w w' -> settles w w'.
Proof. intros (H1 & H2 & _). right. right. auto. Qed.

Lemma Map_delete_length k m : List.length (Map_delete k m) <= List.length m.
Proof. unfold Map_delete. apply filter_length_le. Qed.

Lemma teardown_result w :
  clients (this (exec teardown w)) = clients (this w)
  /\ heartbeatInterval (this (exec teardown w)) = None
  /\ reconnectTimeout (this (exec teardown w)) = None
  /\ sfuConnection (this (exec teardown w)) = None
  /\ isConnectedToSFU (this (exec teardown w)) = false
  /\ h_broken (host (exec teardown w)) = h_broken (host w).
Proof.
  destruct w as [r h]. destruct r as [sid st conn cl cd rt hb flag url cur].
  unfold teardown, exec, ws_close, clearTimeout, clearInterval. js_unfold.
  destruct conn, rt, hb; cbn; auto 10.
Qed.

Lemma handleClientDisconnect_settles clientId :
  respects settles (handleClientDisconnect clientId).
Proof.
  intro w. unfold exec.
  destruct (Map_delete clientId (clients (this w))) as [|e rest] eqn:E.
  - rewrite (handleClientDisconnect_last _ _ E). cbn [snd].
    destruct (teardown_result {| this := set_clients [] (this w); host := host w |})
      as (Hc & Hh & _). left. split; [rewrite Hc; reflexivity | exact Hh].
  - rewrite handleClientDisconnect_not_last by (rewrite E; discriminate).
    right. left. cbn. rewrite E. repeat split; try discriminate.
    rewrite <- E. apply Map_delete_length.
Qed.

Ltac settles_leaf :=
  idtac;
  match goal with
  | |- respects settles (handleClientDisconnect _) =>
      apply handleClientDisconnect_settles
  | |- respects settles (assign _) => intro; right; right; split; reflexivity
  | |- respects settles (host_do _) => intro; right; right; split; reflexivity
  end.

Ltac unfold_but_disconnect :=
  unfold connectToSFU, connectAttempt, connectFailed, onSfuOpen, onSfuMessage,
    onSfuClose, onSfuError, heartbeat, scheduleReconnect,
    broadcastStatusToClients, sendStatusToClient, fanOutToClients, deliver,
    viewer_send, new_WebSocket, setTimeout, clearTimeout, now_iso, emit.

Lemma sendStatusToClient_settles clientId message :
  respects settles (sendStatusToClient clientId message).
Proof. unfold_but_disconnect. respects_with settles_leaf. Qed.

Lemma connectToSFU_settles : respects settles connectToSFU.
Proof. unfold_but_disconnect. respects_with settles_leaf. Qed.

(** Every event but an upgrade request settles. *)
Lemma step_settles e w w' :
  (forall request uuid dead, e = Fetch request uuid dead -> is_upgrade request = false) ->
  step e w = Some w' -> settles w w'.
Proof.
  intros Hplain Hs.
  assert (After : forall (m : JSM unit) v v',
             this v' = this v -> respects settles m -> settles v (exec m v')).
  { intros m v v' Ht Hm. eapply stable_trans; [|apply Hm].
    right. right. now rewrite Ht. }
  destruct e; cbn [step] in Hs.
  - specialize (Hplain _ _ _ eq_refl). inversion Hs; subst.
    unfold fetch, exec. rewrite Hplain.
    destruct (req_pathname request =? "/health"); apply stable_refl.
  - inversion Hs; subst. apply handleClientDisconnect_settles.
  - inversion Hs; subst. right. right. auto.
  - destruct (conn_state c (host w)) as [[]|]; inversion Hs; subst.
    apply After; [reflexivity|]. unfold_but_disconnect. respects_with settles_leaf.
  - destruct (conn_state c (host w)) as [[]|]; inversion Hs; subst.
    generalize w. change (respects settles (onSfuMessage data)).
    unfold_but_disconnect. respects_with settles_leaf.
  - destruct (conn_state c (host w)) as [[]|]; inversion Hs; subst;
      (apply After; [reflexivity|]);
      unfold_but_disconnect; respects_with settles_leaf.
  - destruct (conn_state c (host w)) as [[]|]; inversion Hs; subst;
      (apply After; [reflexivity|]);
      unfold_but_disconnect; respects_with settles_leaf.
  - destruct (timer_live t (h_timeouts (host w))); inversion Hs; subst.
    apply After; [reflexivity | apply connectToSFU_settles].
  - destruct (timer_live t (h_intervals (host w))); inversion Hs; subst.
    generalize w. change (respects settles heartbeat).
    unfold_but_disconnect. respects_with settles_leaf.
  - destruct (0 <=? ms)%Z; inversion Hs; subst. right. right. auto.
Qed.

Lemma settles_keeps_armed w w' :
  settles w w' -> armed_iff_registered w -> armed_iff_registered w'.
Proof.
  unfold armed_iff_registered.
  intros [[Hc Hh] | [(Hh & Hc & Hl) | (Hc & Hh)]] Hw.
  - rewrite Hc, Hh. tauto.
  - rewrite Hh. split; [auto|]. intros _. apply Hw.
    destruct (clients (this w)); [|discriminate].
    destruct (clients (this w')); cbn in *; [congruence | lia].
  - now rewrite Hc, Hh.
Qed.

Lemma settles_keeps_handle w w' :
  settles w w' -> clients (this w') <> [] ->
  heartbeatInterval (this w') = heartbeatInterval (this w).
Proof. intros [[Hc Hh] | [(Hh & Hc & Hl) | (Hc & Hh)]] Hne; congruence. Qed.

Ltac same_leaf :=
  idtac;
  match goal with
  | |- respects same_viewers (assign _) => intro; repeat split; reflexivity
  | |- respects same_viewers (host_do _) => intro; repeat split; reflexivity
  end.

Lemma connectAttempt_same_viewers : respects same_viewers connectAttempt.
Proof.
  unfold connectAttempt, new_WebSocket, clearTimeout, emit.
  respects_with same_leaf.
Qed.

Lemma scheduleReconnect_same_viewers : respects same_viewers scheduleReconnect.
Proof. unfold scheduleReconnect, setTimeout, emit. respects_with same_leaf. Qed.

Lemma broadcastStatusToClients_spec message w :
  NoDup (map fst (clients (this w))) ->
  filter (healthy (host w)) (clients (this w)) <> [] ->
  broadcastStatusToClients message w
  = (Normal tt,
     {| this := set_clients (filter (healthy (host w)) (clients (this w))) (this w);
        host := set_log (h_log (host w)
                          ++ map (fun e => ClientSend (snd e) (statusFrame message w))
                                 (filter (healthy (host w)) (clients (this w))))%list
                        (host w) |}).
Proof.
  intros ND Hne.
  unfold broadcastStatusToClients, now_iso, bind, gets, platform. cbn [fst snd].
  apply (deliver_loop (statusFrame message w) (clients (this w)) [] w); auto.
Qed.

(** A broadcast to viewers whose transports all work removes nobody. *)
Lemma broadcastStatusToClients_same_viewers message w :
  NoDup (map fst (clients (this w))) ->
  (forall e, In e (clients (this w)) -> is_broken (snd e) (host w) = false) ->
  same_viewers w (exec (broadcastStatusToClients message) w).
Proof.
  intros ND Hok.
  assert (Hf : filter (healthy (host w)) (clients (this w)) = clients (this w)).
  { apply filter_keeps_all. intros e He. unfold healthy. now rewrite (Hok e He). }
  destruct (clients (this w)) as [|c0 cl] eqn:E.
  - unfold broadcastStatusToClients, now_iso, exec, bind, gets, platform.
    cbn [fst snd]. rewrite E. cbn. repeat split; auto.
  - unfold exec. rewrite broadcastStatusToClients_spec;
      rewrite ?E in *; rewrite ?Hf; try discriminate; auto.
    cbn. repeat split; auto.
Qed.

Lemma connectToSFU_same_viewers w :
  NoDup (map fst (clients (this w))) ->
  (forall e, In e (clients (this w)) -> is_broken (snd e) (host w) = false) ->
  same_viewers w (exec connectToSFU w).
Proof.
  intros ND Hok. pose proof (connectAttempt_same_viewers w) as HA.
  unfold connectToSFU, exec, try_catch in *.
  destruct (connectAttempt w) as [[[]|err] w1]; cbn [fst snd] in *; [exact HA|].
  destruct HA as (Hc & Hh & Hb).
  unfold connectFailed, bind, assign. cbn [fst snd].
  set (w2 := {| this := set_isConnectedToSFU false (this w1); host := host w1 |}).
  assert (H2 : same_viewers w w2) by (repeat split; cbn; assumption).
  assert (HB : same_viewers w2 (exec (broadcastStatusToClients "Failed to connect to SFU") w2)).
  { apply broadcastStatusToClients_same_viewers; cbn.
    - now rewrite Hc.
    - intros e He. rewrite Hc in He. unfold is_broken in *. rewrite Hb. now apply Hok. }
  unfold exec in HB.
  destruct (broadcastStatusToClients "Failed to connect to SFU" w2) as [[[]|err2] w3];
    cbn [fst snd] in *.
  - eapply stable_trans; [exact H2|]. eapply stable_trans; [exact HB|].
    apply scheduleReconnect_same_viewers.
  - eapply stable_trans; [exact H2 | exact HB].
Qed.

Lemma startHeartbeat_arms w :
  clients (this (exec startHeartbeat w)) = clients (this w)
  /\ heartbeatInterval (this (exec startHeartbeat w)) <> None.
Proof.
  destruct w as [r h]. destruct r as [sid st conn cl cd rt hb flag url cur].
  unfold startHeartbeat, setInterval, clearInterval, exec. js_unfold.
  destruct hb; cbn; split; auto; discriminate.
Qed.

Lemma bind_normal {A B : Type} (m : JSM A) (k : A -> JSM B) w a w' :
  m w = (Normal a, w') -> bind m k w = k a w'.
Proof. intro H. unfold bind. now rewrite H. Qed.

(** The first viewer: upstream connect, then the heartbeat is armed. *)
Lemma fetch_first_join request uuid w :
  is_upgrade request = true ->
  clients (this w) = [] ->
  is_broken (h_next (host w)) (host w) = false ->
  clients (this (exec (fetch request uuid false) w)) = [(uuid, h_next (host w))]
  /\ heartbeatInterval (this (exec (fetch request uuid false) w)) <> None.
Proof.
  intros Hup Hempty Hok.
  set (sock := h_next (host w)).
  set (w1 := {| this := set_clients [(uuid, sock)] (this w);
                host := set_next (S sock) (set_broken (h_broken (host w)) (host w)) |}).
  set (msg := "Connected to stream relay, state: "
                ++ id_toString (state_id (this w1)) ++ ". Waiting for media...").
  set (w2 := {| this := this w1;
                host := set_log (h_log (host w1)
                                  ++ [ClientSend sock (statusFrame msg w1)])%list
                          (host w1) |}).
  assert (E : exec (fetch request uuid false) w
              = exec startHeartbeat (exec connectToSFU w2)).
  { assert (E1 : sendStatusToClient uuid msg w1 = (Normal tt, w2)).
    { apply sendStatusToClient_delivers.
      - unfold Map_get. cbn. now rewrite String.eqb_refl.
      - exact Hok. }
    destruct (connectToSFU_never_throws w2) as [[] HN].
    unfold fetch, exec, outcome in *. rewrite Hup.
    rewrite (bind_normal _ _ w sock {| this := this w; host := host w1 |})
      by reflexivity.
    rewrite (bind_normal _ _ _ tt w1)
      by (unfold assign; cbn [this host]; rewrite Hempty; reflexivity).
    rewrite (bind_normal _ _ w1 (id_toString (state_id (this w1))) w1) by reflexivity.
    rewrite (bind_normal _ _ _ _ _ E1).
    rewrite (bind_normal _ _ w2 1 w2) by reflexivity.
    cbn [Nat.eqb]. unfold bind.
    destruct (connectToSFU w2) as [[[]|err] w3]; cbn [fst snd] in *; [|discriminate].
    destruct (startHeartbeat w3) as [[[]|err] w4]; reflexivity. }
  rewrite E.
  assert (S2 : same_viewers w2 (exec connectToSFU w2)).
  { apply connectToSFU_same_viewers; cbn.
    - repeat constructor. intros [].
    - intros e [He|[]]. subst e. exact Hok. }
  destruct S2 as (Hc & _).
  destruct (startHeartbeat_arms (exec connectToSFU w2)) as [Hc' Hh'].
  split; [rewrite Hc', Hc; reflexivity | exact Hh'].
Qed.

(** A later viewer: registered at the end, heartbeat untouched. *)
Lemma fetch_later_join request uuid w :
  is_upgrade request = true ->
  clients (this w) <> [] ->
  Map_has uuid (clients (this w)) = false ->
  is_broken (h_next (host w)) (host w) = false ->
  clients (this (exec (fetch request uuid false) w))
  = (clients (this w) ++ [(uuid, h_next (host w))])%list
  /\ heartbeatInterval (this (exec (fetch request uuid false) w))
     = heartbeatInterval (this w).
Proof.
  intros Hup Hne Hfresh Hok.
  destruct w as [r h]. destruct r as [sid st conn cl cd rt hb flag url cur].
  destruct h as [br rej cn tmo itv nxt now lg].
  cbn in Hne, Hfresh, Hok.
  unfold fetch, exec. rewrite Hup.
  unfold new_WebSocketPair, sendStatusToClient, now_iso, viewer_send.
  unfold bind, gets, assign, platform, host_do, ret, try_catch, emit. cbn.
  rewrite (Map_set_fresh _ _ _ Hfresh), (Map_get_last _ _ _ Hfresh).
  unfold is_broken in *. cbn in *. rewrite Hok. cbn.
  rewrite length_app. cbn.
  destruct cl as [|c0 cl]; [congruence|]. cbn.
  replace (List.length cl + 1 =? 0)%nat with false
    by (symmetry; apply Nat.eqb_neq; lia).
  destruct flag; cbn; [|auto].
  destruct cd as [[bytes|text]|]; cbn; rewrite ?Hok; cbn; auto.
  destruct (JS.truthy_string text); cbn; rewrite ?Hok; cbn; auto.
Qed.

Lemma step_clean_keeps_armed e w w' :
  armed_iff_registered w ->
  clean_join e w ->
  step e w = Some w' ->
  armed_iff_registered w'
  /\ (clients (this w) <> [] -> clients (this w') <> [] ->
      heartbeatInterval (this w') = heartbeatInterval (this w)).
Proof.
  intros Hw Hclean Hs.
  assert (Settled : settles w w' ->
            armed_iff_registered w'
            /\ (clients (this w) <> [] -> clients (this w') <> [] ->
                heartbeatInterval (this w') = heartbeatInterval (this w))).
  { intro H. split; [now apply (settles_keeps_armed w) |].
    intros _. now apply settles_keeps_handle. }
  destruct e as [request uuid dead| | | | | | | | |];
    try (apply Settled; eapply step_settles; [|exact Hs]; intros; discriminate).
  destruct (is_upgrade request) eqn:Hup.
  - cbn in Hclean. destruct (Hclean Hup) as (Hdead & Hfresh & Hok). subst dead.
    cbn [step] in Hs. inversion Hs; subst w'; clear Hs.
    assert (Hcase : clients (this w) = [] \/ clients (this w) <> [])
      by (destruct (clients (this w)); [left; reflexivity | right; discriminate]).
    destruct Hcase as [E|Hne].
    + destruct (fetch_first_join request uuid w Hup E Hok) as [Hc Hh].
      split; [|congruence]. unfold armed_iff_registered. rewrite Hc.
      split; [discriminate | auto].
    + destruct (fetch_later_join request uuid w Hup Hne Hfresh Hok) as [Hc Hh].
      split; [|auto]. unfold armed_iff_registered in *. rewrite Hc, Hh.
      split; [intros _ Hnil; now apply app_eq_nil in Hnil
             | intros _; apply Hw; exact Hne].
  - apply Settled. apply (step_settles _ _ _) in Hs; [exact Hs|].
    intros r u d Heq. inversion Heq; subst. exact Hup.
Qed.

Lemma run_clean_keeps_armed events : forall w w',
  armed_iff_registered w ->
  clean_run events w ->
  run events w = Some w' ->
  armed_iff_registered w'.
Proof.
  induction events as [|e rest IH]; cbn; intros w w' Hw Hclean Hrun.
  - inversion Hrun; subst. exact Hw.
  - destruct Hclean as [Hj Hrest].
    destruct (step e w) as [w1|] eqn:E; [|discriminate].
    apply (IH w1 w'); auto.
    now destruct (step_clean_keeps_armed e w w1 Hw Hj E).
Qed.

(** As long as every join is clean, the heartbeat follows the registry:
    before and after each event the heartbeat is armed exactly when
    somebody is registered, so it starts when the registry becomes
    non-empty and stops when it becomes empty; and while the registry stays
    non-empty across an event the handle is the same, that is, the
    heartbeat is not restarted. *)
Theorem heartbeat_follows_registry (rejects : string -> bool) (now : Z)
    (state : DurableObjectId) (env : Env) (events : list Event) (e : Event)
    (w w' : World) :
  clean_run events (boot rejects now state env) ->
  run events (boot rejects now state env) = Some w ->
  clean_join e w ->
  step e w = Some w' ->
  armed_iff_registered w
  /\ armed_iff_registered w'
  /\ h_intervals (host w') = opt_list (heartbeatInterval (this w'))
  /\ (clients (this w) <> [] -> clients (this w') <> [] ->
      heartbeatInterval (this w') = heartbeatInterval (this w)).
Proof.
  intros Hclean Hrun Hj Hs.
  assert (H0 : armed_iff_registered (boot rejects now state env))
    by (unfold armed_iff_registered; cbn; tauto).
  pose proof (run_clean_keeps_armed events _ _ H0 Hclean Hrun) as Hw.
  destruct (step_clean_keeps_armed e w w' Hw Hj Hs) as [Hw' Hsame].
  assert (T0 : timers_owned (boot rejects now state env))
    by (repeat split; cbn; congruence).
  pose proof (run_keeps_timers _ _ _ Hrun T0) as Tw.
  destruct (step_keeps_timers _ _ _ Hs Tw) as (HB & _).
  auto.
Qed.

Lemma heartbeat_follows_registry_witness :
  armed_iff_registered (world_after [join "v1"])
  /\ armed_iff_registered (world_after [join "v1"; join "v2"])
  /\ h_intervals (host (world_after [join "v1"; join "v2"]))
     = opt_list (heartbeatInterval (this (world_after [join "v1"; join "v2"])))
  /\ (clients (this (world_after [join "v1"])) <> [] ->
      clients (this (world_after [join "v1"; join "v2"])) <> [] ->
      heartbeatInterval (this (world_after [join "v1"; join "v2"]))
      = heartbeatInterval (this (world_after [join "v1"]))).
Proof.
  apply (heartbeat_follows_registry (fun _ => false) 1700000000123 sampleId
           {| SFU_SERVER_URL := None |} [join "v1"] (join "v2")).
  - cbn. repeat split; auto.
  - vm_compute. reflexivity.
  - cbn. intros _. repeat split; vm_compute; reflexivity.
  - vm_compute. reflexivity.
Defined.

Lemma timers_never_doubled_witness :
  h_timeouts (host staleCloseWorld) = opt_list (reconnectTimeout (this staleCloseWorld))
  /\ h_intervals (host staleCloseWorld)
     = opt_list (heartbeatInterval (this staleCloseWorld))
  /\ (reconnectTimeout (this staleCloseWorld) <> None ->
      clients (this staleCloseWorld) <> []).
Proof.
  apply (timers_never_doubled (fun _ => false) 1700000000123 sampleId
           {| SFU_SERVER_URL := None |}
           [join "v1"; ViewerGone "v1"; join "v2"; UpstreamClose 1]).
  vm_compute. reflexivity.
Defined.

(** C4, on the code. A second viewer whose first send throws is removed
    again by [sendStatusToClient]; the size test that follows sees one
    client and takes this for the first join: with the heartbeat armed
    (handle 2) and the upstream socket 1 open, the relay opens a second
    upstream socket without closing the first, clears the heartbeat and
    arms a new one (handle 5). The registry was non-empty before and after:
    the heartbeat was restarted by a join while armed. *)
Lemma C4_failed_join_restarts_heartbeat :
  run [join "v1"; UpstreamOpen 1] sampleBoot = Some connectedWorld
  /\ step failedJoin connectedWorld = Some afterFailedJoin
  /\ clients (this connectedWorld) = [("v1", 0)]
  /\ heartbeatInterval (this connectedWorld) = Some 2
  /\ clients (this afterFailedJoin) = [("v1", 0)]
  /\ heartbeatInterval (this afterFailedJoin) = Some 5
  /\ new_effects connectedWorld afterFailedJoin
     = [NewWebSocket "ws://127.0.0.1:5500/consume/alpha";
        ClearInterval 2; SetInterval 5 3000]
  /\ h_conns (host afterFailedJoin) = [(1, OPEN); (4, CONNECTING)].
Proof.
  split; [vm_compute; reflexivity|].
  split; [vm_compute; reflexivity|].
  split; [vm_compute; reflexivity|].
  split; [vm_compute; reflexivity|].
  split; [vm_compute; reflexivity|].
  split; [vm_compute; reflexivity|].
  split; vm_compute; reflexivity.
Qed.

(** The same slip with an upstream address the WebSocket constructor
    refuses and a first viewer whose transport has broken unnoticed: the
    failed join empties the registry inside [connectToSFU] and then arms the
    heartbeat, which is left running with nobody registered. *)
Lemma failed_join_arms_heartbeat_for_nobody :
  exists w,
    run [join "v1"; ViewerBreaks 0; failedJoin] misconfiguredBoot = Some w
    /\ clients (this w) = []
    /\ heartbeatInterval (this w) = Some 4
    /\ h_intervals (host w) = [4].
Proof.
  eexists. split; [vm_compute; reflexivity|].
  split; [reflexivity|]. split; reflexivity.
Qed.

(** ** Losing the upstream, losing the last viewer *)

#[local] Instance stays_disconnected_stable : Stable stays_disconnected.
Proof. split; unfold stays_disconnected; auto. Qed.

Ltac disconnected_leaf :=
  idtac;
  match goal with
  | |- respects stays_disconnected (assign _) =>
      let w := fresh "w" in intro w; unfold stays_disconnected; cbn; auto
  | |- respects stays_disconnected (host_do _) =>
      let w := fresh "w" in intro w; unfold stays_disconnected; cbn; auto
  end.

Lemma broadcastStatusToClients_stays_disconnected message :
  respects stays_disconnected (broadcastStatusToClients message).
Proof. unfold_methods. respects_with disconnected_leaf. Qed.

Lemma scheduleReconnect_stays_disconnected :
  respects stays_disconnected scheduleReconnect.
Proof. unfold_methods. respects_with disconnected_leaf. Qed.

Lemma upstream_lost w message :
  let w' := exec (assign (set_isConnectedToSFU false) ;;
                  broadcastStatusToClients message ;;
                  scheduleReconnect) w in
  isConnectedToSFU (this w') = false
  /\ (clients (this w') <> [] -> reconnectTimeout (this w') <> None).
Proof.
  cbn zeta. unfold exec, bind, assign. cbn [fst snd].
  set (w1 := {| this := set_isConnectedToSFU false (this w); host := host w |}).
  destruct (broadcastStatusToClients_never_throws message w1) as [[] HN].
  pose proof (broadcastStatusToClients_stays_disconnected message w1 eq_refl) as HF.
  unfold outcome, exec in *.
  destruct (broadcastStatusToClients message w1) as [[[]|err] w2];
    cbn [fst snd] in *; [|discriminate].
  destruct (scheduleReconnect_same_viewers w2) as (Hc & _).
  unfold exec in Hc. split.
  - now apply scheduleReconnect_stays_disconnected.
  - rewrite Hc. apply scheduleReconnect_arms.
Qed.

(** Losing the upstream: after the close listener or the error listener
    has run, the connected flag is down, and if anybody is still registered
    a reconnect timer is pending. *)
Theorem upstream_loss_schedules_reconnect (w : World) :
  (isConnectedToSFU (this (exec onSfuClose w)) = false
   /\ (clients (this (exec onSfuClose w)) <> [] ->
       reconnectTimeout (this (exec onSfuClose w)) <> None))
  /\ (isConnectedToSFU (this (exec onSfuError w)) = false
      /\ (clients (this (exec onSfuError w)) <> [] ->
          reconnectTimeout (this (exec onSfuError w)) <> None)).
Proof.
  split.
  - apply (upstream_lost w "Disconnected from SFU, attempting to reconnect...").
  - apply (upstream_lost w "Error connecting to SFU").
Qed.

(** When the last viewer leaves, the relay closes the upstream socket it
    holds, resets the connected flag, and drops both timer handles; with
    the timers owned as they always are, no timer is left in the host. *)
Theorem last_viewer_leaving_tears_down (clientId : string) (w : World) :
  Map_delete clientId (clients (this w)) = [] ->
  clients (this (exec (handleClientDisconnect clientId) w)) = []
  /\ sfuConnection (this (exec (handleClientDisconnect clientId) w)) = None
  /\ isConnectedToSFU (this (exec (handleClientDisconnect clientId) w)) = false
  /\ reconnectTimeout (this (exec (handleClientDisconnect clientId) w)) = None
  /\ heartbeatInterval (this (exec (handleClientDisconnect clientId) w)) = None
  /\ (forall c, sfuConnection (this w) = Some c ->
        In (SfuClose c) (new_effects w (exec (handleClientDisconnect clientId) w)))
  /\ (timers_owned w ->
      h_timeouts (host (exec (handleClientDisconnect clientId) w)) = []
      /\ h_intervals (host (exec (handleClientDisconnect clientId) w)) = []).
Proof.
  intro Hlast. unfold exec, new_effects.
  rewrite (handleClientDisconnect_last _ _ Hlast). cbn [snd].
  destruct w as [r h]. destruct r as [sid st conn cl cd rt hb flag url cur].
  destruct h as [br rej cn tmo itv nxt now lg].
  unfold teardown, exec, ws_close, clearTimeout, clearInterval, timers_owned.
  js_unfold.
  destruct conn, rt, hb; cbn;
    repeat (split; [reflexivity|]);
    (split; [intros c' Hc'; inversion Hc'; subst;
             rewrite <- ?app_assoc, skipn_app, skipn_all, Nat.sub_diag;
             cbn; auto
            | intros (HB & HC & _); subst; cbn; rewrite ?without_self; auto]).
Qed.

Lemma last_viewer_leaving_tears_down_witness :
  clients (this (exec (handleClientDisconnect "v1") connectedWorld)) = []
  /\ sfuConnection (this (exec (handleClientDisconnect "v1") connectedWorld)) = None
  /\ isConnectedToSFU (this (exec (handleClientDisconnect "v1") connectedWorld)) = false
  /\ reconnectTimeout (this (exec (handleClientDisconnect "v1") connectedWorld)) = None
  /\ heartbeatInterval (this (exec (handleClientDisconnect "v1") connectedWorld)) = None
  /\ (forall c, sfuConnection (this connectedWorld) = Some c ->
        In (SfuClose c)
           (new_effects connectedWorld
              (exec (handleClientDisconnect "v1") connectedWorld)))
  /\ (timers_owned connectedWorld ->
      h_timeouts (host (exec (handleClientDisconnect "v1") connectedWorld)) = []
      /\ h_intervals (host (exec (handleClientDisconnect "v1") connectedWorld)) = []).
Proof.
  apply (last_viewer_leaving_tears_down "v1" connectedWorld).
  vm_compute. reflexivity.
Defined.

(* ===================================================================== *)
(** * Further properties of the relay *)
(* ===================================================================== *)

(** ** A broadcast, whoever is registered *)

Lemma filter_nil_cons {A : Type} (f : A -> bool) a l :
  filter f (a :: l) = [] -> f a = false /\ filter f l = [].
Proof. cbn. destruct (f a); [discriminate | auto]. Qed.

Lemma Map_delete_head k s rest :
  NoDup (map fst ((k, s) :: rest)) -> Map_delete k ((k, s) :: rest) = rest.
Proof. intro ND. apply (Map_delete_middle k s [] rest ND). Qed.

(** The loop when every send fails: the last removal tears the relay
    down. *)
Lemma deliver_loop_none payload : forall rest w,
  rest <> [] ->
  clients (this w) = rest ->
  NoDup (map fst rest) ->
  filter (healthy (host w)) rest = [] ->
  for_of_entries rest (deliver payload) w
  = (Normal tt, exec teardown {| this := set_clients [] (this w); host := host w |}).
Proof.
  induction rest as [|[k s] rest IH]; intros w Hne Hc ND Hf; [congruence|].
  apply filter_nil_cons in Hf. destruct Hf as [Hh Hf].
  unfold healthy in Hh. cbn [snd] in Hh. apply negb_false_iff in Hh.
  assert (Hlive : Map_has k (clients (this w)) = true).
  { rewrite Hc. cbn. now rewrite String.eqb_refl. }
  cbn [for_of_entries].
  unfold bind at 1. unfold gets at 1. cbn [fst snd]. rewrite Hlive.
  unfold bind at 1. unfold deliver at 1. unfold try_catch.
  rewrite (viewer_send_broken _ _ _ Hh).
  assert (Hdel : Map_delete k (clients (this w)) = rest)
    by (rewrite Hc; now apply Map_delete_head).
  destruct rest as [|e rest].
  - rewrite handleClientDisconnect_last by exact Hdel. reflexivity.
  - rewrite handleClientDisconnect_not_last by (rewrite Hdel; discriminate).
    rewrite Hdel. rewrite IH.
    + reflexivity.
    + discriminate.
    + reflexivity.
    + cbn in ND. now inversion ND.
    + exact Hf.
Qed.

Lemma sweep_loop payload w :
  keys_unique w ->
  for_of_entries (clients (this w)) (deliver payload) w = (Normal tt, sweep payload w).
Proof.
  intro ND. unfold sweep.
  destruct (alive w) as [|a al] eqn:Ea.
  - destruct (clients (this w)) as [|c cl] eqn:Ec.
    + cbn. unfold ret. destruct w as [r h]. destruct r, h. cbn in *. subst.
      now rewrite app_nil_r.
    + rewrite <- Ec in *. apply deliver_loop_none; auto. rewrite Ec. discriminate.
  - assert (E : for_of_entries (clients (this w)) (deliver payload) w
                = (Normal tt,
                   {| this := set_clients (alive w) (this w);
                      host := set_log (h_log (host w)
                                        ++ map (fun e => ClientSend (snd e) payload)
                                               (alive w))%list (host w) |})).
    { apply (deliver_loop payload (clients (this w)) [] w); auto.
      cbn. fold (alive w). rewrite Ea. discriminate. }
    rewrite E, Ea. destruct (clients (this w)); reflexivity.
Qed.

Lemma fanOutToClients_sweep data w :
  keys_unique w -> fanOutToClients data w = (Normal tt, sweep data w).
Proof.
  intro ND. unfold fanOutToClients, bind, gets. cbn [fst snd]. now apply sweep_loop.
Qed.

Lemma broadcastStatusToClients_sweep message w :
  keys_unique w ->
  broadcastStatusToClients message w = (Normal tt, sweep (statusFrame message w) w).
Proof.
  intro ND. unfold broadcastStatusToClients, now_iso, bind, gets, platform.
  cbn [fst snd]. now apply (sweep_loop (statusFrame message w)).
Qed.

(** For any number of registered viewers, one fan-out never throws, leaves
    exactly the viewers whose transport works in the registry, and has sent
    the frame once to each of them, in registry order, touching nothing
    else; and when the send fails for every registered viewer, the relay is
    torn down as when the last viewer leaves. *)
Theorem fan_out_any_registry (data : Payload) (w : World) :
  keys_unique w ->
  outcome (fanOutToClients data) w = Normal tt
  /\ clients (this (exec (fanOutToClients data) w)) = alive w
  /\ (alive w <> [] ->
      exec (fanOutToClients data) w
      = {| this := set_clients (alive w) (this w);
           host := set_log (h_log (host w)
                             ++ map (fun e => ClientSend (snd e) data) (alive w))%list
                           (host w) |})
  /\ (alive w = [] -> clients (this w) <> [] ->
      exec (fanOutToClients data) w
      = exec teardown {| this := set_clients [] (this w); host := host w |}).
Proof.
  intro ND. unfold outcome, exec at 1 2 3. rewrite (fanOutToClients_sweep data w ND).
  cbn [fst snd]. unfold sweep.
  destruct (alive w) as [|a al] eqn:Ea.
  - destruct (clients (this w)) as [|c cl] eqn:Ec.
    + repeat split; auto; congruence.
    + split; [reflexivity|]. split.
      * now destruct (teardown_result {| this := set_clients [] (this w); host := host w |})
          as [Hc _].
      * split; [congruence | reflexivity].
  - split; [reflexivity|]. split; [reflexivity|].
    split; [reflexivity | discriminate].
Qed.

Lemma fan_out_any_registry_witness :
  outcome (fanOutToClients mediaFrame) threeViewers = Normal tt
  /\ clients (this (exec (fanOutToClients mediaFrame) threeViewers)) = alive threeViewers
  /\ (alive threeViewers <> [] ->
      exec (fanOutToClients mediaFrame) threeViewers
      = {| this := set_clients (alive threeViewers) (this threeViewers);
           host := set_log (h_log (host threeViewers)
                             ++ map (fun e => ClientSend (snd e) mediaFrame)
                                    (alive threeViewers))%list
                           (host threeViewers) |})
  /\ (alive threeViewers = [] -> clients (this threeViewers) <> [] ->
      exec (fanOutToClients mediaFrame) threeViewers
      = exec teardown {| this := set_clients [] (this threeViewers);
                         host := host threeViewers |}).
Proof.
  apply (fan_out_any_registry mediaFrame threeViewers).
  unfold keys_unique. cbn. repeat constructor; cbn; intuition discriminate.
Defined.

(** ** What the handlers may do to the registry and to the viewers *)

#[local] Instance backstage_stable : Stable backstage.
Proof.
  split.
  - intro w. repeat split; auto. exists []. split; [now rewrite app_nil_r | intros s d []].
  - intros a b c (Hc & Hb & Hn & d1 & Hl1 & Hs1) (Hc' & Hb' & Hn' & d2 & Hl2 & Hs2).
    repeat split; try congruence; try lia.
    exists (d1 ++ d2)%list. split; [now rewrite Hl2, Hl1, app_assoc|].
    intros s d Hin. apply in_app_or in Hin. destruct Hin; [eapply Hs1 | eapply Hs2]; eauto.
Qed.

Lemma filter_true {A : Type} (l : list A) : filter (fun _ => true) l = l.
Proof. induction l; cbn; congruence. Qed.

Lemma filter_filter {A : Type} (f g : A -> bool) (l : list A) :
  filter g (filter f l) = filter (fun x => f x && g x) l.
Proof.
  induction l as [|a l IH]; cbn; [reflexivity|].
  destruct (f a); cbn; [destruct (g a); cbn; congruence | exact IH].
Qed.

Lemma filter_keys_unique (f : string * Socket -> bool) m :
  NoDup (map fst m) -> NoDup (map fst (filter f m)).
Proof.
  induction m as [|e m IH]; cbn; intro ND; [constructor|].
  inversion ND as [|x l Hnot ND']; subst.
  destruct (f e); cbn; [|auto].
  constructor; [|auto]. intro Hin. apply Hnot.
  apply in_map_iff in Hin. destruct Hin as [e' [He' Hin]].
  apply filter_In in Hin. apply in_map_iff. exists e'. tauto.
Qed.

#[local] Instance shrinks_stable : Stable shrinks.
Proof.
  split.
  - intros w _. repeat split; auto.
    + exists (fun _ => true). split; [now rewrite filter_true | auto].
    + exists []. split; [now rewrite app_nil_r | intros s d []].
  - intros a b c Hab Hbc ND.
    destruct (Hab ND) as (Hb & Hn & (f & Hf & Hfk) & d1 & Hl1 & Hs1).
    assert (NDb : keys_unique b)
      by (unfold keys_unique; rewrite Hf; now apply filter_keys_unique).
    destruct (Hbc NDb) as (Hb' & Hn' & (g & Hg & Hgk) & d2 & Hl2 & Hs2).
    assert (Hsub : forall s, In s (sockets b) -> In s (sockets a)).
    { unfold sockets. rewrite Hf. intros s Hin. apply in_map_iff in Hin.
      destruct Hin as [e [He Hin]]. apply filter_In in Hin.
      apply in_map_iff. exists e. tauto. }
    split; [congruence|]. split; [lia|]. split.
    + exists (fun e => f e && g e). split; [now rewrite Hg, Hf, filter_filter|].
      intros e Hin Hh. rewrite (Hfk e Hin Hh). cbn. apply Hgk.
      * rewrite Hf. apply filter_In. auto.
      * unfold healthy, is_broken in *. now rewrite Hb.
    + exists (d1 ++ d2)%list. split; [now rewrite Hl2, Hl1, app_assoc|].
      intros s d Hin. apply in_app_or in Hin. destruct Hin as [Hin|Hin].
      * now apply Hs1.
      * destruct (Hs2 s d Hin). auto.
Qed.

Lemma backstage_shrinks w w' : backstage w w' -> shrinks w w'.
Proof.
  intros (Hc & Hb & Hn & d & Hl & Hs) _. repeat split; auto.
  - exists (fun _ => true). split; [now rewrite filter_true | auto].
  - exists d. split; [exact Hl|]. intros s p Hin. now apply Hs in Hin.
Qed.

Ltac backstage_leaf :=
  idtac;
  match goal with
  | |- respects backstage (assign _) =>
      let w := fresh "w" in
      intro w; split; [reflexivity|]; split; [reflexivity|]; split; [cbn; lia|];
      exists []; split; [cbn; now rewrite app_nil_r | intros ? ? []]
  end.

Ltac backstage_split :=
  split; [reflexivity|]; split; [reflexivity|]; split; [cbn; lia|].

Lemma emit_backstage e :
  (forall s d, e <> ClientSend s d) -> respects backstage (emit e).
Proof.
  intros He w. split; [reflexivity|]. split; [reflexivity|]. split; [cbn; lia|].
  exists [e]. split; [reflexivity|]. intros s d [H|[]]. now apply (He s d).
Qed.

Lemma setTimeout_backstage delay : respects backstage (setTimeout delay).
Proof.
  intro w. unfold setTimeout, exec. js_unfold. cbn.
  backstage_split. exists [SetTimeout (h_next (host w)) delay].
  split; [reflexivity | intros s d [H|[]]; discriminate].
Qed.

Lemma setInterval_backstage delay : respects backstage (setInterval delay).
Proof.
  intro w. unfold setInterval, exec. js_unfold. cbn.
  backstage_split. exists [SetInterval (h_next (host w)) delay].
  split; [reflexivity | intros s d [H|[]]; discriminate].
Qed.

Lemma clearTimeout_backstage t : respects backstage (clearTimeout t).
Proof.
  intro w. unfold clearTimeout, exec. js_unfold. cbn.
  backstage_split. exists [ClearTimeout t].
  split; [reflexivity | intros s d [H|[]]; discriminate].
Qed.

Lemma clearInterval_backstage t : respects backstage (clearInterval t).
Proof.
  intro w. unfold clearInterval, exec. js_unfold. cbn.
  backstage_split. exists [ClearInterval t].
  split; [reflexivity | intros s d [H|[]]; discriminate].
Qed.

Lemma ws_close_backstage c : respects backstage (ws_close c).
Proof.
  intro w. unfold ws_close, exec. js_unfold. cbn.
  backstage_split. exists [SfuClose c].
  split; [reflexivity | intros s d [H|[]]; discriminate].
Qed.

Lemma new_WebSocket_backstage url : respects backstage (new_WebSocket url).
Proof.
  intro w. unfold new_WebSocket, exec. js_unfold. cbn.
  destruct (h_rejects (host w) url); cbn; backstage_split;
    exists [NewWebSocket url];
    (split; [reflexivity | intros s d [H|[]]; discriminate]).
Qed.

Ltac backstage_tac :=
  respects_with
    ltac:(first [ apply setTimeout_backstage | apply setInterval_backstage
                | apply clearTimeout_backstage | apply clearInterval_backstage
                | apply ws_close_backstage | apply new_WebSocket_backstage
                | backstage_leaf ]).

Lemma teardown_backstage : respects backstage teardown.
Proof. unfold teardown. backstage_tac. Qed.

Lemma scheduleReconnect_backstage : respects backstage scheduleReconnect.
Proof. unfold scheduleReconnect. backstage_tac. Qed.

Lemma startHeartbeat_backstage : respects backstage startHeartbeat.
Proof. unfold startHeartbeat. backstage_tac. Qed.

Lemma connectAttempt_backstage : respects backstage connectAttempt.
Proof. unfold connectAttempt. backstage_tac. Qed.

Lemma sent_to_app sock a b :
  sent_to sock (a ++ b)%list = (sent_to sock a ++ sent_to sock b)%list.
Proof.
  induction a as [|e a IH]; cbn; [reflexivity|].
  destruct e; auto. destruct (Nat.eqb sock0 sock); [|exact IH].
  now rewrite IH.
Qed.

Lemma sent_to_In sock d log : In d (sent_to sock log) <-> In (ClientSend sock d) log.
Proof.
  induction log as [|e log IH]; cbn; [tauto|].
  destruct e; try (rewrite IH; split; [auto | intros [H|H]; [discriminate | auto]]).
  destruct (Nat.eqb sock0 sock) eqn:E.
  - apply Nat.eqb_eq in E. subst. cbn. rewrite IH. split.
    + intros [H|H]; [left; congruence | auto].
    + intros [H|H]; [left; congruence | auto].
  - apply Nat.eqb_neq in E. rewrite IH. split; [auto|].
    intros [H|H]; [inversion H; congruence | auto].
Qed.

Lemma sent_to_none sock log :
  (forall d, ~ In (ClientSend sock d) log) -> sent_to sock log = [].
Proof.
  intro H. destruct (sent_to sock log) as [|d l] eqn:E; [reflexivity|].
  exfalso. apply (H d). apply sent_to_In. rewrite E. now left.
Qed.

Lemma sent_to_broadcast sock payload entries :
  sent_to sock (map (fun e : string * Socket => ClientSend (snd e) payload) entries)
  = map (fun _ : string * Socket => payload) (filter (fun e : string * Socket => Nat.eqb (snd e) sock) entries).
Proof.
  induction entries as [|e entries IH]; [reflexivity|].
  cbn [map filter sent_to]. cbn beta.
  destruct (Nat.eqb (snd e) sock); [|exact IH].
  cbn [map]. now rewrite IH.
Qed.

(** What a broadcast loop does, seen from one socket. *)
Lemma sweep_facts payload w :
  h_broken (host (sweep payload w)) = h_broken (host w)
  /\ h_next (host w) <= h_next (host (sweep payload w))
  /\ clients (this (sweep payload w)) = alive w
  /\ exists delta,
       h_log (host (sweep payload w)) = (h_log (host w) ++ delta)%list
       /\ (forall s d, In (ClientSend s d) delta ->
             d = payload /\ In s (map snd (alive w)))
       /\ forall sock,
            sent_to sock delta
            = map (fun _ : string * Socket => payload) (filter (fun e : string * Socket => Nat.eqb (snd e) sock) (alive w)).
Proof.
  unfold sweep.
  set (w0 := {| this := set_clients [] (this w); host := host w |}).
  destruct (teardown_backstage w0) as (Hc & Hb & Hn & d & Hl & Hs).
  destruct (alive w) as [|a al] eqn:Ea.
  - destruct (clients (this w)) as [|c cl] eqn:Ec.
    + cbn. split; [reflexivity|]. split; [lia|]. split; [reflexivity|].
      exists []. split; [reflexivity|]. split; [intros s p [] | reflexivity].
    + split; [exact Hb|]. split; [exact Hn|]. split; [exact Hc|].
      exists d. split; [exact Hl|]. split.
      * intros s p Hin. now apply Hs in Hin.
      * intro sock. cbn. apply sent_to_none. intros p Hin. now apply Hs in Hin.
  - cbn [this host]. cbn.
    split; [reflexivity|]. split; [lia|]. split; [reflexivity|].
    exists (map (fun e : string * Socket => ClientSend (snd e) payload) (a :: al)).
    split; [reflexivity|]. split.
    + intros s p Hin. apply in_map_iff in Hin. destruct Hin as [e [He Hin]].
      inversion He; subst. split; [reflexivity|].
      change (In (snd e) (map snd (a :: al))). now apply in_map.
    + intro sock. apply sent_to_broadcast.
Qed.

Lemma broadcastStatusToClients_shrinks message :
  respects shrinks (broadcastStatusToClients message).
Proof.
  intros w ND. unfold exec. rewrite (broadcastStatusToClients_sweep message w ND).
  cbn [snd].
  destruct (sweep_facts (statusFrame message w) w) as (Hb & Hn & Hc & d & Hl & Hs & _).
  split; [exact Hb|]. split; [exact Hn|]. split.
  - exists (healthy (host w)). split; [exact Hc | auto].
  - exists d. split; [exact Hl|]. intros s p Hin. destruct (Hs s p Hin) as [Hp Hin'].
    subst p. split; [|reflexivity]. unfold sockets, alive in *.
    apply in_map_iff in Hin'. destruct Hin' as [e [He Hin']].
    apply filter_In in Hin'. apply in_map_iff. exists e. tauto.
Qed.

Lemma respects_backstage_shrinks {A : Type} (m : JSM A) :
  respects backstage m -> respects shrinks m.
Proof. intros H w. apply backstage_shrinks, H. Qed.

Ltac shrinks_leaf :=
  idtac;
  match goal with
  | |- respects shrinks (broadcastStatusToClients _) =>
      apply broadcastStatusToClients_shrinks
  | |- respects shrinks scheduleReconnect =>
      apply respects_backstage_shrinks, scheduleReconnect_backstage
  | |- respects shrinks startHeartbeat =>
      apply respects_backstage_shrinks, startHeartbeat_backstage
  | |- respects shrinks connectAttempt =>
      apply respects_backstage_shrinks, connectAttempt_backstage
  | |- respects shrinks (assign _) =>
      apply respects_backstage_shrinks; backstage_leaf
  end.

Lemma connectToSFU_shrinks : respects shrinks connectToSFU.
Proof. unfold connectToSFU, connectFailed. respects_with shrinks_leaf. Qed.

Lemma onSfuOpen_shrinks : respects shrinks onSfuOpen.
Proof. unfold onSfuOpen. respects_with shrinks_leaf. Qed.

Lemma onSfuClose_shrinks : respects shrinks onSfuClose.
Proof. unfold onSfuClose. respects_with shrinks_leaf. Qed.

Lemma onSfuError_shrinks : respects shrinks onSfuError.
Proof. unfold onSfuError. respects_with shrinks_leaf. Qed.

Lemma heartbeat_shrinks : respects shrinks heartbeat.
Proof. unfold heartbeat. respects_with shrinks_leaf. Qed.

Lemma Map_get_In k v m : Map_get k m = Some v -> In (k, v) m.
Proof.
  unfold Map_get. destruct (find _ m) as [e|] eqn:E; [|discriminate].
  intro H. inversion H; subst. apply find_some in E. destruct E as [Hin He].
  apply String.eqb_eq in He. subst. now destruct e.
Qed.

Lemma NoDup_keys_In (k : string) (v v' : Socket) (m : list (string * Socket)) :
  NoDup (map fst m) -> In (k, v) m -> In (k, v') m -> v = v'.
Proof.
  induction m as [|e m IH]; cbn; intros ND H1 H2; [contradiction|].
  inversion ND as [|x l Hnot ND']; subst.
  destruct H1 as [H1|H1], H2 as [H2|H2]; subst.
  - congruence.
  - exfalso. apply Hnot. cbn. apply in_map_iff. now exists (k, v').
  - exfalso. apply Hnot. cbn. apply in_map_iff. now exists (k, v).
  - auto.
Qed.

(** The one removal [sendStatusToClient] can make is of the viewer whose
    send just threw. *)
Lemma sendStatusToClient_shrinks clientId message :
  respects shrinks (sendStatusToClient clientId message).
Proof.
  intros w ND. unfold exec.
  destruct (Map_get clientId (clients (this w))) as [client|] eqn:Hget.
  2:{ unfold sendStatusToClient, bind, gets. cbn [fst snd]. rewrite Hget.
      now apply (stable_refl (P := shrinks)). }
  pose proof (Map_get_In _ _ _ Hget) as Hin.
  destruct (is_broken client (host w)) eqn:Hbr.
  - assert (E : sendStatusToClient clientId message w = handleClientDisconnect clientId w).
    { unfold sendStatusToClient, now_iso, bind, gets, platform, try_catch.
      cbn [fst snd]. rewrite Hget. now rewrite viewer_send_broken. }
    rewrite E.
    assert (Hkeep : forall e, In e (clients (this w)) -> healthy (host w) e = true ->
                      negb (fst e =? clientId) = true).
    { intros [k s] He Hh. cbn. apply negb_true_iff. apply String.eqb_neq. intro Hk.
      subst k. assert (s = client) by (eapply NoDup_keys_In; eauto). subst s.
      unfold healthy in Hh. cbn in Hh. rewrite Hbr in Hh. discriminate. }
    destruct (Map_delete clientId (clients (this w))) as [|e rest] eqn:Ed.
    + rewrite (handleClientDisconnect_last _ _ Ed). cbn [snd].
      set (w0 := {| this := set_clients [] (this w); host := host w |}).
      destruct (teardown_backstage w0) as (Hc & Hb & Hn & d & Hl & Hs).
      split; [exact Hb|]. split; [exact Hn|]. split.
      * exists (fun e => negb (fst e =? clientId)). split; [|exact Hkeep].
        rewrite Hc. cbn. symmetry. exact Ed.
      * exists d. split; [exact Hl|]. intros s p Hs'. now apply Hs in Hs'.
    + rewrite handleClientDisconnect_not_last by (rewrite Ed; discriminate).
      cbn [snd this host]. split; [reflexivity|]. split; [cbn; lia|]. split.
      * exists (fun e => negb (fst e =? clientId)). split; [reflexivity | exact Hkeep].
      * exists []. split; [now rewrite app_nil_r | intros s p []].
  - rewrite (sendStatusToClient_delivers _ _ _ _ Hget Hbr). cbn [snd this host].
    split; [reflexivity|]. split; [cbn; lia|]. split.
    + exists (fun _ => true). split; [now rewrite filter_true | auto].
    + exists [ClientSend client (statusFrame message w)]. split; [reflexivity|].
      intros s p [H|[]]. inversion H; subst. split; [|reflexivity].
      unfold sockets. apply in_map_iff. now exists (clientId, s).
Qed.

Lemma sendStatusToClient_never_throws clientId message :
  never_throws (sendStatusToClient clientId message).
Proof.
  pose proof handleClientDisconnect_never_throws.
  unfold sendStatusToClient, now_iso. never_throws_tac; auto.
Qed.

Lemma startHeartbeat_never_throws : never_throws startHeartbeat.
Proof. unfold startHeartbeat, setInterval, clearInterval, emit. never_throws_tac. Qed.

Lemma fetch_upgrade_unfold request uuid dead w :
  is_upgrade request = true ->
  fetch request uuid dead w = join_rest uuid (h_next (host w)) (joined uuid dead w).
Proof. intro Hup. unfold fetch. rewrite Hup. reflexivity. Qed.

Lemma fetch_plain request uuid dead w :
  is_upgrade request = false -> exec (fetch request uuid dead) w = w.
Proof.
  intro Hup. unfold fetch, exec. rewrite Hup.
  destruct (req_pathname request =? "/health"); reflexivity.
Qed.

(** After the initial status, [fetch] either takes the first-join branch
    or replays the cached frame to the new socket. *)
Lemma join_tail_effect server w :
  exists w2, shrinks w w2 /\ replays server w2 (exec (join_tail server) w).
Proof.
  unfold join_tail, exec.
  rewrite (bind_normal _ _ w (Map_size (clients (this w))) w) by reflexivity.
  destruct (Nat.eqb (Map_size (clients (this w))) 1).
  - destruct (connectToSFU_never_throws w) as [[] HC].
    pose proof (connectToSFU_shrinks w) as S2.
    unfold outcome, exec in HC, S2. unfold bind.
    destruct (connectToSFU w) as [[[]|err] w2] eqn:E2; cbn [fst snd] in HC, S2;
      [|discriminate].
    destruct (startHeartbeat_never_throws w2) as [[] HH].
    pose proof (startHeartbeat_backstage w2) as S3.
    unfold outcome, exec in HH, S3.
    destruct (startHeartbeat w2) as [[[]|err] w3] eqn:E3; cbn [fst snd] in HH, S3;
      [|discriminate].
    cbn [snd]. exists w3. split; [|now left].
    eapply stable_trans; [exact S2|]. now apply backstage_shrinks.
  - exists w. split; [apply stable_refl|].
    unfold bind, gets, ret. cbn [fst snd].
    destruct (isConnectedToSFU (this w) && truthy (codecDescription (this w)));
      [|now left].
    destruct (codecDescription (this w)) as [frame|]; [|now left].
    destruct (is_broken server (host w)) eqn:Hbr.
    + rewrite viewer_send_broken by exact Hbr. now left.
    + rewrite viewer_send_ok by exact Hbr. cbn [snd]. right. now exists frame.
Qed.

Lemma join_rest_effect uuid server w :
  exists w2, shrinks w w2 /\ replays server w2 (exec (join_rest uuid server) w).
Proof.
  unfold join_rest, exec.
  rewrite (bind_normal _ _ w (id_toString (state_id (this w))) w) by reflexivity.
  set (msg := ("Connected to stream relay, state: "
                 ++ id_toString (state_id (this w)) ++ ". Waiting for media...")).
  destruct (sendStatusToClient_never_throws uuid msg w) as [[] HN].
  pose proof (sendStatusToClient_shrinks uuid msg w) as S1.
  unfold outcome, exec in HN, S1.
  destruct (sendStatusToClient uuid msg w) as [[[]|err] w1] eqn:E1;
    cbn [fst snd] in HN, S1; [|discriminate].
  rewrite (bind_normal _ _ _ _ _ E1).
  destruct (join_tail_effect server w1) as (w2 & S2 & R).
  exists w2. split; [|exact R]. intro ND. apply (stable_trans (P := shrinks) w w1 w2); auto.
Qed.

Lemma fetch_upgrade_effect request uuid dead w :
  is_upgrade request = true ->
  exists w2,
    shrinks (joined uuid dead w) w2
    /\ replays (h_next (host w)) w2 (exec (fetch request uuid dead) w).
Proof.
  intro Hup. unfold exec. rewrite (fetch_upgrade_unfold _ _ _ _ Hup).
  apply join_rest_effect.
Qed.

Lemma handleClientDisconnect_effect clientId w :
  backstage {| this := set_clients (Map_delete clientId (clients (this w))) (this w);
               host := host w |}
            (exec (handleClientDisconnect clientId) w).
Proof.
  unfold exec.
  destruct (Map_delete clientId (clients (this w))) as [|e rest] eqn:Ed.
  - rewrite (handleClientDisconnect_last _ _ Ed). cbn [snd].
    apply (teardown_backstage {| this := set_clients [] (this w); host := host w |}).
  - rewrite handleClientDisconnect_not_last by (rewrite Ed; discriminate).
    cbn [snd]. rewrite Ed. apply stable_refl.
Qed.

(** The message listener: status broadcasts first, if any, and then one
    broadcast loop with the frame. *)
Lemma onSfuMessage_effect data w :
  keys_unique w ->
  exists w1,
    shrinks w w1 /\ keys_unique w1 /\ exec (onSfuMessage data) w = sweep data w1.
Proof.
  intro ND. unfold onSfuMessage, exec.
  rewrite (bind_normal _ _ w (codecDescription (this w)) w) by reflexivity.
  assert (Keys : forall v, shrinks w v -> keys_unique v).
  { intros v Hv. destruct (Hv ND) as (_ & _ & (f & Hf & _) & _).
    unfold keys_unique. rewrite Hf. now apply filter_keys_unique. }
  destruct (negb (truthy (codecDescription (this w)))).
  - set (w0 := {| this := set_codecDescription (Some data) (this w); host := host w |}).
    assert (S0 : shrinks w w0).
    { apply backstage_shrinks. unfold w0. backstage_split.
      exists []. split; [cbn; now rewrite app_nil_r | intros ? ? []]. }
    pose proof (broadcastStatusToClients_shrinks "Received codec information from SFU" w0)
      as S1.
    assert (ND0 : keys_unique w0) by exact ND.
    unfold exec in S1.
    rewrite (bind_normal _ _ w tt
               (sweep (statusFrame "Received codec information from SFU" w0) w0)).
    2:{ unfold bind, assign. cbn [fst snd]. fold w0.
        now rewrite (broadcastStatusToClients_sweep _ w0 ND0). }
    rewrite (broadcastStatusToClients_sweep _ w0 ND0) in S1. cbn [snd] in S1.
    set (w1 := sweep _ w0) in *.
    assert (S : shrinks w w1) by (eapply stable_trans; [exact S0 | exact S1]).
    exists w1. split; [exact S|]. split; [now apply Keys|].
    now rewrite (fanOutToClients_sweep data w1 (Keys _ S)).
  - exists w. split; [apply stable_refl|]. split; [exact ND|].
    rewrite (bind_normal _ _ w tt w) by reflexivity.
    now rewrite (fanOutToClients_sweep data w ND).
Qed.

(** Every event that is not a request, a viewer event or an upstream frame
    is handled by status broadcasts and timer calls only. *)
Lemma step_shrinks e w w' :
  match e with
  | Fetch _ _ _ | ViewerGone _ | ViewerBreaks _ | UpstreamMessage _ _ => False
  | _ => True
  end ->
  step e w = Some w' -> shrinks w w'.
Proof.
  intros He Hs.
  assert (After : forall (m : JSM unit) v,
             this v = this w -> h_log (host v) = h_log (host w) ->
             h_broken (host v) = h_broken (host w) ->
             h_next (host v) = h_next (host w) ->
             respects shrinks m -> shrinks w (exec m v)).
  { intros m v Ht Hl Hb Hn Hm. eapply stable_trans; [|apply Hm].
    apply backstage_shrinks. unfold backstage. rewrite Ht, Hb, Hn, Hl.
    split; [reflexivity|]. split; [reflexivity|]. split; [lia|].
    exists []. split; [now rewrite app_nil_r | intros ? ? []]. }
  destruct e; try contradiction; cbn [step] in Hs.
  - destruct (conn_state c (host w)) as [[]|]; inversion Hs; subst.
    apply After; auto. apply onSfuOpen_shrinks.
  - destruct (conn_state c (host w)) as [[]|]; inversion Hs; subst;
      (apply After; auto; apply onSfuError_shrinks).
  - destruct (conn_state c (host w)) as [[]|]; inversion Hs; subst;
      (apply After; auto; apply onSfuClose_shrinks).
  - destruct (timer_live t (h_timeouts (host w))); inversion Hs; subst.
    apply After; auto. apply connectToSFU_shrinks.
  - destruct (timer_live t (h_intervals (host w))); inversion Hs; subst.
    apply heartbeat_shrinks.
  - destruct (0 <=? ms)%Z; inversion Hs; subst.
    apply backstage_shrinks. backstage_split.
    exists []. split; [cbn; now rewrite app_nil_r | intros ? ? []].
Qed.

(** ** The handles in the registry stay distinct *)

Lemma NoDup_map_filter {A B : Type} (g : A -> B) (f : A -> bool) (l : list A) :
  NoDup (map g l) -> NoDup (map g (filter f l)).
Proof.
  induction l as [|a l IH]; cbn; intro ND; [constructor|].
  inversion ND as [|x l' Hnot ND']; subst.
  destruct (f a); cbn; [|auto].
  constructor; [|auto]. intro Hin. apply Hnot.
  apply in_map_iff in Hin. destruct Hin as [a' [Ha' Hin]].
  apply filter_In in Hin. apply in_map_iff. exists a'. tauto.
Qed.

Lemma In_map_filter {A B : Type} (g : A -> B) (f : A -> bool) (l : list A) b :
  In b (map g (filter f l)) -> In b (map g l).
Proof.
  intro Hin. apply in_map_iff in Hin. destruct Hin as [a [Ha Hin]].
  apply filter_In in Hin. apply in_map_iff. exists a. tauto.
Qed.

Lemma well_kept_filter f w w' :
  clients (this w') = filter f (clients (this w)) ->
  h_next (host w) <= h_next (host w') ->
  well_kept w -> well_kept w'.
Proof.
  intros Hc Hn (K & S & F). unfold well_kept, sockets in *. rewrite Hc.
  split; [now apply NoDup_map_filter|]. split; [now apply NoDup_map_filter|].
  intros s Hin. apply In_map_filter in Hin. apply F in Hin. lia.
Qed.

Lemma well_kept_same w w' :
  clients (this w') = clients (this w) ->
  h_next (host w) <= h_next (host w') ->
  well_kept w -> well_kept w'.
Proof.
  intros Hc Hn. apply (well_kept_filter (fun _ => true)); [|exact Hn].
  now rewrite filter_true.
Qed.

Lemma shrinks_well_kept w w' : shrinks w w' -> well_kept w -> well_kept w'.
Proof.
  intros H Hw. destruct (H (proj1 Hw)) as (_ & Hn & (f & Hf & _) & _).
  now apply (well_kept_filter f w w').
Qed.

Lemma backstage_well_kept w w' : backstage w w' -> well_kept w -> well_kept w'.
Proof. intro H. apply shrinks_well_kept. now apply backstage_shrinks. Qed.

Lemma replays_well_kept server w w' : replays server w w' -> well_kept w -> well_kept w'.
Proof.
  intros [H | [frame H]] Hw; subst; [exact Hw|].
  apply (well_kept_same w); auto.
Qed.

Lemma sweep_well_kept payload w : well_kept w -> well_kept (sweep payload w).
Proof.
  intro Hw. destruct (sweep_facts payload w) as (_ & Hn & Hc & _).
  now apply (well_kept_filter (healthy (host w)) w).
Qed.

Lemma Map_set_sockets k v m s :
  In s (map snd (Map_set k v m)) -> s = v \/ In s (map snd m).
Proof.
  induction m as [|e m IH]; cbn.
  - intros [H|[]]; auto.
  - destruct (fst e =? k); cbn; intros [H|H]; auto.
    destruct (IH H); auto.
Qed.

Lemma Map_set_sockets_unique k v m :
  NoDup (map snd m) -> ~ In v (map snd m) -> NoDup (map snd (Map_set k v m)).
Proof.
  induction m as [|e m IH]; cbn; intros ND Hv.
  - repeat constructor. intros [].
  - inversion ND as [|x l Hnot ND']; subst.
    destruct (fst e =? k); cbn.
    + constructor; [tauto | exact ND'].
    + constructor; [|apply IH; tauto].
      intro Hin. apply Map_set_sockets in Hin. destruct Hin; [|tauto].
      subst. tauto.
Qed.

Lemma joined_well_kept uuid dead w : well_kept w -> well_kept (joined uuid dead w).
Proof.
  intros (K & S & F). unfold well_kept, sockets, joined in *. cbn.
  split; [now apply Map_set_keys_unique|]. split.
  - apply Map_set_sockets_unique; [exact S|]. intro Hin. apply F in Hin. lia.
  - intros s Hin. apply Map_set_sockets in Hin. destruct Hin as [H|H];
      [subst; lia | apply F in H; lia].
Qed.

Lemma step_well_kept e w w' : step e w = Some w' -> well_kept w -> well_kept w'.
Proof.
  intros Hs Hw.
  destruct e;
    try (apply (shrinks_well_kept w); [eapply step_shrinks; [|exact Hs]; exact I | exact Hw]);
    cbn [step] in Hs.
  - inversion Hs; subst. destruct (is_upgrade request) eqn:Hup.
    + destruct (fetch_upgrade_effect request uuid dead w Hup) as (w2 & S1 & R).
      apply (replays_well_kept _ _ _ R). apply (shrinks_well_kept _ _ S1).
      now apply joined_well_kept.
    + now rewrite fetch_plain.
  - inversion Hs; subst.
    apply (backstage_well_kept _ _ (handleClientDisconnect_effect clientId w)).
    apply (well_kept_filter (fun e => negb (fst e =? clientId)) w); auto.
  - inversion Hs; subst. apply (well_kept_same w); auto.
  - destruct (conn_state c (host w)) as [[]|]; inversion Hs; subst.
    destruct (onSfuMessage_effect data w (proj1 Hw)) as (w1 & S1 & _ & E).
    rewrite E. apply sweep_well_kept. now apply (shrinks_well_kept w).
Qed.

Lemma run_well_kept events : forall w w',
  run events w = Some w' -> well_kept w -> well_kept w'.
Proof.
  induction events as [|e rest IH]; cbn; intros w w' Hr Hw.
  - inversion Hr; subst. exact Hw.
  - destruct (step e w) as [w1|] eqn:E; [|discriminate].
    apply (IH w1 w' Hr). now apply (step_well_kept e w).
Qed.

Lemma reachable_well_kept rejects now state env events w :
  run events (boot rejects now state env) = Some w -> well_kept w.
Proof.
  intro Hr. apply (run_well_kept _ _ _ Hr).
  split; [constructor|]. split; [constructor | intros s []].
Qed.

(** ** What one viewer hears *)

Lemma new_effects_delta w w' delta :
  h_log (host w') = (h_log (host w) ++ delta)%list -> new_effects w w' = delta.
Proof.
  intro H. unfold new_effects. rewrite H, skipn_app, skipn_all, Nat.sub_diag.
  reflexivity.
Qed.

Lemma heard_delta sock w w' delta :
  h_log (host w') = (h_log (host w) ++ delta)%list -> heard sock w w' = sent_to sock delta.
Proof. intro H. unfold heard. now rewrite (new_effects_delta _ _ _ H). Qed.

Lemma heard_trans sock a b c :
  extends_log a b -> extends_log b c ->
  heard sock a c = (heard sock a b ++ heard sock b c)%list.
Proof.
  intros [d1 H1] [d2 H2].
  rewrite (heard_delta sock a b d1 H1), (heard_delta sock b c d2 H2).
  rewrite (heard_delta sock a c (d1 ++ d2)%list) by (now rewrite H2, H1, app_assoc).
  apply sent_to_app.
Qed.

Lemma heard_refl sock w : heard sock w w = [].
Proof. apply (heard_delta sock w w []). now rewrite app_nil_r. Qed.

Lemma shrinks_extends_log w w' : keys_unique w -> shrinks w w' -> extends_log w w'.
Proof. intros ND H. destruct (H ND) as (_ & _ & _ & d & Hl & _). now exists d. Qed.

Lemma replays_extends_log server w w' : replays server w w' -> extends_log w w'.
Proof.
  intros [H | [frame H]]; subst; [apply stable_refl|].
  now exists [ClientSend server frame].
Qed.

Lemma sweep_extends_log payload w : extends_log w (sweep payload w).
Proof. destruct (sweep_facts payload w) as (_ & _ & _ & d & Hl & _). now exists d. Qed.

Lemma backstage_heard sock w w' : backstage w w' -> heard sock w w' = [].
Proof.
  intros (_ & _ & _ & d & Hl & Hs). rewrite (heard_delta _ _ _ _ Hl).
  apply sent_to_none. intros p Hin. now apply Hs in Hin.
Qed.

Lemma replays_heard sock server w w' :
  sock <> server -> replays server w w' -> heard sock w w' = [].
Proof.
  intros Hne [H | [frame H]]; subst; [apply heard_refl|].
  rewrite (heard_delta sock w _ [ClientSend server frame]) by reflexivity.
  cbn. destruct (Nat.eqb server sock) eqn:E; [|reflexivity].
  apply Nat.eqb_eq in E. congruence.
Qed.

(** ** A socket out of the registry stays out and hears nothing *)

Lemma unregistered_filter sock f w w' :
  clients (this w') = filter f (clients (this w)) ->
  h_next (host w) <= h_next (host w') ->
  unregistered sock w -> unregistered sock w'.
Proof.
  intros Hc Hn [Hnot Hlt]. unfold unregistered, sockets in *. rewrite Hc.
  split; [|lia]. intro Hin. now apply In_map_filter in Hin.
Qed.

Lemma shrinks_unregistered sock w w' :
  keys_unique w -> shrinks w w' -> unregistered sock w ->
  unregistered sock w' /\ heard sock w w' = [].
Proof.
  intros ND H Hu. destruct (H ND) as (_ & Hn & (f & Hf & _) & d & Hl & Hs).
  split; [now apply (unregistered_filter sock f w)|].
  rewrite (heard_delta _ _ _ _ Hl). apply sent_to_none.
  intros p Hin. apply Hs in Hin. destruct Hu as [Hnot _]. tauto.
Qed.

Lemma filter_none {A : Type} (f : A -> bool) (l : list A) :
  (forall x, In x l -> f x = false) -> filter f l = [].
Proof.
  induction l as [|a l IH]; cbn; intro H; [reflexivity|].
  rewrite (H a (or_introl eq_refl)). apply IH. auto.
Qed.

Lemma sweep_unregistered sock payload w :
  unregistered sock w ->
  unregistered sock (sweep payload w) /\ heard sock w (sweep payload w) = [].
Proof.
  intro Hu. destruct (sweep_facts payload w) as (_ & Hn & Hc & d & Hl & _ & Hs).
  split; [now apply (unregistered_filter sock (healthy (host w)) w)|].
  rewrite (heard_delta _ _ _ _ Hl), Hs, filter_none; [reflexivity|].
  intros e Hin. apply Nat.eqb_neq. intro E. destruct Hu as [Hnot _].
  apply Hnot. unfold sockets. rewrite <- E. apply in_map.
  unfold alive in Hin. apply filter_In in Hin. tauto.
Qed.

Lemma step_unregistered sock e w w' :
  step e w = Some w' -> well_kept w -> unregistered sock w ->
  unregistered sock w' /\ heard sock w w' = [].
Proof.
  intros Hs Hw Hu. pose proof (proj1 Hw) as ND.
  destruct e;
    try (apply shrinks_unregistered;
         [exact ND | eapply step_shrinks; [|exact Hs]; exact I | exact Hu]);
    cbn [step] in Hs.
  - inversion Hs; subst. destruct (is_upgrade request) eqn:Hup.
    + destruct (fetch_upgrade_effect request uuid dead w Hup) as (w2 & S1 & R).
      assert (Hj : unregistered sock (joined uuid dead w)).
      { destruct Hu as [Hnot Hlt]. unfold unregistered, sockets, joined in *. cbn.
        split; [|lia]. intro Hin. apply Map_set_sockets in Hin.
        destruct Hin; [lia | tauto]. }
      assert (NDj : keys_unique (joined uuid dead w))
        by (apply (joined_well_kept uuid dead w Hw)).
      destruct (shrinks_unregistered sock _ _ NDj S1 Hj) as [Hu2 Hh2].
      assert (Hne : sock <> h_next (host w)) by (destruct Hu; lia).
      split.
      * destruct R as [R | [frame R]]; rewrite R; [exact Hu2|].
        destruct Hu2. split; assumption.
      * rewrite (heard_trans sock w (joined uuid dead w)).
        2:{ exists []. cbn. now rewrite app_nil_r. }
        2:{ eapply stable_trans; [apply (shrinks_extends_log _ _ NDj S1)|].
            apply (replays_extends_log _ _ _ R). }
        rewrite (heard_delta sock w (joined uuid dead w) [])
          by (cbn; now rewrite app_nil_r).
        rewrite (heard_trans sock _ w2);
          [| apply (shrinks_extends_log _ _ NDj S1) | apply (replays_extends_log _ _ _ R)].
        rewrite Hh2, (replays_heard sock _ _ _ Hne R). reflexivity.
    + rewrite fetch_plain by exact Hup. split; [exact Hu | apply heard_refl].
  - inversion Hs; subst.
    pose proof (handleClientDisconnect_effect clientId w) as B.
    set (wd := {| this := set_clients (Map_delete clientId (clients (this w))) (this w);
                  host := host w |}) in *.
    assert (Hd : unregistered sock wd)
      by (apply (unregistered_filter sock (fun e => negb (fst e =? clientId)) w); auto).
    split.
    + destruct B as (Hc & _ & Hn & _). destruct Hd as [Hnot Hlt].
      unfold unregistered, sockets in *. rewrite Hc. split; [exact Hnot | lia].
    + rewrite (heard_trans sock w wd).
      * rewrite (heard_delta sock w wd []) by (cbn; now rewrite app_nil_r).
        now rewrite (backstage_heard sock _ _ B).
      * exists []. cbn. now rewrite app_nil_r.
      * destruct B as (_ & _ & _ & d & Hl & _). now exists d.
  - inversion Hs; subst. split; [exact Hu|].
    apply (heard_delta sock w _ []). cbn. now rewrite app_nil_r.
  - destruct (conn_state c (host w)) as [[]|]; inversion Hs; subst.
    destruct (onSfuMessage_effect data w ND) as (w1 & S1 & ND1 & E).
    rewrite E. destruct (shrinks_unregistered sock _ _ ND S1 Hu) as [Hu1 Hh1].
    destruct (sweep_unregistered sock data w1 Hu1) as [Hu2 Hh2].
    split; [exact Hu2|].
    rewrite (heard_trans sock w w1);
      [| apply (shrinks_extends_log _ _ ND S1) | apply sweep_extends_log].
    now rewrite Hh1, Hh2.
Qed.

Lemma run_unregistered sock events : forall w w',
  run events w = Some w' -> well_kept w -> unregistered sock w ->
  unregistered sock w' /\ heard sock w w' = [].
Proof.
  induction events as [|e rest IH]; cbn; intros w w' Hr Hw Hu.
  - inversion Hr; subst. split; [exact Hu | apply heard_refl].
  - destruct (step e w) as [w1|] eqn:E; [|discriminate].
    destruct (step_unregistered sock e w w1 E Hw Hu) as [Hu1 Hh1].
    destruct (IH w1 w' Hr (step_well_kept _ _ _ E Hw) Hu1) as [Hu2 Hh2].
    split; [exact Hu2|].
    rewrite (heard_trans sock w w1);
      [| apply (step_extends_log _ _ _ E) | apply (run_extends_log _ _ _ Hr)].
    now rewrite Hh1, Hh2.
Qed.

(** Once a viewer socket is out of the registry, because the viewer left
    or because a send to it failed, the relay never sends it anything
    again and never takes it back into the registry, whatever happens
    next. *)
Theorem removed_viewer_hears_nothing (rejects : string -> bool) (now : Z)
    (state : DurableObjectId) (env : Env) (before events : list Event)
    (w w' : World) (sock : Socket) :
  run before (boot rejects now state env) = Some w ->
  sock < h_next (host w) ->
  ~ In sock (map snd (clients (this w))) ->
  run events w = Some w' ->
  ~ In sock (map snd (clients (this w')))
  /\ forall data, ~ In (ClientSend sock data) (new_effects w w').
Proof.
  intros Hb Hlt Hnot Hr.
  pose proof (reachable_well_kept _ _ _ _ _ _ Hb) as Hw.
  destruct (run_unregistered sock events w w' Hr Hw (conj Hnot Hlt)) as [[Hn _] Hh].
  split; [exact Hn|]. intros data Hin. apply sent_to_In in Hin.
  unfold heard in Hh. rewrite Hh in Hin. exact Hin.
Qed.

Lemma removed_viewer_hears_nothing_witness :
  ~ In 0 (map snd (clients (this oneLeftLaterWorld)))
  /\ forall data, ~ In (ClientSend 0 data) (new_effects oneLeftWorld oneLeftLaterWorld).
Proof.
  apply (removed_viewer_hears_nothing (fun _ => false) 1700000000123 sampleId
           {| SFU_SERVER_URL := None |}
           [join "v1"; join "v2"; UpstreamOpen 1; ViewerGone "v1"]
           [UpstreamMessage 1 mediaFrame; HeartbeatTimer 2]
           oneLeftWorld oneLeftLaterWorld 0).
  - vm_compute. reflexivity.
  - apply Nat.ltb_lt. vm_compute. reflexivity.
  - vm_compute. intros [H|[]]. discriminate H.
  - vm_compute. reflexivity.
Defined.

(** ** A viewer that stays hears every upstream frame, in order *)

Lemma Map_get_filter k v (f : string * Socket -> bool) m :
  Map_get k m = Some v -> f (k, v) = true -> Map_get k (filter f m) = Some v.
Proof.
  unfold Map_get. induction m as [|e m IH]; cbn; [discriminate|].
  destruct (fst e =? k) eqn:E.
  - intros H Hf. inversion H; subst. apply String.eqb_eq in E.
    assert (He : e = (k, snd e)) by (destruct e; cbn in *; now subst).
    clear H.
    rewrite <- He in Hf. rewrite Hf. cbn. subst k. now rewrite String.eqb_refl.
  - intros H Hf. destruct (f e); cbn; rewrite ?E; auto.
Qed.

Lemma Map_get_set_other k k' v m :
  k' <> k -> Map_get k (Map_set k' v m) = Map_get k m.
Proof.
  intro Hne. unfold Map_get. induction m as [|e m IH]; cbn.
  - apply String.eqb_neq in Hne. now rewrite Hne.
  - destruct (fst e =? k') eqn:E; cbn.
    + apply String.eqb_eq in E. rewrite E. apply String.eqb_neq in Hne.
      now rewrite Hne.
    + destruct (fst e =? k); [reflexivity | exact IH].
Qed.

Lemma only_entry_with_socket k s (l : list (string * Socket)) :
  NoDup (map snd l) -> In (k, s) l ->
  filter (fun e : string * Socket => Nat.eqb (snd e) s) l = [(k, s)].
Proof.
  induction l as [|e l IH]; cbn; intros ND Hin; [contradiction|].
  inversion ND as [|x l' Hnot ND']; subst.
  destruct Hin as [H|H].
  - subst e. cbn. rewrite Nat.eqb_refl. f_equal. apply filter_none.
    intros e He. apply Nat.eqb_neq. intro E. apply Hnot. cbn. rewrite <- E.
    now apply in_map.
  - destruct (Nat.eqb (snd e) s) eqn:E; [|auto].
    apply Nat.eqb_eq in E. exfalso. apply Hnot. rewrite E.
    change (In (snd (k, s)) (map snd l)). now apply in_map.
Qed.

Lemma served_same id sock w w' :
  clients (this w') = clients (this w) ->
  h_broken (host w') = h_broken (host w) ->
  served id sock w -> served id sock w'.
Proof. intros Hc Hb [H1 H2]. unfold served, is_broken in *. now rewrite Hc, Hb. Qed.

Lemma shrinks_served id sock w w' :
  keys_unique w -> shrinks w w' -> served id sock w ->
  served id sock w' /\ filter is_binary (heard sock w w') = [].
Proof.
  intros ND H [Hget Hok]. destruct (H ND) as (Hb & _ & (f & Hf & Hk) & d & Hl & Hs).
  split.
  - split; [|unfold is_broken in *; now rewrite Hb].
    rewrite Hf. apply Map_get_filter; [exact Hget|].
    apply Hk; [now apply Map_get_In|]. unfold healthy. cbn. now rewrite Hok.
  - rewrite (heard_delta _ _ _ _ Hl). apply filter_none.
    intros p Hin. apply sent_to_In in Hin. now apply Hs in Hin.
Qed.

Lemma sweep_served id sock payload w :
  well_kept w -> served id sock w ->
  served id sock (sweep payload w) /\ heard sock w (sweep payload w) = [payload].
Proof.
  intros (_ & S & _) [Hget Hok].
  destruct (sweep_facts payload w) as (Hb & _ & Hc & d & Hl & _ & Hs).
  assert (Hin : In (id, sock) (alive w)).
  { unfold alive. apply filter_In. split; [now apply Map_get_In|].
    unfold healthy. cbn. now rewrite Hok. }
  split.
  - split; [|unfold is_broken in *; now rewrite Hb].
    rewrite Hc. unfold alive. apply Map_get_filter; [exact Hget|].
    unfold healthy. cbn. now rewrite Hok.
  - rewrite (heard_delta _ _ _ _ Hl), Hs.
    rewrite (only_entry_with_socket id sock (alive w)); [reflexivity | | exact Hin].
    unfold alive. now apply NoDup_map_filter.
Qed.

Lemma step_served id sock e w w' :
  leaves_alone id sock e = true ->
  step e w = Some w' -> well_kept w -> served id sock w ->
  served id sock w'
  /\ filter is_binary (heard sock w w') = filter is_binary (upstream_frames [e]).
Proof.
  intros Hle Hs Hw Hv. pose proof (proj1 Hw) as ND.
  assert (Hlt : sock < h_next (host w)).
  { destruct Hw as (_ & _ & F). apply F. unfold sockets.
    change sock with (snd (id, sock)). apply in_map. apply Map_get_In. apply Hv. }
  destruct e;
    try (apply shrinks_served;
         [exact ND | eapply step_shrinks; [|exact Hs]; exact I | exact Hv]);
    cbn [step] in Hs; cbn [upstream_frames filter].
  - inversion Hs; subst. destruct (is_upgrade request) eqn:Hup.
    + cbn in Hle. rewrite Hup in Hle. cbn in Hle.
      apply negb_true_iff in Hle. apply String.eqb_neq in Hle.
      destruct (fetch_upgrade_effect request uuid dead w Hup) as (w2 & S1 & R).
      assert (Hj : served id sock (joined uuid dead w)).
      { destruct Hv as [Hget Hok]. unfold served, joined. cbn. split.
        - now rewrite Map_get_set_other.
        - unfold is_broken in *. cbn. destruct dead; cbn; [|exact Hok].
          rewrite Hok. replace (Nat.eqb sock (h_next (host w))) with false; [reflexivity|].
          symmetry. apply Nat.eqb_neq. lia. }
      assert (NDj : keys_unique (joined uuid dead w))
        by (apply (joined_well_kept uuid dead w Hw)).
      destruct (shrinks_served id sock _ _ NDj S1 Hj) as [Hv2 Hh2].
      assert (Hne : sock <> h_next (host w)) by lia.
      split.
      * destruct R as [R | [frame R]]; rewrite R; [exact Hv2|].
        apply (served_same id sock w2); auto.
      * rewrite (heard_trans sock w (joined uuid dead w)).
        2:{ exists []. cbn. now rewrite app_nil_r. }
        2:{ eapply stable_trans; [apply (shrinks_extends_log _ _ NDj S1)|].
            apply (replays_extends_log _ _ _ R). }
        rewrite (heard_delta sock w (joined uuid dead w) [])
          by (cbn; now rewrite app_nil_r).
        rewrite (heard_trans sock _ w2);
          [| apply (shrinks_extends_log _ _ NDj S1) | apply (replays_extends_log _ _ _ R)].
        cbn [sent_to app].
        rewrite filter_app, Hh2, (replays_heard sock _ _ _ Hne R). reflexivity.
    + rewrite fetch_plain by exact Hup. split; [exact Hv|]. now rewrite heard_refl.
  - inversion Hs; subst. cbn in Hle. apply negb_true_iff in Hle.
    pose proof (handleClientDisconnect_effect clientId w) as B.
    set (wd := {| this := set_clients (Map_delete clientId (clients (this w))) (this w);
                  host := host w |}) in *.
    assert (Hd : served id sock wd).
    { destruct Hv as [Hget Hok]. split; [|exact Hok]. cbn. unfold Map_delete.
      apply Map_get_filter; [exact Hget|]. cbn. now rewrite String.eqb_sym, Hle. }
    split.
    + destruct B as (Hc & Hb & _). now apply (served_same id sock wd).
    + rewrite (heard_trans sock w wd).
      * rewrite (heard_delta sock w wd []) by (cbn; now rewrite app_nil_r).
        now rewrite (backstage_heard sock _ _ B).
      * exists []. cbn. now rewrite app_nil_r.
      * destruct B as (_ & _ & _ & d & Hl & _). now exists d.
  - inversion Hs; subst. cbn in Hle. apply negb_true_iff in Hle. split.
    + destruct Hv as [Hget Hok]. split; [exact Hget|].
      unfold is_broken in *. cbn. rewrite Hok, Nat.eqb_sym, Hle. reflexivity.
    + rewrite (heard_delta sock w _ []) by (cbn; now rewrite app_nil_r). reflexivity.
  - destruct (conn_state c (host w)) as [[]|]; inversion Hs; subst.
    destruct (onSfuMessage_effect data w ND) as (w1 & S1 & ND1 & E).
    rewrite E. destruct (shrinks_served id sock _ _ ND S1 Hv) as [Hv1 Hh1].
    destruct (sweep_served id sock data w1 (shrinks_well_kept _ _ S1 Hw) Hv1)
      as [Hv2 Hh2].
    split; [exact Hv2|].
    rewrite (heard_trans sock w w1);
      [| apply (shrinks_extends_log _ _ ND S1) | apply sweep_extends_log].
    now rewrite filter_app, Hh1, Hh2.
Qed.

Lemma upstream_frames_cons e rest :
  upstream_frames (e :: rest) = (upstream_frames [e] ++ upstream_frames rest)%list.
Proof. destruct e; reflexivity. Qed.

Lemma run_served id sock events : forall w w',
  forallb (leaves_alone id sock) events = true ->
  run events w = Some w' -> well_kept w -> served id sock w ->
  served id sock w'
  /\ filter is_binary (heard sock w w') = filter is_binary (upstream_frames events).
Proof.
  induction events as [|e rest IH]; intros w w' Hle Hr Hw Hv.
  - cbn in Hr. inversion Hr; subst. split; [exact Hv | now rewrite heard_refl].
  - cbn [forallb] in Hle. apply andb_true_iff in Hle. destruct Hle as [Hle1 Hle2].
    cbn [run] in Hr. destruct (step e w) as [w1|] eqn:E; [|discriminate].
    destruct (step_served id sock e w w1 Hle1 E Hw Hv) as [Hv1 Hh1].
    destruct (IH w1 w' Hle2 Hr (step_well_kept _ _ _ E Hw) Hv1) as [Hv2 Hh2].
    split; [exact Hv2|].
    rewrite (heard_trans sock w w1);
      [| apply (step_extends_log _ _ _ E) | apply (run_extends_log _ _ _ Hr)].
    rewrite upstream_frames_cons, !filter_app. now rewrite Hh1, Hh2.
Qed.

(** The relay is transparent for a viewer that stays. Take a viewer that
    is registered with a working transport, and any events after that
    which are not its own disconnect, not a failure of its own transport and
    not a join under its id (joins and leaves of others, failures of
    others, upstream events, timers): the viewer is still registered, and
    the binary frames it has been sent are exactly the binary frames that
    came from the upstream, each once, unchanged and in their order of
    arrival. *)
Theorem relay_delivers_in_order (rejects : string -> bool) (now : Z)
    (state : DurableObjectId) (env : Env) (before events : list Event)
    (w w' : World) (id : string) (sock : Socket) :
  run before (boot rejects now state env) = Some w ->
  Map_get id (clients (this w)) = Some sock ->
  is_broken sock (host w) = false ->
  forallb (leaves_alone id sock) events = true ->
  run events w = Some w' ->
  Map_get id (clients (this w')) = Some sock
  /\ filter is_binary (sent_to sock (new_effects w w'))
     = filter is_binary (upstream_frames events).
Proof.
  intros Hb Hget Hok Hle Hr.
  pose proof (reachable_well_kept _ _ _ _ _ _ Hb) as Hw.
  destruct (run_served id sock events w w' Hle Hr Hw (conj Hget Hok)) as [[H1 _] H2].
  split; [exact H1 | exact H2].
Qed.

Lemma relay_delivers_in_order_witness :
  Map_get "v1" (clients (this busyWorld)) = Some 0
  /\ filter is_binary (sent_to 0 (new_effects connectedWorld busyWorld))
     = filter is_binary (upstream_frames busyEvents).
Proof.
  apply (relay_delivers_in_order (fun _ => false) 1700000000123 sampleId
           {| SFU_SERVER_URL := None |} [join "v1"; UpstreamOpen 1] busyEvents
           connectedWorld busyWorld "v1" 0).
  - vm_compute. reflexivity.
  - vm_compute. reflexivity.
  - vm_compute. reflexivity.
  - vm_compute. reflexivity.
  - vm_compute. reflexivity.
Defined.

Example busy_viewer_hears :
  filter is_binary (sent_to 0 (new_effects connectedWorld busyWorld))
  = [audioInit; videoInit; mediaFrame].
Proof. vm_compute. reflexivity. Qed.

(** ** Upgrade requests: the answer, and the one way to fail *)

Lemma Map_get_set_same k v m : Map_get k (Map_set k v m) = Some v.
Proof.
  unfold Map_get. induction m as [|e m IH]; cbn.
  - now rewrite String.eqb_refl.
  - destruct (fst e =? k) eqn:E; cbn; [now rewrite String.eqb_refl|].
    now rewrite E.
Qed.

Lemma Map_delete_set_same k v m : Map_delete k (Map_set k v m) = Map_delete k m.
Proof.
  unfold Map_delete. induction m as [|e m IH]; cbn.
  - now rewrite String.eqb_refl.
  - destruct (fst e =? k) eqn:E; cbn; [now rewrite String.eqb_refl|].
    rewrite E. cbn. now rewrite IH.
Qed.

Lemma joined_broken uuid dead w :
  is_broken (h_next (host w)) (host (joined uuid dead w))
  = dead || is_broken (h_next (host w)) (host w).
Proof.
  unfold is_broken, joined. cbn. destruct dead; cbn; [|reflexivity].
  now rewrite Nat.eqb_refl.
Qed.

Lemma sendStatusToClient_fails clientId message client w :
  Map_get clientId (clients (this w)) = Some client ->
  is_broken client (host w) = true ->
  sendStatusToClient clientId message w = handleClientDisconnect clientId w.
Proof.
  intros Hget Hbr.
  unfold sendStatusToClient, now_iso, bind, gets, platform, try_catch.
  cbn [fst snd]. rewrite Hget. now rewrite viewer_send_broken.
Qed.

Lemma first_join_branch_returns server w :
  outcome (connectToSFU ;; startHeartbeat ;; ret (Response101 server)) w
  = Normal (Response101 server).
Proof.
  destruct (connectToSFU_never_throws w) as [[] HC]. unfold outcome, bind in *.
  destruct (connectToSFU w) as [[[]|err] w2]; cbn [fst snd] in HC; [|discriminate].
  destruct (startHeartbeat_never_throws w2) as [[] HH]. unfold outcome in HH.
  destruct (startHeartbeat w2) as [[[]|err] w3]; cbn [fst snd] in HH; [|discriminate].
  reflexivity.
Qed.

Lemma join_tail_outcome server w :
  outcome (join_tail server) w
  = if negb (Nat.eqb (Map_size (clients (this w))) 1)
       && isConnectedToSFU (this w) && truthy (codecDescription (this w))
       && is_broken server (host w)
    then Throw "send failed"
    else Normal (Response101 server).
Proof.
  unfold join_tail, outcome.
  rewrite (bind_normal _ _ w (Map_size (clients (this w))) w) by reflexivity.
  destruct (Nat.eqb (Map_size (clients (this w))) 1); cbn [negb andb].
  - pose proof (first_join_branch_returns server w) as H. unfold outcome in H.
    unfold bind in *.
    destruct (connectToSFU w) as [[[]|err] w2]; cbn [fst snd] in *; [|exact H].
    destruct (startHeartbeat w2) as [[[]|err] w3]; cbn [fst snd] in *; exact H.
  - unfold bind, gets, ret. cbn [fst snd].
    destruct (isConnectedToSFU (this w)); cbn [andb]; [|reflexivity].
    destruct (truthy (codecDescription (this w))) eqn:T; cbn [andb]; [|reflexivity].
    destruct (codecDescription (this w)) as [frame|]; [|discriminate T].
    destruct (is_broken server (host w)) eqn:Hbr.
    + now rewrite viewer_send_broken.
    + now rewrite viewer_send_ok.
Qed.

(** An upgrade request is answered with the 101 response and the client
    end of the new socket pair, in every state of the relay, with one
    exception: when the transport of the new socket is already broken, at
    least two other viewers are registered, the upstream is connected and a
    frame is cached, the replay of the cached frame (the one send that is
    not inside a try) throws and the request fails. *)
Theorem fetch_upgrade_outcome (request : Request) (uuid : string) (dead : bool)
    (w : World) :
  is_upgrade request = true ->
  outcome (fetch request uuid dead) w
  = if (dead || is_broken (h_next (host w)) (host w))
       && Nat.leb 2 (List.length (Map_delete uuid (clients (this w))))
       && isConnectedToSFU (this w) && truthy (codecDescription (this w))
    then Throw "send failed"
    else Normal (Response101 (h_next (host w))).
Proof.
  intro Hup. unfold outcome. rewrite (fetch_upgrade_unfold _ _ _ _ Hup).
  set (server := h_next (host w)). set (wj := joined uuid dead w).
  assert (Hget : Map_get uuid (clients (this wj)) = Some server)
    by (apply Map_get_set_same).
  pose proof (joined_broken uuid dead w) as Hbr. fold server wj in Hbr.
  unfold join_rest.
  rewrite (bind_normal _ _ wj (id_toString (state_id (this wj))) wj) by reflexivity.
  set (msg := ("Connected to stream relay, state: "
                 ++ id_toString (state_id (this wj)) ++ ". Waiting for media...")).
  destruct (dead || is_broken server (host w)) eqn:B; cbn [andb].
  - assert (Hdel : Map_delete uuid (clients (this wj)) = Map_delete uuid (clients (this w)))
      by (apply Map_delete_set_same).
    pose proof (sendStatusToClient_fails uuid msg server wj Hget Hbr) as E1.
    destruct (Map_delete uuid (clients (this w))) as [|e1 rest] eqn:Ed.
    + rewrite (bind_normal _ _ wj tt
                 (exec teardown {| this := set_clients [] (this wj); host := host wj |}))
        by (rewrite E1; now apply handleClientDisconnect_last).
      pose proof (join_tail_outcome server
                    (exec teardown {| this := set_clients [] (this wj); host := host wj |}))
        as T.
      destruct (teardown_result {| this := set_clients [] (this wj); host := host wj |})
        as (Hc & _ & _ & _ & Hf & _).
      unfold outcome in T. rewrite T, Hf. cbn [this clients set_clients] in Hc.
      now rewrite andb_false_r.
    + rewrite (bind_normal _ _ wj tt
                 {| this := set_clients (e1 :: rest) (this wj); host := host wj |}).
      2:{ rewrite E1, handleClientDisconnect_not_last; rewrite Hdel;
            [reflexivity | discriminate]. }
      pose proof (join_tail_outcome server
                    {| this := set_clients (e1 :: rest) (this wj); host := host wj |}) as T.
      unfold outcome in T. rewrite T. cbn [this host clients set_clients isConnectedToSFU
        codecDescription Map_size List.length]. rewrite Hbr, andb_true_r.
      destruct rest; reflexivity.
  - set (w1 := {| this := this wj;
                  host := set_log (h_log (host wj)
                                    ++ [ClientSend server (statusFrame msg wj)])%list
                                  (host wj) |}).
    rewrite (bind_normal _ _ wj tt w1) by (now apply sendStatusToClient_delivers).
    pose proof (join_tail_outcome server w1) as T.
    assert (Hb1 : is_broken server (host w1) = false) by exact Hbr.
    unfold outcome in T. rewrite T, Hb1. now rewrite andb_false_r.
Qed.

Lemma fetch_upgrade_outcome_witness :
  outcome (fetch (upgradeRequest "/stream/alpha") "v4" true) crowdedWorld
  = if (true || is_broken (h_next (host crowdedWorld)) (host crowdedWorld))
       && Nat.leb 2 (List.length (Map_delete "v4" (clients (this crowdedWorld))))
       && isConnectedToSFU (this crowdedWorld)
       && truthy (codecDescription (this crowdedWorld))
    then Throw "send failed"
    else Normal (Response101 (h_next (host crowdedWorld))).
Proof.
  apply (fetch_upgrade_outcome (upgradeRequest "/stream/alpha") "v4" true crowdedWorld).
  reflexivity.
Defined.

(** The exception, on the sample run: three viewers, upstream open, a frame
    cached, and a fourth viewer whose socket is already dead. *)
Example fetch_rejects_in_a_crowd :
  outcome (fetch (upgradeRequest "/stream/alpha") "v4" true) crowdedWorld
  = Throw "send failed"
  /\ clients (this (exec (fetch (upgradeRequest "/stream/alpha") "v4" true) crowdedWorld))
     = [("v1", 0); ("v2", 3); ("v3", 4)].
Proof. split; vm_compute; reflexivity. Qed.

(** A viewer with a working transport that asks to join is answered with
    the 101 response, is in the registry when the request completes, and the
    first frame it is sent is the initial status message, whatever the state
    of the relay. *)
Theorem join_registers_and_greets (request : Request) (uuid : string) (w : World) :
  is_upgrade request = true ->
  keys_unique w ->
  is_broken (h_next (host w)) (host w) = false ->
  outcome (fetch request uuid false) w = Normal (Response101 (h_next (host w)))
  /\ Map_get uuid (clients (this (exec (fetch request uuid false) w)))
     = Some (h_next (host w))
  /\ exists later,
       sent_to (h_next (host w)) (new_effects w (exec (fetch request uuid false) w))
       = initialStatus w :: later.
Proof.
  intros Hup ND Hok. unfold outcome, exec.
  rewrite (fetch_upgrade_unfold _ _ _ _ Hup).
  set (server := h_next (host w)) in *. set (wj := joined uuid false w).
  assert (Hget : Map_get uuid (clients (this wj)) = Some server)
    by (apply Map_get_set_same).
  assert (Hbr : is_broken server (host wj) = false)
    by (unfold wj, server; rewrite joined_broken; exact Hok).
  unfold join_rest.
  rewrite (bind_normal _ _ wj (id_toString (state_id (this wj))) wj) by reflexivity.
  set (msg := ("Connected to stream relay, state: "
                 ++ id_toString (state_id (this wj)) ++ ". Waiting for media...")).
  set (w1 := {| this := this wj;
                host := set_log (h_log (host wj)
                                  ++ [ClientSend server (statusFrame msg wj)])%list
                                (host wj) |}).
  rewrite (bind_normal _ _ wj tt w1) by (now apply sendStatusToClient_delivers).
  pose proof (join_tail_outcome server w1) as T. unfold outcome in T.
  replace (is_broken server (host w1)) with false in T by (symmetry; exact Hbr).
  rewrite andb_false_r in T. split; [exact T|].
  destruct (join_tail_effect server w1) as (w2 & S & R). unfold exec in R.
  assert (ND1 : keys_unique w1).
  { unfold keys_unique, w1, wj, joined. cbn. now apply Map_set_keys_unique. }
  assert (V1 : served uuid server w1) by (split; [exact Hget | exact Hbr]).
  destruct (shrinks_served uuid server w1 w2 ND1 S V1) as [[V2 _] _].
  split.
  - destruct R as [R | [frame R]]; rewrite R; exact V2.
  - destruct (shrinks_extends_log _ _ ND1 S) as [d2 H2].
    destruct (replays_extends_log _ _ _ R) as [d3 H3].
    exists (sent_to server (d2 ++ d3)%list).
    rewrite (new_effects_delta w _ ([ClientSend server (statusFrame msg wj)] ++ d2 ++ d3)%list).
    + cbn [app sent_to]. now rewrite Nat.eqb_refl.
    + rewrite H3, H2. cbn. now rewrite <- !app_assoc.
Qed.

Lemma join_registers_and_greets_witness :
  outcome (fetch (upgradeRequest "/stream/alpha") "v2" false) connectedWorld
  = Normal (Response101 (h_next (host connectedWorld)))
  /\ Map_get "v2"
       (clients (this (exec (fetch (upgradeRequest "/stream/alpha") "v2" false)
                            connectedWorld)))
     = Some (h_next (host connectedWorld))
  /\ exists later,
       sent_to (h_next (host connectedWorld))
         (new_effects connectedWorld
            (exec (fetch (upgradeRequest "/stream/alpha") "v2" false) connectedWorld))
       = initialStatus connectedWorld :: later.
Proof.
  apply (join_registers_and_greets (upgradeRequest "/stream/alpha") "v2" connectedWorld).
  - reflexivity.
  - unfold keys_unique. vm_compute. repeat constructor. intros [].
  - vm_compute. reflexivity.
Defined.

(** ** When the upstream address is refused *)

Lemma connectAttempt_rejected w :
  h_rejects (host w) (sfuUrl (this w) ++ "/consume/" ++ streamId (this w)) = true ->
  exists w1,
    connectAttempt w = (Throw "SyntaxError", w1)
    /\ backstage w w1 /\ same_upstream w w1.
Proof.
  intro Hrej.
  destruct w as [r h]. destruct r as [sid st conn cl cd rt hb flag url cur].
  destruct h as [br rej cn tmo itv nxt now lg]. cbn in Hrej.
  unfold connectAttempt, new_WebSocket, clearTimeout. js_unfold.
  destruct rt as [t|]; cbn; rewrite Hrej; cbn; eexists; (split; [reflexivity|]);
    (split; [|repeat split]); backstage_split.
  - exists [ClearTimeout t; NewWebSocket (url ++ "/consume/" ++ st)]. cbn.
    split; [now rewrite <- app_assoc | intros s d [H|[H|[]]]; discriminate].
  - exists [NewWebSocket (url ++ "/consume/" ++ st)]. cbn.
    split; [reflexivity | intros s d [H|[]]; discriminate].
Qed.

Lemma scheduleReconnect_same_upstream : forall w, same_upstream w (exec scheduleReconnect w).
Proof.
  intro w. destruct w as [r h]. destruct r as [sid st conn cl cd rt hb flag url cur].
  unfold scheduleReconnect, setTimeout, exec. js_unfold. cbn.
  destruct cl, rt; cbn; repeat split.
Qed.

(** When the WebSocket constructor refuses the upstream address,
    [connectToSFU] does not throw: the connected flag is down, every viewer
    whose transport works has been sent the status [Failed to connect to
    SFU] and is still registered, the others are gone; and if a viewer is
    left, the relay holds the upstream socket it held before, no socket has
    been created, and a reconnect timer is armed. *)
Theorem connect_failure_schedules_retry (w : World) :
  keys_unique w ->
  h_rejects (host w) (sfuUrl (this w) ++ "/consume/" ++ streamId (this w)) = true ->
  outcome connectToSFU w = Normal tt
  /\ isConnectedToSFU (this (exec connectToSFU w)) = false
  /\ clients (this (exec connectToSFU w)) = alive w
  /\ (forall e, In e (alive w) ->
        In (Text (JS.stringify
                    (statusRecord "Failed to connect to SFU"
                                  (JS.toISOString (h_now (host w))) false)))
           (sent_to (snd e) (new_effects w (exec connectToSFU w))))
  /\ (alive w <> [] ->
      sfuConnection (this (exec connectToSFU w)) = sfuConnection (this w)
      /\ h_conns (host (exec connectToSFU w)) = h_conns (host w)
      /\ reconnectTimeout (this (exec connectToSFU w)) <> None).
Proof.
  intros ND Hrej.
  destruct (connectAttempt_rejected w Hrej) as (w1 & E1 & B1 & U1).
  destruct B1 as (Hc1 & Hb1 & Hn1 & d1 & Hl1 & Hs1).
  destruct U1 as (Hu1 & Hcn1 & Hf1 & Hnow1).
  set (w2 := {| this := set_isConnectedToSFU false (this w1); host := host w1 |}).
  set (payload := statusFrame "Failed to connect to SFU" w2).
  assert (ND2 : keys_unique w2) by (unfold keys_unique, w2; cbn; now rewrite Hc1).
  assert (Ha : alive w2 = alive w).
  { unfold alive, w2, healthy, is_broken. cbn. now rewrite Hc1, Hb1. }
  assert (E : connectToSFU w = scheduleReconnect (sweep payload w2)).
  { unfold connectToSFU, try_catch. rewrite E1. unfold connectFailed.
    rewrite (bind_normal _ _ w1 tt w2) by reflexivity.
    now rewrite (bind_normal _ _ w2 tt (sweep payload w2))
      by (now apply broadcastStatusToClients_sweep). }
  destruct (sweep_facts payload w2) as (Hb3 & Hn3 & Hc3 & d3 & Hl3 & _ & Hs3).
  set (w3 := sweep payload w2) in *.
  pose proof (scheduleReconnect_same_viewers w3) as (Hc4 & _ & _).
  pose proof (scheduleReconnect_same_upstream w3) as (Hu4 & Hcn4 & Hf4 & _).
  pose proof (scheduleReconnect_backstage w3) as (_ & _ & _ & d4 & Hl4 & _).
  pose proof (scheduleReconnect_stays_disconnected w3) as Hd4.
  unfold outcome, exec in *. rewrite E.
  assert (N : exists v, scheduleReconnect w3 = (Normal tt, v)).
  { destruct w3 as [r h]. destruct r as [sid st conn cl cd rt hb flag url cur].
    unfold scheduleReconnect, setTimeout. js_unfold. cbn.
    destruct cl, rt; cbn; eexists; reflexivity. }
  destruct N as [w4 E4]. rewrite E4 in *. cbn [fst snd] in *.
  assert (Hflag3 : isConnectedToSFU (this w3) = false).
  { pose proof (broadcastStatusToClients_stays_disconnected
                  "Failed to connect to SFU" w2 eq_refl) as H.
    unfold exec in H. now rewrite (broadcastStatusToClients_sweep _ w2 ND2) in H. }
  split; [reflexivity|]. split; [now apply Hd4|].
  split; [now rewrite Hc4, Hc3|]. split.
  - intros e He.
    rewrite (new_effects_delta w w4 (d1 ++ d3 ++ d4)%list)
      by (rewrite Hl4, Hl3; unfold w2; cbn [host]; rewrite Hl1; now rewrite <- !app_assoc).
    rewrite !sent_to_app. apply in_or_app. right. apply in_or_app. left.
    rewrite Hs3, Ha.
    assert (Hp : payload
                 = Text (JS.stringify
                           (statusRecord "Failed to connect to SFU"
                                         (JS.toISOString (h_now (host w))) false))).
    { unfold payload, statusFrame, w2. cbn [host this]. now rewrite Hnow1. }
    rewrite <- Hp.
    apply (in_map (fun _ : string * Socket => payload)
                  (filter (fun e0 : string * Socket => Nat.eqb (snd e0) (snd e)) (alive w)) e).
    apply filter_In. split; [exact He | apply Nat.eqb_refl].
  - intro Hne. rewrite <- Ha in Hne.
    assert (E3 : w3 = {| this := set_clients (alive w2) (this w2);
                         host := set_log (h_log (host w2)
                                           ++ map (fun e : string * Socket =>
                                                     ClientSend (snd e) payload)
                                                  (alive w2))%list (host w2) |}).
    { unfold w3, sweep. destruct (alive w2); [congruence | reflexivity]. }
    split; [|split].
    + rewrite Hu4, E3. cbn. exact Hu1.
    + rewrite Hcn4, E3. cbn. exact Hcn1.
    + pose proof (scheduleReconnect_arms w3) as Harm. unfold exec in Harm.
      rewrite E4 in Harm. apply Harm. now rewrite Hc3.
Qed.

Lemma connect_failure_schedules_retry_witness :
  outcome connectToSFU misconfiguredPair = Normal tt
  /\ isConnectedToSFU (this (exec connectToSFU misconfiguredPair)) = false
  /\ clients (this (exec connectToSFU misconfiguredPair)) = alive misconfiguredPair
  /\ (forall e, In e (alive misconfiguredPair) ->
        In (Text (JS.stringify
                    (statusRecord "Failed to connect to SFU"
                                  (JS.toISOString (h_now (host misconfiguredPair))) false)))
           (sent_to (snd e) (new_effects misconfiguredPair
                                         (exec connectToSFU misconfiguredPair))))
  /\ (alive misconfiguredPair <> [] ->
      sfuConnection (this (exec connectToSFU misconfiguredPair))
      = sfuConnection (this misconfiguredPair)
      /\ h_conns (host (exec connectToSFU misconfiguredPair))
         = h_conns (host misconfiguredPair)
      /\ reconnectTimeout (this (exec connectToSFU misconfiguredPair)) <> None).
Proof.
  apply (connect_failure_schedules_retry misconfiguredPair).
  - unfold keys_unique. vm_compute. repeat constructor; cbn; intuition discriminate.
  - reflexivity.
Defined.

Example misconfigured_pair_after_retry :
  clients (this (exec connectToSFU misconfiguredPair)) = [("v2", 3)]
  /\ h_conns (host (exec connectToSFU misconfiguredPair)) = [].
Proof. split; vm_compute; reflexivity. Qed.

(* ===================================================================== *)
(** * The worker entry point *)
(* ===================================================================== *)

(** ** Routes, on examples *)

Example route_chat_default :
  fst (Worker.fetch {| Worker.http_method := "GET";
                       Worker.http_request := upgradeRequest "/chat/";
                       Worker.http_json := None |} Worker.initial)
  = Worker.Returned (Worker.Forwarded (Worker.ChatRoomObject "default")).
Proof. reflexivity. Qed.

Example route_stream_alpha :
  fst (Worker.fetch {| Worker.http_method := "GET";
                       Worker.http_request := upgradeRequest "/stream/alpha";
                       Worker.http_json := None |} Worker.initial)
  = Worker.Returned (Worker.Forwarded (Worker.StreamRelayObject "stream:alpha")).
Proof. reflexivity. Qed.

Example route_list_streams :
  fst (Worker.fetch listStreams Worker.initial)
  = Worker.Returned
      (Worker.jsonReply 200
         (JS.Jarr [JS.Jstr "test_stream"; JS.Jstr "test_stream_audio"; JS.Jstr "main"])).
Proof. reflexivity. Qed.

Example route_create_stream :
  Worker.fetch (createStream "  My Stream #1 ") Worker.initial
  = (Worker.Returned (Worker.jsonReply 200 (JS.Jobj [("streamId", JS.Jstr "mystream1")])),
     {| Worker.KNOWN_ROOMS := ["default"; "general"; "random"; "support"];
        Worker.KNOWN_STREAMS := ["test_stream"; "test_stream_audio"; "main"; "mystream1"] |}).
Proof. vm_compute. reflexivity. Qed.

Example route_create_null_body :
  fst (Worker.fetch {| Worker.http_method := "POST";
                       Worker.http_request := plainRequest "/api/streams";
                       Worker.http_json := Some JS.Jnull |} Worker.initial)
  = Worker.Returned (Worker.errorReply "Invalid request body").
Proof. reflexivity. Qed.

Example route_create_number :
  fst (Worker.fetch {| Worker.http_method := "POST";
                       Worker.http_request := plainRequest "/api/streams";
                       Worker.http_json :=
                         Some (JS.Jobj [("streamId", JS.Jnum 42 0)]) |} Worker.initial)
  = Worker.Returned (Worker.errorReply "Invalid stream ID").
Proof. reflexivity. Qed.

Example route_echo_rejects :
  fst (Worker.fetch {| Worker.http_method := "POST";
                       Worker.http_request := plainRequest "/anything";
                       Worker.http_json := None |} Worker.initial)
  = Worker.Rejected.
Proof. reflexivity. Qed.

Example route_delete :
  fst (Worker.fetch {| Worker.http_method := "DELETE";
                       Worker.http_request := plainRequest "/api/streams";
                       Worker.http_json := None |} Worker.initial)
  = Worker.Returned (Worker.Replied 405 None (Worker.PlainBody "Method Not Allowed")).
Proof. reflexivity. Qed.

Example num_nonzero_examples :
  JS.num_nonzero 0 5 = false /\ JS.num_nonzero 1 (-400) = false
  /\ JS.num_nonzero 5 (-324) = true /\ JS.num_nonzero (-3) 0 = true.
Proof.
  split; [vm_compute; reflexivity|]. split; [vm_compute; reflexivity|].
  split; vm_compute; reflexivity.
Qed.

(** ** The sanitizer *)

Ltac by_cases_on_char c :=
  destruct c as [[] [] [] [] [] [] [] []]; vm_compute; try reflexivity;
  try discriminate; try (intros; discriminate).

Lemma whitespace_not_id c : JS.is_whitespace c = true -> JS.is_id_char c = false.
Proof. by_cases_on_char c. Qed.

Lemma id_char_lowers_to_slug c :
  JS.is_id_char c = true -> is_slug_char (JS.lower_char c) = true.
Proof. by_cases_on_char c. Qed.

Lemma slug_char_facts c :
  is_slug_char c = true ->
  JS.is_whitespace c = false /\ JS.is_id_char c = true /\ JS.lower_char c = c
  /\ Ascii.eqb c ":" = false.
Proof. by_cases_on_char c; intros; repeat split. Qed.

Lemma strip_trimStart s : JS.strip_non_id (JS.trimStart s) = JS.strip_non_id s.
Proof.
  induction s as [|c s IH]; cbn; [reflexivity|].
  destruct (JS.is_whitespace c) eqn:W; [|reflexivity].
  now rewrite (whitespace_not_id c W).
Qed.

Lemma strip_trimEnd s : JS.strip_non_id (JS.trimEnd s) = JS.strip_non_id s.
Proof.
  induction s as [|c s IH]; cbn [JS.trimEnd]; [reflexivity|].
  destruct (JS.trimEnd s) as [|k kept] eqn:E.
  - cbn in IH. destruct (JS.is_whitespace c) eqn:W.
    + cbn. now rewrite (whitespace_not_id c W).
    + cbn. rewrite <- IH. reflexivity.
  - cbn [JS.strip_non_id] in *. now rewrite IH.
Qed.

Lemma strip_trim s : JS.strip_non_id (JS.trim s) = JS.strip_non_id s.
Proof. unfold JS.trim. now rewrite strip_trimEnd, strip_trimStart. Qed.

Lemma strip_all_id s : all_chars JS.is_id_char (JS.strip_non_id s) = true.
Proof.
  induction s as [|c s IH]; cbn; [reflexivity|].
  destruct (JS.is_id_char c) eqn:E; [cbn; now rewrite E | exact IH].
Qed.

Lemma lower_slug s :
  all_chars JS.is_id_char s = true -> all_chars is_slug_char (JS.toLowerCase s) = true.
Proof.
  induction s as [|c s IH]; cbn; [reflexivity|].
  intro H. apply andb_true_iff in H. destruct H as [Hc Hs].
  now rewrite (id_char_lowers_to_slug c Hc), IH.
Qed.

Lemma slug_fixed s :
  all_chars is_slug_char s = true ->
  JS.trim s = s /\ JS.strip_non_id s = s /\ JS.toLowerCase s = s
  /\ JS.mentions ":" s = false.
Proof.
  intro H.
  assert (Hstart : JS.trimStart s = s).
  { destruct s as [|c s]; [reflexivity|]. cbn in *.
    apply andb_true_iff in H. destruct H as [Hc _].
    now destruct (slug_char_facts c Hc) as (-> & _). }
  assert (Hend : JS.trimEnd s = s).
  { induction s as [|c s IH]; [reflexivity|]. cbn in *.
    apply andb_true_iff in H. destruct H as [Hc Hs].
    destruct (slug_char_facts c Hc) as (W & _).
    rewrite IH.
    - destruct s; [now rewrite W | reflexivity].
    - exact Hs.
    - destruct s as [|d s]; [reflexivity|]. cbn in *.
      apply andb_true_iff in Hs. destruct Hs as [Hd _].
      now destruct (slug_char_facts d Hd) as (-> & _). }
  split; [unfold JS.trim; now rewrite Hstart, Hend|].
  clear Hstart Hend.
  induction s as [|c s IH]; [repeat split|]. cbn in *.
  apply andb_true_iff in H. destruct H as [Hc Hs].
  destruct (slug_char_facts c Hc) as (_ & I & L & C).
  destruct (IH Hs) as (IH1 & IH2 & IH3).
  rewrite I, L, IH1, IH2, IH3, C. repeat split.
Qed.

(** The sanitized id is the input with every character outside
    [a-zA-Z0-9_-] removed and the capitals lowered (the trim changes
    nothing, white space being removed anyway); it is made of the
    characters [a-z0-9_-] only, so it never holds a colon, a slash or a
    blank; and sanitizing it again gives it back. *)
Theorem sanitize_gives_a_slug (raw : string) :
  Worker.sanitize raw = JS.toLowerCase (JS.strip_non_id raw)
  /\ all_chars is_slug_char (Worker.sanitize raw) = true
  /\ JS.mentions ":" (Worker.sanitize raw) = false
  /\ Worker.sanitize (Worker.sanitize raw) = Worker.sanitize raw.
Proof.
  assert (E : Worker.sanitize raw = JS.toLowerCase (JS.strip_non_id raw))
    by (unfold Worker.sanitize; now rewrite strip_trim).
  assert (S : all_chars is_slug_char (Worker.sanitize raw) = true)
    by (rewrite E; apply lower_slug, strip_all_id).
  destruct (slug_fixed _ S) as (T & I & L & C).
  split; [exact E|]. split; [exact S|]. split; [exact C|].
  unfold Worker.sanitize at 1. now rewrite T, I, L.
Qed.

(** ** Creating and listing streams *)

Lemma trim_empty : JS.trim "" = "".
Proof. reflexivity. Qed.

Lemma create_valid name value raw :
  JS.property name value = Some (JS.Jstr raw) ->
  JS.trim raw <> "" ->
  Worker.create name (Some value) = Worker.NewId (Worker.sanitize raw).
Proof.
  intros Hp Ht. unfold Worker.create.
  destruct value; cbn in Hp; try discriminate. cbn [JS.reads_throw].
  unfold JS.property. rewrite Hp. unfold Worker.invalid_id. cbn.
  unfold JS.truthy_string.
  destruct (raw =? "") eqn:E.
  - apply String.eqb_eq in E. subst raw. now rewrite trim_empty in Ht.
  - cbn. destruct (JS.trim raw =? "") eqn:E'; [|reflexivity].
    apply String.eqb_eq in E'. contradiction.
Qed.

Lemma Set_add_In x s : In x (JS.Set_add x s).
Proof.
  unfold JS.Set_add, JS.Set_has. destruct (existsb (String.eqb x) s) eqn:E.
  - apply existsb_exists in E. destruct E as [y [Hin Hy]].
    apply String.eqb_eq in Hy. now subst.
  - apply in_or_app. right. now left.
Qed.

Lemma Set_has_In x s : JS.Set_has x s = true <-> In x s.
Proof.
  unfold JS.Set_has. rewrite existsb_exists. split.
  - intros [y [Hin Hy]]. apply String.eqb_eq in Hy. now subst.
  - intro Hin. exists x. split; [exact Hin | apply String.eqb_refl].
Qed.

Lemma Set_add_NoDup x s : NoDup s -> NoDup (JS.Set_add x s).
Proof.
  intro ND. unfold JS.Set_add. destruct (JS.Set_has x s) eqn:E; [exact ND|].
  apply NoDup_app; [exact ND | repeat constructor; intros [] |].
  intros y Hin [Hy|[]]. subst y. apply Set_has_In in Hin. congruence.
Qed.

(** Creating a stream and listing the streams. A POST to [/api/streams]
    whose body is an object with a string under [streamId] that is not
    blank is answered 200 with the sanitized id, touches the rooms not at
    all, and a listing made next gives the streams listed before, in their
    order, followed by the sanitized id unless it was listed already (in
    which case the listing is as before): the id is listed exactly as often
    as it was, or once. *)
Theorem created_stream_is_listed (known : Worker.Known) (request : Worker.HttpRequest)
    (value : JS.Json) (raw : string) :
  req_pathname (Worker.http_request request) = "/api/streams" ->
  Worker.http_method request = "POST" ->
  Worker.http_json request = Some value ->
  JS.property "streamId" value = Some (JS.Jstr raw) ->
  JS.trim raw <> "" ->
  Worker.fetch request known
  = (Worker.Returned
       (Worker.jsonReply 200 (JS.Jobj [("streamId", JS.Jstr (Worker.sanitize raw))])),
     {| Worker.KNOWN_ROOMS := Worker.KNOWN_ROOMS known;
        Worker.KNOWN_STREAMS :=
          JS.Set_add (Worker.sanitize raw) (Worker.KNOWN_STREAMS known) |})
  /\ fst (Worker.fetch listStreams (snd (Worker.fetch request known)))
     = Worker.Returned
         (Worker.jsonReply 200
            (JS.Jarr (map JS.Jstr
                          (JS.Set_add (Worker.sanitize raw) (Worker.KNOWN_STREAMS known)))))
  /\ In (Worker.sanitize raw)
        (JS.Set_add (Worker.sanitize raw) (Worker.KNOWN_STREAMS known))
  /\ (In (Worker.sanitize raw) (Worker.KNOWN_STREAMS known) ->
      JS.Set_add (Worker.sanitize raw) (Worker.KNOWN_STREAMS known)
      = Worker.KNOWN_STREAMS known)
  /\ (~ In (Worker.sanitize raw) (Worker.KNOWN_STREAMS known) ->
      JS.Set_add (Worker.sanitize raw) (Worker.KNOWN_STREAMS known)
      = (Worker.KNOWN_STREAMS known ++ [Worker.sanitize raw])%list).
Proof.
  intros Hpath Hmethod Hbody Hprop Hblank.
  assert (E : Worker.fetch request known
              = (Worker.Returned
                   (Worker.jsonReply 200
                      (JS.Jobj [("streamId", JS.Jstr (Worker.sanitize raw))])),
                 {| Worker.KNOWN_ROOMS := Worker.KNOWN_ROOMS known;
                    Worker.KNOWN_STREAMS :=
                      JS.Set_add (Worker.sanitize raw) (Worker.KNOWN_STREAMS known) |})).
  { unfold Worker.fetch. rewrite Hpath, Hmethod, Hbody. cbn -[Worker.create].
    now rewrite (create_valid "streamId" value raw Hprop Hblank). }
  split; [exact E|]. rewrite E. split; [reflexivity|].
  split; [apply Set_add_In|]. split.
  - intro Hin. unfold JS.Set_add. now rewrite (proj2 (Set_has_In _ _) Hin).
  - intro Hnot. unfold JS.Set_add.
    destruct (JS.Set_has (Worker.sanitize raw) (Worker.KNOWN_STREAMS known)) eqn:H;
      [|reflexivity].
    apply Set_has_In in H. contradiction.
Qed.

Lemma created_stream_is_listed_witness :
  Worker.fetch (createStream "  My Stream #1 ") Worker.initial
  = (Worker.Returned
       (Worker.jsonReply 200
          (JS.Jobj [("streamId", JS.Jstr (Worker.sanitize "  My Stream #1 "))])),
     {| Worker.KNOWN_ROOMS := Worker.KNOWN_ROOMS Worker.initial;
        Worker.KNOWN_STREAMS :=
          JS.Set_add (Worker.sanitize "  My Stream #1 ")
                     (Worker.KNOWN_STREAMS Worker.initial) |})
  /\ fst (Worker.fetch listStreams
            (snd (Worker.fetch (createStream "  My Stream #1 ") Worker.initial)))
     = Worker.Returned
         (Worker.jsonReply 200
            (JS.Jarr (map JS.Jstr
                          (JS.Set_add (Worker.sanitize "  My Stream #1 ")
                                      (Worker.KNOWN_STREAMS Worker.initial)))))
  /\ In (Worker.sanitize "  My Stream #1 ")
        (JS.Set_add (Worker.sanitize "  My Stream #1 ")
                    (Worker.KNOWN_STREAMS Worker.initial))
  /\ (In (Worker.sanitize "  My Stream #1 ") (Worker.KNOWN_STREAMS Worker.initial) ->
      JS.Set_add (Worker.sanitize "  My Stream #1 ") (Worker.KNOWN_STREAMS Worker.initial)
      = Worker.KNOWN_STREAMS Worker.initial)
  /\ (~ In (Worker.sanitize "  My Stream #1 ") (Worker.KNOWN_STREAMS Worker.initial) ->
      JS.Set_add (Worker.sanitize "  My Stream #1 ") (Worker.KNOWN_STREAMS Worker.initial)
      = (Worker.KNOWN_STREAMS Worker.initial ++ [Worker.sanitize "  My Stream #1 "])%list).
Proof.
  apply (created_stream_is_listed Worker.initial (createStream "  My Stream #1 ")
           (JS.Jobj [("streamId", JS.Jstr "  My Stream #1 ")]) "  My Stream #1 ").
  - reflexivity.
  - reflexivity.
  - reflexivity.
  - reflexivity.
  - vm_compute. discriminate.
Defined.

(** The creation route tests the id before it sanitizes it and not after:
    an id that is not blank but holds no character of [a-zA-Z0-9_-] is
    accepted, the stream that is created and listed has the empty id, and
    neither the viewer page nor the relay route can be asked for it: both
    answer 400 for an empty id. *)
Theorem created_id_can_be_empty (known : Worker.Known) (raw method : string)
    (upgrade : option string) (body : option JS.Json) :
  JS.trim raw <> "" ->
  JS.strip_non_id raw = "" ->
  fst (Worker.fetch (createStream raw) known)
  = Worker.Returned (Worker.jsonReply 200 (JS.Jobj [("streamId", JS.Jstr "")]))
  /\ In "" (Worker.KNOWN_STREAMS (snd (Worker.fetch (createStream raw) known)))
  /\ (forall known',
        fst (Worker.fetch {| Worker.http_method := method;
                             Worker.http_request :=
                               {| req_upgrade := upgrade; req_pathname := "/view/" ++ "" |};
                             Worker.http_json := body |} known')
        = Worker.Returned (Worker.Replied 400 None (Worker.PlainBody "Stream ID is required"))
        /\ fst (Worker.fetch {| Worker.http_method := method;
                                Worker.http_request :=
                                  {| req_upgrade := upgrade;
                                     req_pathname := "/stream/" ++ "" |};
                                Worker.http_json := body |} known')
           = Worker.Returned
               (Worker.Replied 400 None (Worker.PlainBody "Stream ID is required"))).
Proof.
  intros Hblank Hstrip.
  assert (S : Worker.sanitize raw = "").
  { unfold Worker.sanitize. now rewrite strip_trim, Hstrip. }
  assert (E : Worker.fetch (createStream raw) known
              = (Worker.Returned
                   (Worker.jsonReply 200 (JS.Jobj [("streamId", JS.Jstr "")])),
                 {| Worker.KNOWN_ROOMS := Worker.KNOWN_ROOMS known;
                    Worker.KNOWN_STREAMS := JS.Set_add "" (Worker.KNOWN_STREAMS known) |})).
  { unfold Worker.fetch, createStream. cbn -[Worker.create].
    rewrite (create_valid "streamId" (JS.Jobj [("streamId", JS.Jstr raw)]) raw
               eq_refl Hblank).
    now rewrite S. }
  rewrite E. split; [reflexivity|]. split; [apply Set_add_In|].
  intro known'. split; reflexivity.
Qed.

Lemma created_id_can_be_empty_witness :
  fst (Worker.fetch (createStream "#!?") Worker.initial)
  = Worker.Returned (Worker.jsonReply 200 (JS.Jobj [("streamId", JS.Jstr "")]))
  /\ In "" (Worker.KNOWN_STREAMS (snd (Worker.fetch (createStream "#!?") Worker.initial)))
  /\ (forall known',
        fst (Worker.fetch {| Worker.http_method := "GET";
                             Worker.http_request :=
                               {| req_upgrade := None; req_pathname := "/view/" ++ "" |};
                             Worker.http_json := None |} known')
        = Worker.Returned (Worker.Replied 400 None (Worker.PlainBody "Stream ID is required"))
        /\ fst (Worker.fetch {| Worker.http_method := "GET";
                                Worker.http_request :=
                                  {| req_upgrade := None;
                                     req_pathname := "/stream/" ++ "" |};
                                Worker.http_json := None |} known')
           = Worker.Returned
               (Worker.Replied 400 None (Worker.PlainBody "Stream ID is required"))).
Proof.
  apply (created_id_can_be_empty Worker.initial "#!?" "GET" None None).
  - vm_compute. discriminate.
  - reflexivity.
Defined.

(** ** From the stream route to the relay *)

Lemma substring_all s : substring 0 (String.length s) s = s.
Proof. induction s as [|c s IH]; cbn; [reflexivity | now rewrite IH]. Qed.

Lemma drop_stream_prefix id : drop (String.length "/stream/") ("/stream/" ++ id) = id.
Proof. unfold drop. cbn. rewrite Nat.sub_0_r. apply substring_all. Qed.

Lemma prefix_stream id : String.prefix "/stream/" ("/stream/" ++ id) = true.
Proof. cbn. now destruct id. Qed.

Lemma until_colon_all id : JS.mentions ":" id = false -> until_colon id = id.
Proof.
  induction id as [|c id IH]; cbn; [reflexivity|].
  intro H. apply orb_false_iff in H. destruct H as [Hc Hid].
  rewrite Hc. now rewrite IH.
Qed.

(** The stream route and the relay agree on the id. For every id that is
    not empty and holds no colon (as every sanitized id), a request for
    [/stream/] followed by the id is forwarded, whatever its method, its
    headers and the known streams, to the relay named [stream:] followed by
    the id, and a relay constructed under that name has exactly this id as
    its stream id. *)
Theorem stream_route_names_the_relay (id method idString : string)
    (upgrade : option string) (body : option JS.Json) (known : Worker.Known)
    (env : Env) :
  id <> "" ->
  JS.mentions ":" id = false ->
  Worker.fetch {| Worker.http_method := method;
                  Worker.http_request :=
                    {| req_upgrade := upgrade; req_pathname := "/stream/" ++ id |};
                  Worker.http_json := body |} known
  = (Worker.Returned (Worker.Forwarded (Worker.StreamRelayObject ("stream:" ++ id))),
     known)
  /\ streamId (constructor {| id_name := Some ("stream:" ++ id);
                              id_toString := idString |} env)
     = id.
Proof.
  intros Hne Hcolon.
  assert (T : JS.truthy_string id = true).
  { unfold JS.truthy_string. destruct (id =? "") eqn:E; [|reflexivity].
    apply String.eqb_eq in E. contradiction. }
  split.
  - unfold Worker.fetch. cbn [Worker.http_request Worker.http_method req_pathname].
    change (String.prefix "/chat/" ("/stream/" ++ id)) with false.
    cbv iota. rewrite prefix_stream, drop_stream_prefix, T. reflexivity.
  - unfold constructor. cbn [streamId id_name].
    rewrite split_second, after_colon_stream. cbn [option_map].
    rewrite (until_colon_all id Hcolon). unfold JS.or_else. now rewrite T.
Qed.

Lemma stream_route_names_the_relay_witness :
  Worker.fetch {| Worker.http_method := "GET";
                  Worker.http_request :=
                    {| req_upgrade := Some "websocket";
                       req_pathname := "/stream/" ++ "mystream1" |};
                  Worker.http_json := None |} Worker.initial
  = (Worker.Returned (Worker.Forwarded (Worker.StreamRelayObject ("stream:" ++ "mystream1"))),
     Worker.initial)
  /\ streamId (constructor {| id_name := Some ("stream:" ++ "mystream1");
                              id_toString := "f3a9c1" |} {| SFU_SERVER_URL := None |})
     = "mystream1".
Proof.
  apply (stream_route_names_the_relay "mystream1" "GET" "f3a9c1" (Some "websocket") None
           Worker.initial {| SFU_SERVER_URL := None |}).
  - discriminate.
  - reflexivity.
Defined.

(** ** The known rooms and streams only grow *)

Lemma Set_add_suffix x s : exists more, JS.Set_add x s = (s ++ more)%list.
Proof.
  unfold JS.Set_add. destruct (JS.Set_has x s).
  - exists []. now rewrite app_nil_r.
  - now exists [x].
Qed.

Lemma fetch_known request known :
  (is_creation request = false -> snd (Worker.fetch request known) = known)
  /\ (exists moreRooms moreStreams,
        Worker.KNOWN_ROOMS (snd (Worker.fetch request known))
        = (Worker.KNOWN_ROOMS known ++ moreRooms)%list
        /\ Worker.KNOWN_STREAMS (snd (Worker.fetch request known))
           = (Worker.KNOWN_STREAMS known ++ moreStreams)%list)
  /\ (NoDup (Worker.KNOWN_ROOMS known) ->
      NoDup (Worker.KNOWN_ROOMS (snd (Worker.fetch request known))))
  /\ (NoDup (Worker.KNOWN_STREAMS known) ->
      NoDup (Worker.KNOWN_STREAMS (snd (Worker.fetch request known)))).
Proof.
  assert (Same : forall (Q : Prop) (k : Worker.Known),
             k = known ->
             (Q -> k = known)
             /\ (exists moreRooms moreStreams,
                   Worker.KNOWN_ROOMS k = (Worker.KNOWN_ROOMS known ++ moreRooms)%list
                   /\ Worker.KNOWN_STREAMS k
                      = (Worker.KNOWN_STREAMS known ++ moreStreams)%list)
             /\ (NoDup (Worker.KNOWN_ROOMS known) -> NoDup (Worker.KNOWN_ROOMS k))
             /\ (NoDup (Worker.KNOWN_STREAMS known) -> NoDup (Worker.KNOWN_STREAMS k))).
  { intros Q k ->. split; [auto|]. split; [|auto].
    exists [], []. now rewrite !app_nil_r. }
  unfold Worker.fetch, is_creation.
  set (pathname := req_pathname (Worker.http_request request)).
  set (method := Worker.http_method request).
  destruct (String.prefix "/chat/" pathname); [apply Same; reflexivity|].
  destruct (String.prefix "/stream/" pathname).
  { destruct (negb _); apply Same; reflexivity. }
  destruct (pathname =? "/api/streams") eqn:Ps, (pathname =? "/api/rooms") eqn:Pr,
           (method =? "GET") eqn:Mg, (method =? "POST") eqn:Mp;
    cbn [andb orb];
    repeat match goal with
           | |- context [match Worker.create ?n ?b with _ => _ end] =>
               destruct (Worker.create n b)
           | |- context [if ?b then _ else _] => destruct b
           | |- context [match ?o with Some _ => _ | None => _ end] => destruct o
           end;
    try (apply Same; reflexivity);
    cbn [snd Worker.KNOWN_ROOMS Worker.KNOWN_STREAMS];
    (split; [discriminate|]); (split; [|split; auto using Set_add_NoDup]).
  all: match goal with
       | |- context [JS.Set_add ?x ?s] =>
           let more := fresh "more" in let E := fresh "E" in
           destruct (Set_add_suffix x s) as [more E];
           first [ exists [], more; now rewrite app_nil_r
                 | exists more, []; now rewrite app_nil_r ]
       end.
Qed.

(** Whatever requests the worker serves, its two sets only grow at the
    end: the rooms and streams known before are still known, in the same
    order and ahead of the new ones; a set without repetition stays
    without repetition; and requests that are not a POST to one of the two
    creation routes leave both sets exactly as they were. *)
Theorem known_sets_only_grow (requests : list Worker.HttpRequest) (known : Worker.Known) :
  (exists moreRooms moreStreams,
     Worker.KNOWN_ROOMS (Worker.serve requests known)
     = (Worker.KNOWN_ROOMS known ++ moreRooms)%list
     /\ Worker.KNOWN_STREAMS (Worker.serve requests known)
        = (Worker.KNOWN_STREAMS known ++ moreStreams)%list)
  /\ (NoDup (Worker.KNOWN_ROOMS known) ->
      NoDup (Worker.KNOWN_ROOMS (Worker.serve requests known)))
  /\ (NoDup (Worker.KNOWN_STREAMS known) ->
      NoDup (Worker.KNOWN_STREAMS (Worker.serve requests known)))
  /\ (forallb (fun request => negb (is_creation request)) requests = true ->
      Worker.serve requests known = known).
Proof.
  revert known. induction requests as [|request rest IH]; intro known.
  - cbn. split; [|auto]. exists [], []. now rewrite !app_nil_r.
  - cbn [Worker.serve forallb].
    destruct (fetch_known request known) as (Hsame & (r1 & s1 & Hr1 & Hs1) & Nr1 & Ns1).
    destruct (IH (snd (Worker.fetch request known)))
      as ((r2 & s2 & Hr2 & Hs2) & Nr2 & Ns2 & Hsame2).
    split; [|split; [|split]].
    + exists (r1 ++ r2)%list, (s1 ++ s2)%list.
      rewrite Hr2, Hs2, Hr1, Hs1. now rewrite !app_assoc.
    + auto.
    + auto.
    + intro H. apply andb_true_iff in H. destruct H as [H1 H2].
      apply negb_true_iff in H1. rewrite (Hsame2 H2). now apply Hsame.
Qed.

(* ===================================================================== *)
(** * The later revision: one cache field per media type *)
(* ===================================================================== *)

Example later_revision_on_the_sample_run :
  Deployed.receive [[x01; x11; x90]; [x00; x01; x64; x00; x1f]] Deployed.constructed
  = {| Deployed.audioCodecDescription := Some [x01; x11; x90];
       Deployed.videoCodecDescription := Some [x00; x01; x64; x00; x1f] |}
  /\ Deployed.replay 2 true
       (Deployed.receive [[x01; x11; x90]; [x00; x01; x64; x00; x1f]]
                         Deployed.constructed)
     = [[x01; x11; x90]; [x00; x01; x64; x00; x1f]].
Proof. split; reflexivity. Qed.



